(** * rain-or-not: station filter, time-aligned cache, staged acquisition,
      wind vectors and rain-arrival prediction

    A shallow embedding of [src/utils/location.ts],
    [src/services/weatherService.ts], [src/workers/distanceCalculator.ts] and
    the [ThreadedDistanceCalculator] class of
    [utils/threadedDistanceCalculator.ts], followed by the properties the
    specification states about them.

    Conventions of the embedding.
    - A JavaScript [number] that carries a measurement (degrees, kilometres,
      millimetres, knots) is a real number [R]: IEEE rounding, [NaN] and the
      infinities are outside the model.  Numbers that the code only uses as
      integers (status codes, list bounds, epoch milliseconds, rounded
      minutes) are [Z].
    - [Record<string, T>] is [gmap string T], the map of the object's own
      properties; a [Map] whose insertion order is observable is a list.
      An assignment [obj[k] = v] of a number to a plain object creates no own
      property for the key [__proto__] ([Js.assign]).  A read [obj[k]] of a
      key that is not an own property yields [undefined] except for the
      names of the members of [Object.prototype] ([Js.objectPrototypeNames]);
      a definition whose result depends on such a read says so.
    - [undefined]/[null] is [None].
    - [localStorage], the clock and the three HTTP feeds are explicit
      arguments and results.  A key of [localStorage] holds any text
      ([Stored]); an access may throw ([Denied], [setItemThrows]).
    - The answer of a feed has the shape of [GenericApiResponse], except that
      its [stations] may be missing or hold an entry that is not an object
      ([stationsFault]). *)

From Stdlib Require Import Reals Lra Lia ZArith.
From stdpp Require Import base decidable option list strings gmap pretty sorting.

#[global] Instance Rle_decision : RelDecision Rle := Rle_dec.
#[global] Instance Rlt_decision : RelDecision Rlt := Rlt_dec.
#[global] Instance Req_decision : EqDecision R := Req_dec_T.

(** ** JavaScript primitives *)

Module Js.
Local Open Scope R_scope.

(** Truncation toward zero, as performed by [%] on numbers. *)
Definition trunc (x : R) : Z :=
  if decide (0 <= x) then Zfloor x else (- Zfloor (- x))%Z.

(** [a % b] on numbers: the remainder has the sign of the dividend. *)
Definition rem (a b : R) : R := a - b * IZR (trunc (a / b)).

(** [Math.round]: the nearest integer, halves rounded toward +infinity. *)
Definition round (x : R) : Z := Zfloor (x + 1 / 2).

(** [Math.atan2(y, x)]. *)
Definition atan2 (y x : R) : R :=
  if decide (0 < x) then atan (y / x)
  else if decide (x < 0) then
    (if decide (0 <= y) then atan (y / x) + PI else atan (y / x) - PI)
  else if decide (0 < y) then PI / 2
  else if decide (y < 0) then - PI / 2
  else 0.

(** [x || y] on numbers: [x] unless it is zero. *)
Definition or (x y : R) : R := if decide (x = 0) then y else x.

(** [s || d] on a nullable string: [d] when [s] is null or empty. *)
Definition orString (s : option string) (d : string) : string :=
  match s with
  | Some m => if decide (m = "") then d else m
  | None => d
  end.

(** [arr[i]] for an integer index: [undefined] outside the array. *)
Definition index {A} (arr : list A) (i : Z) : option A :=
  if decide (0 <= i)%Z then arr !! Z.to_nat i else None.

(** [arr.slice(0, end)] for an integer [end]: a negative [end] counts from
    the back of the array. *)
Definition slice0 {A} (arr : list A) (e : Z) : list A :=
  let len := Z.of_nat (length arr) in
  let final := if decide (e < 0)%Z then Z.max (len + e) 0 else Z.min e len in
  take (Z.to_nat final) arr.

(** [arr.sort(cmp)]: the sort is stable, and for a comparator that is a
    consistent order it yields the stable ordering, here built by insertion.
    [x] is placed after [y] only when [cmp x y > 0]. *)
Fixpoint insert {A} (cmp : A -> A -> R) (x : A) (l : list A) : list A :=
  match l with
  | [] => [x]
  | y :: l' => if decide (cmp x y <= 0) then x :: y :: l' else y :: insert cmp x l'
  end.

Fixpoint sort {A} (cmp : A -> A -> R) (l : list A) : list A :=
  match l with
  | [] => []
  | x :: l' => insert cmp x (sort cmp l')
  end.

(** The names of the members of [Object.prototype]: for these, and only for
    these, [obj[k]] on a plain object without own property [k] is not
    [undefined]. *)
Definition objectPrototypeNames : list string :=
  ["constructor"; "__defineGetter__"; "__defineSetter__"; "hasOwnProperty";
   "__lookupGetter__"; "__lookupSetter__"; "isPrototypeOf";
   "propertyIsEnumerable"; "toString"; "valueOf"; "__proto__";
   "toLocaleString"].

(** [obj[k] = v] for a number [v] on a plain object: the key [__proto__]
    reaches the setter of [Object.prototype], which ignores a number, so no
    own property is created. *)
Definition assign {A} (obj : gmap string A) (k : string) (v : A) : gmap string A :=
  if decide (k = "__proto__") then obj else <[k := v]> obj.
End Js.

(** ** Data model ([types.ts]) *)

Record UserLocation := { latitude : R; longitude : R }.

Record Station := {
  id : string;
  deviceId : string;
  name : string;
  labelLocation : option UserLocation
}.

Record ReadingDataItem := { stationId : string; value : R }.

(** [Reading]: the code guards against a missing [data] array. *)
Record Reading := {
  reading_timestamp : string;
  reading_data : option (list ReadingDataItem)
}.

(** A station as it arrives on the wire ([rawStation] in the merge loop): the
    location may come under [labelLocation] or under [location]. *)
Record RawStation := {
  raw_id : string;
  raw_deviceId : string;
  raw_name : string;
  raw_labelLocation : option UserLocation;
  raw_location : option UserLocation
}.

Record ApiData := {
  api_stations : list RawStation;
  readings : list Reading;
  readingType : string;
  readingUnit : string;
  paginationToken : option string
}.

Record GenericApiResponse := {
  code : Z;
  errorMsg : option string;
  api_data : option ApiData
}.

Record WindVector := {
  velocityX : R;
  velocityY : R;
  magnitude : R;
  directionDeg : R
}.

Record WeatherData := {
  stations : list Station;
  rainfallMap : gmap string R;
  windSpeedMap : gmap string R;
  windDirectionMap : gmap string R;
  windVectors : gmap string WindVector;
  significantRainDetected : bool;
  timestamp : string;
  rainfallUnit : string;
  windSpeedUnit : string;
  windDirectionUnit : string
}.

(** ** [src/utils/location.ts] *)

Module Location.
Local Open Scope R_scope.

Definition deg2rad (deg : R) : R := deg * (PI / 180).

Definition rad2deg (rad : R) : R := rad * (180 / PI).

(** [getDistance]: [None] stands for the [Infinity] returned when a
    location is missing. *)
Definition getDistance (loc1 loc2 : option UserLocation) : option R :=
  match loc1, loc2 with
  | Some loc1, Some loc2 =>
      let R := 6371 in
      let dLat := deg2rad (latitude loc2 - latitude loc1) in
      let dLon := deg2rad (longitude loc2 - longitude loc1) in
      let a :=
        sin (dLat / 2) * sin (dLat / 2) +
        cos (deg2rad (latitude loc1)) * cos (deg2rad (latitude loc2)) *
        sin (dLon / 2) * sin (dLon / 2) in
      let c := 2 * Js.atan2 (sqrt a) (sqrt (1 - a)) in
      Some (R * c)
  | _, _ => None
  end.

Definition directions : list string :=
  ["N"; "NNE"; "NE"; "ENE"; "E"; "ESE"; "SE"; "SSE";
   "S"; "SSW"; "SW"; "WSW"; "W"; "WNW"; "NW"; "NNW"].

(** [convertDegreesToCardinal]: the result is [None] where the array access
    yields [undefined]. *)
Definition convertDegreesToCardinal (deg : R) : option string :=
  let index := Z.rem (Js.round (Js.rem deg 360 / 22.5)) 16 in
  Js.index directions index.

(** [calculateBearing]: the initial bearing from [loc1] to [loc2]. *)
Definition calculateBearing (loc1 loc2 : UserLocation) : R :=
  let lat1 := deg2rad (latitude loc1) in
  let lon1 := deg2rad (longitude loc1) in
  let lat2 := deg2rad (latitude loc2) in
  let lon2 := deg2rad (longitude loc2) in
  let y := sin (lon2 - lon1) * cos lat2 in
  let x := cos lat1 * sin lat2 - sin lat1 * cos lat2 * cos (lon2 - lon1) in
  let bearingRad := Js.atan2 y x in
  Js.rem (rad2deg bearingRad + 360) 360.

Definition toCartesian (location reference : UserLocation) : R * R :=
  let R := 6371 in
  let latDiff := deg2rad (latitude location - latitude reference) in
  let lonDiff := deg2rad (longitude location - longitude reference) in
  let x := R * lonDiff * cos (deg2rad (latitude reference)) in
  let y := R * latDiff in
  (x, y).

Definition PREDICTION_TIME_MINUTES : R := 15.
Definition SIGNIFICANT_RAIN_THRESHOLD_MM : R := 3.

Record Threat := {
  stationName : string;
  timeToReach : Z;
  distance : R
}.

(** The filter that selects [rainyStations].  For a station id that is not
    an own key, the reads [rainfallMap[id] ?? 0] and [windVectors[id]] fail
    the tests as a missing key does, also when they yield an inherited
    member. *)
Definition isRainyStation (weatherData : WeatherData) (station : Station) : bool :=
  bool_decide (is_Some (labelLocation station)) &&
  bool_decide (SIGNIFICANT_RAIN_THRESHOLD_MM <=
               default 0 (rainfallMap weatherData !! id station)) &&
  match windVectors weatherData !! id station with
  | Some windVector => bool_decide (0 < magnitude windVector)
  | None => false
  end.

(** The quantities the loop body computes for one station. *)
Definition stationToUser (userLocation stationLoc : UserLocation) : R * R :=
  let stationCartesian := toCartesian stationLoc userLocation in
  (0 - fst stationCartesian, 0 - snd stationCartesian).

Definition distanceToUser (userLocation stationLoc : UserLocation) : R :=
  let '(stationToUserX, stationToUserY) := stationToUser userLocation stationLoc in
  sqrt (stationToUserX * stationToUserX + stationToUserY * stationToUserY).

Definition dotProduct (userLocation stationLoc : UserLocation)
    (windVector : WindVector) : R :=
  let '(stationToUserX, stationToUserY) := stationToUser userLocation stationLoc in
  velocityX windVector * stationToUserX + velocityY windVector * stationToUserY.

Definition effectiveVelocity (userLocation stationLoc : UserLocation)
    (windVector : WindVector) : R :=
  dotProduct userLocation stationLoc windVector / distanceToUser userLocation stationLoc.

(** [timeToReach] before rounding, in minutes. *)
Definition timeToArrive (userLocation stationLoc : UserLocation)
    (windVector : WindVector) : R :=
  distanceToUser userLocation stationLoc /
  effectiveVelocity userLocation stationLoc windVector * 60.

(** One iteration of the loop over [rainyStations]: the threat it pushes,
    if any. *)
Definition threatOf (userLocation : UserLocation) (weatherData : WeatherData)
    (station : Station) : option Threat :=
  match labelLocation station, windVectors weatherData !! id station with
  | Some stationLoc, Some windVector =>
      if decide (0 < dotProduct userLocation stationLoc windVector) then
        if decide (0 < effectiveVelocity userLocation stationLoc windVector) then
          let time := timeToArrive userLocation stationLoc windVector in
          if decide (time <= PREDICTION_TIME_MINUTES) then
            Some {| stationName := name station;
                    timeToReach := Js.round time;
                    distance := distanceToUser userLocation stationLoc |}
          else None
        else None
      else None
  | _, _ => None
  end.

Definition rainyStations (weatherData : WeatherData) : list Station :=
  List.filter (isRainyStation weatherData) (stations weatherData).

Definition threats (userLocation : UserLocation) (weatherData : WeatherData)
    : list Threat :=
  omap (threatOf userLocation weatherData) (rainyStations weatherData).

(** The comparator handed to [threats.sort]. *)
Definition compareThreats (a b : Threat) : R :=
  Js.or (IZR (timeToReach a) - IZR (timeToReach b)) (distance a - distance b).

Definition veryCloseMessage (closestThreat : Threat) : string :=
  "Rain from " +:+ stationName closestThreat +:+
  " is very close and could arrive within " +:+ pretty (timeToReach closestThreat) +:+
  " minutes. Take cover soon!".

Definition approachingMessage (closestThreat : Threat) : string :=
  "Rain from " +:+ stationName closestThreat +:+
  " is moving your way and could arrive in about " +:+
  pretty (timeToReach closestThreat) +:+ " minutes.".

Definition calculateRainPrediction (userLocation : UserLocation)
    (weatherData : WeatherData) : string :=
  if negb (significantRainDetected weatherData) then
    "No significant rainfall (>=3mm) detected at any weather station. You should stay dry."
  else
    match rainyStations weatherData with
    | [] => "Significant rain detected elsewhere."
    | _ :: _ =>
        match Js.sort compareThreats (threats userLocation weatherData) with
        | closestThreat :: _ =>
            if decide (timeToReach closestThreat <= 5)%Z
            then veryCloseMessage closestThreat
            else approachingMessage closestThreat
        | [] =>
            "Significant rain is detected, but current wind patterns suggest it is not heading towards your location within the next 15 minutes."
        end
    end.
End Location.

(** ** Effects: [localStorage], the clock and the HTTP feeds *)

(** What a [localStorage] key holds, as the readers of this module see it:
    - [Unparsable]: text on which [JSON.parse] or the destructuring of its
      result throws;
    - [Item expiry data]: the serialised [{expiry, data}] record;
    - [EmptyText]: the empty string;
    - [NoExpiry data]: text that parses to a value without a numeric
      [expiry]; [data] is its [data] field, if it has one;
    - [NoData expiry]: text that parses to a value with a numeric [expiry]
      and no [data] field;
    - [Denied message]: every access to the key throws an error with this
      message (storage disabled or blocked by the browser). *)
Inductive Stored (A : Type) :=
  | Unparsable
  | Item (expiry : Z) (data : A)
  | EmptyText
  | NoExpiry (data : option A)
  | NoData (expiry : Z)
  | Denied (message : string).
Arguments Unparsable {A}.
Arguments Item {A} expiry data.
Arguments EmptyText {A}.
Arguments NoExpiry {A} data.
Arguments NoData {A} expiry.
Arguments Denied {A} message.

Record LocalStorage := {
  weatherDataCache : option (Stored WeatherData);
  windVectorsCache : option (Stored (gmap string WindVector))
}.

(** The two keys of [localStorage] that the weather service uses. *)
Inductive StorageKey := CACHE_KEY | WIND_VECTORS_KEY.

Inductive Endpoint := Rainfall | WindSpeed | WindDirection.

(** A thrown value: an [Error] with its message, or anything else. *)
Inductive Thrown :=
  | ErrorObject (message : string)
  | OtherValue.

(** The outcome of a promise, and of a block that may throw. *)
Inductive Settled (A : Type) :=
  | Fulfilled (a : A)
  | Rejected (e : Thrown).
Arguments Fulfilled {A} a.
Arguments Rejected {A} e.

(** The surroundings of one call of [fetchWeatherData]: what each feed answers,
    which of the two wind requests settles first, the local time-zone offset in
    minutes, and the clock readings taken at the cache check, at the wind-vector
    save and at the cache write; for each feed, the message of the
    [TypeError] with which the merge of the stations stops on its answer,
    when the [stations] array of the answer is missing or holds an entry that
    is not an object; and whether [localStorage.setItem] throws on a key
    (quota exceeded, storage disabled). *)
Record Env := {
  feed : Endpoint -> Settled GenericApiResponse;
  windSpeedSettlesFirst : bool;
  timezoneOffsetMinutes : Z;
  nowAtCheck : Z;
  nowAtVectors : Z;
  nowAtStore : Z;
  nowIso : string;
  stationsFault : Endpoint -> option string;
  setItemThrows : StorageKey -> bool
}.

(** The state a call reads and writes; [calls] records the requests issued. *)
Record World := {
  storage : LocalStorage;
  calls : list Endpoint
}.

Definition M (A : Type) : Type := World -> Settled A * World.

Definition ret {A} (a : A) : M A := fun w => (Fulfilled a, w).

Definition throw {A} (e : Thrown) : M A := fun w => (Rejected e, w).

Definition bind {A B} (m : M A) (k : A -> M B) : M B :=
  fun w =>
    match m w with
    | (Fulfilled a, w') => k a w'
    | (Rejected e, w') => (Rejected e, w')
    end.

Notation "x <- m ;; k" := (bind m (fun x => k))
  (at level 100, m at next level, right associativity).

Definition modifyStorage (f : LocalStorage -> LocalStorage) : M unit :=
  fun w => (Fulfilled tt, {| storage := f (storage w); calls := calls w |}).

(** A write to [localStorage] inside [try { ... } catch { console.error }]:
    when [setItem] throws, the storage stays as it is and the caller goes on. *)
Definition tryWrite (env : Env) (key : StorageKey)
    (write : LocalStorage -> LocalStorage) : M unit :=
  modifyStorage (fun st => if setItemThrows env key then st else write st).

(** [fetch(url).then(res => res.json())] *)
Definition fetch (env : Env) (ep : Endpoint) : M GenericApiResponse :=
  fun w => (feed env ep, {| storage := storage w; calls := calls w ++ [ep] |}).

(** [Promise.all] of two requests: both are issued; the first rejection to
    settle is the one that surfaces. *)
Definition fetchBoth (env : Env) (ep1 ep2 : Endpoint)
    : M (GenericApiResponse * GenericApiResponse) :=
  fun w =>
    let w' := {| storage := storage w; calls := calls w ++ [ep1; ep2] |} in
    match feed env ep1, feed env ep2 with
    | Fulfilled r1, Fulfilled r2 => (Fulfilled (r1, r2), w')
    | Rejected e1, Fulfilled _ => (Rejected e1, w')
    | Fulfilled _, Rejected e2 => (Rejected e2, w')
    | Rejected e1, Rejected e2 =>
        (Rejected (if windSpeedSettlesFirst env then e1 else e2), w')
    end.

(** ** [src/services/weatherService.ts] *)

Record WeatherConfig := {
  radiusKm : R;
  maxStations : Z;
  minStations : Z
}.

Module WeatherService.
Local Open Scope R_scope.

Definition DEFAULT_CONFIG : WeatherConfig :=
  {| radiusKm := 15; maxStations := 20; minStations := 5 |}.

Definition calculateDistance (lat1 lon1 lat2 lon2 : R) : R :=
  let R := 6371 in
  let dLat := (lat2 - lat1) * PI / 180 in
  let dLon := (lon2 - lon1) * PI / 180 in
  let a := sin (dLat / 2) * sin (dLat / 2) +
           cos (lat1 * PI / 180) * cos (lat2 * PI / 180) *
           sin (dLon / 2) * sin (dLon / 2) in
  let c := 2 * Js.atan2 (sqrt a) (sqrt (1 - a)) in
  R * c.

(** [!x] for an optional number: true when it is missing or zero. *)
Definition falsy (x : option R) : bool :=
  match x with
  | None => true
  | Some v => bool_decide (v = 0)
  end.

(** [stations.filter(s => s.labelLocation).map(s => ({station, distance}))] *)
Definition withDistance (userLat userLon : R) (stations : list Station)
    : list (Station * R) :=
  omap (fun station =>
          match labelLocation station with
          | Some loc =>
              Some (station,
                    calculateDistance userLat userLon (latitude loc) (longitude loc))
          | None => None
          end) stations.

Definition byDistance (a b : Station * R) : R := snd a - snd b.

Definition filterNearbyStations (stations : list Station)
    (userLat userLon : option R) (config : WeatherConfig) : list Station :=
  if falsy userLat || falsy userLon then stations
  else
    let lat := default 0 userLat in
    let lon := default 0 userLon in
    let stationsWithDistance :=
      Js.slice0
        (Js.sort byDistance
           (List.filter (fun item => bool_decide (snd item <= radiusKm config))
              (withDistance lat lon stations)))
        (maxStations config) in
    let nearbyStations := fst <$> stationsWithDistance in
    if bool_decide (Z.of_nat (length nearbyStations) < minStations config)%Z &&
       bool_decide (Z.of_nat (length stations) >= minStations config)%Z
    then
      let allStationsWithDistance :=
        Js.slice0 (Js.sort byDistance (withDistance lat lon stations))
          (minStations config) in
      fst <$> allStationsWithDistance
    else nearbyStations.

(** [Date.prototype.getMinutes] for an epoch time in milliseconds, in a zone
    [tz] minutes ahead of UTC. *)
Definition getMinutes (tz now : Z) : Z := ((now / 60000 + tz) mod 60)%Z.

(** [setSeconds(0)] followed by [setMilliseconds(0)]. *)
Definition zeroSeconds (t : Z) : Z := (t - t mod 60000)%Z.

Definition getNext5MinMark (tz now : Z) : Z :=
  let minutes := getMinutes tz now in
  let minutesToAdd := (5 - Z.rem minutes 5)%Z in
  zeroSeconds (now + minutesToAdd * 60 * 1000)%Z.

Definition removeWeatherCache (st : LocalStorage) : LocalStorage :=
  {| weatherDataCache := None; windVectorsCache := windVectorsCache st |}.

(** [getCachedData], reading the clock as [now]: what it returns and the
    storage it leaves.  [if (!cachedItem) return null] answers a missing key
    and the empty string alike; [Date.now() > expiry] is false for an
    [expiry] that is not a number, and [data] is then returned as it is; the
    [catch] block removes the key.  On a [Denied] key [getItem] throws and so
    does the [removeItem] of the [catch] block, so the call does not return:
    [getCachedDataThrows] gives the error, and the pair given here for that
    case is not used by [checkCache]. *)
Definition getCachedData (now : Z) (st : LocalStorage)
    : option WeatherData * LocalStorage :=
  match weatherDataCache st with
  | None => (None, st)
  | Some EmptyText => (None, st)
  | Some (Item expiry data) =>
      if decide (now > expiry)%Z then (None, removeWeatherCache st)
      else (Some data, st)
  | Some (NoData expiry) =>
      if decide (now > expiry)%Z then (None, removeWeatherCache st)
      else (None, st)
  | Some (NoExpiry data) => (data, st)
  | Some Unparsable => (None, removeWeatherCache st)
  | Some (Denied _) => (None, st)
  end.

(** The error with which [getCachedData] throws instead of returning. *)
Definition getCachedDataThrows (st : LocalStorage) : option Thrown :=
  match weatherDataCache st with
  | Some (Denied message) => Some (ErrorObject message)
  | _ => None
  end.

(** The write of [setCachedData], reading the clock as [now]; the function is
    this write inside [try]/[catch]: [tryWrite]. *)
Definition setCachedData (tz now : Z) (data : WeatherData) (st : LocalStorage)
    : LocalStorage :=
  {| weatherDataCache := Some (Item (getNext5MinMark tz now) data);
     windVectorsCache := windVectorsCache st |}.

Definition convertToWindVector (speedKnots directionDeg : R) : WindVector :=
  let speedKmh := speedKnots * 1.852 in
  let travelDirectionRad := Js.rem (directionDeg + 180) 360 * (PI / 180) in
  let velocityX := speedKmh * cos travelDirectionRad in
  let velocityY := speedKmh * sin travelDirectionRad in
  {| velocityX := velocityX;
     velocityY := velocityY;
     magnitude := speedKmh;
     directionDeg := Js.rem (directionDeg + 180) 360 |}.

(** The write of [saveWindVectors]; the function is this write inside
    [try]/[catch]: [tryWrite]. *)
Definition saveWindVectors (tz now : Z) (windVectors : gmap string WindVector)
    (st : LocalStorage) : LocalStorage :=
  {| weatherDataCache := weatherDataCache st;
     windVectorsCache := Some (Item (getNext5MinMark tz now) windVectors) |}.

(** The per-station map built from the latest reading of a feed:
    [map[item.stationId] = item.value] for every item, in order. *)
Definition readingMap (latestReading : option Reading) : gmap string R :=
  match latestReading with
  | Some reading =>
      match reading_data reading with
      | Some items =>
          foldl (fun m item => Js.assign m (stationId item) (value item)) ∅ items
      | None => ∅
      end
  | None => ∅
  end.

(** [Object.values(map).some(value => value >= threshold)] *)
Definition someAtLeast (threshold : R) (m : gmap string R) : bool :=
  bool_decide (Exists (fun kv => threshold <= snd kv) (map_to_list m)).

(** The wind vectors built from the speed and direction maps: an entry for
    every station that has both readings and a positive speed.

    The code reads [windDirectionMap[stationId]] for every own key of the
    speed map and tests it with [!== undefined].  For a station id in
    [Js.objectPrototypeNames] that has a positive speed and no direction
    reading, the read yields the inherited member and the code stores a
    vector whose magnitude is the speed in km/h and whose velocity and
    direction are [NaN]; such a vector is outside the number model, and the
    map defined here has no entry for that id.  For every other id the two
    agree; [windVectors[stationId] = ...] creates no own property for the
    key [__proto__]. *)
Definition buildWindVectors (windSpeedMap windDirectionMap : gmap string R)
    : gmap string WindVector :=
  delete "__proto__"
    (merge (fun speed direction =>
              match speed, direction with
              | Some speed, Some direction =>
                  if decide (0 < speed)
                  then Some (convertToWindVector speed direction) else None
              | _, _ => None
              end) windSpeedMap windDirectionMap).

(** A response passes the check [code !== 0 || !data] when it carries data
    under status zero. *)
Definition successData (response : GenericApiResponse) : option ApiData :=
  if decide (code response = 0%Z) then api_data response else None.

(** What step 3 leaves behind; [None] responses when the step is skipped. *)
Record WindStage := {
  windSpeedResponse : option ApiData;
  windDirResponse : option ApiData;
  stage_windSpeedMap : gmap string R;
  stage_windDirectionMap : gmap string R;
  stage_windVectors : gmap string WindVector
}.

Definition skippedWindStage : WindStage :=
  {| windSpeedResponse := None; windDirResponse := None;
     stage_windSpeedMap := ∅; stage_windDirectionMap := ∅;
     stage_windVectors := ∅ |}.

Definition fetchWindStage (env : Env) : M WindStage :=
  responses <- fetchBoth env WindSpeed WindDirection ;;
  match successData (fst responses) with
  | None =>
      throw (ErrorObject (Js.orString (errorMsg (fst responses))
               "Wind speed API returned an error without a message."))
  | Some speedData =>
      match successData (snd responses) with
      | None =>
          throw (ErrorObject (Js.orString (errorMsg (snd responses))
                   "Wind direction API returned an error without a message."))
      | Some dirData =>
          let windSpeedMap := readingMap (head (readings speedData)) in
          let windDirectionMap := readingMap (head (readings dirData)) in
          let windVectors := buildWindVectors windSpeedMap windDirectionMap in
          _ <- tryWrite env WIND_VECTORS_KEY
                 (saveWindVectors (timezoneOffsetMinutes env) (nowAtVectors env)
                    windVectors) ;;
          ret {| windSpeedResponse := Some speedData;
                 windDirResponse := Some dirData;
                 stage_windSpeedMap := windSpeedMap;
                 stage_windDirectionMap := windDirectionMap;
                 stage_windVectors := windVectors |}
      end
  end.

(** [rawStation.labelLocation || rawStation.location] *)
Definition locationData (rawStation : RawStation) : option UserLocation :=
  match raw_labelLocation rawStation with
  | Some loc => Some loc
  | None => raw_location rawStation
  end.

(** One step of the merge loop over [stationMap], kept in insertion order. *)
Fixpoint mergeStation (stationMap : list Station) (rawStation : RawStation)
    : list Station :=
  match stationMap with
  | [] =>
      [ {| id := raw_id rawStation;
           deviceId := raw_deviceId rawStation;
           name := raw_name rawStation;
           labelLocation := locationData rawStation |} ]
  | existingStation :: rest =>
      if decide (id existingStation = raw_id rawStation) then
        match labelLocation existingStation with
        | Some _ => existingStation :: rest
        | None =>
            {| id := id existingStation;
               deviceId := deviceId existingStation;
               name := name existingStation;
               labelLocation := locationData rawStation |} :: rest
        end
      else existingStation :: mergeStation rest rawStation
  end.

Definition mergeStations (responses : list ApiData) : list Station :=
  foldl (fun stationMap res => foldl mergeStation stationMap (api_stations res))
    [] responses.

(** The re-keying of a per-station map to the nearby station ids. *)
Definition onlyNearby {A} (nearbyStationIds : gset string) (m : gmap string A)
    : gmap string A :=
  filter (fun kv => fst kv ∈ nearbyStationIds) m.

(** The feeds whose answers the merge reads: the rainfall one, and the two
    wind ones when step 3 ran. *)
Definition mergedEndpoints (wind : WindStage) : list Endpoint :=
  Rainfall ::
  match windSpeedResponse wind with Some _ => [WindSpeed] | None => [] end ++
  match windDirResponse wind with Some _ => [WindDirection] | None => [] end.

(** The [TypeError] with which
    [responses.forEach(res => (res.data.stations as any[]).forEach(...))]
    stops, if it does: that of the first answer whose stations are at
    fault. *)
Definition mergeFault (env : Env) (wind : WindStage) : option string :=
  head (omap (stationsFault env) (mergedEndpoints wind)).

(** The body of the [try] block. *)
Definition acquire (env : Env) (userLocation : option UserLocation)
    (config : WeatherConfig) : M WeatherData :=
  rainResponse <- fetch env Rainfall ;;
  match successData rainResponse with
  | None =>
      throw (ErrorObject (Js.orString (errorMsg rainResponse)
               "Rainfall API returned an error without a message."))
  | Some rainData =>
      let rainfallMap := readingMap (head (readings rainData)) in
      let significantRainDetected := someAtLeast 1 rainfallMap in
      wind <- (if significantRainDetected then fetchWindStage env
               else ret skippedWindStage) ;;
      let responses :=
        rainData :: option_list (windSpeedResponse wind) ++
        option_list (windDirResponse wind) in
      _ <- match mergeFault env wind with
           | Some message => throw (ErrorObject message)
           | None => ret tt
           end ;;
      let allStations := mergeStations responses in
      let nearbyStations :=
        match userLocation with
        | Some loc =>
            filterNearbyStations allStations
              (Some (latitude loc)) (Some (longitude loc)) config
        | None => allStations
        end in
      let nearbyStationIds : gset string := list_to_set (id <$> nearbyStations) in
      let rekey {A} (m : gmap string A) : gmap string A :=
        match userLocation with
        | Some _ => onlyNearby nearbyStationIds m
        | None => m
        end in
      let combinedData :=
        {| stations := nearbyStations;
           rainfallMap := rekey rainfallMap;
           windSpeedMap := rekey (stage_windSpeedMap wind);
           windDirectionMap := rekey (stage_windDirectionMap wind);
           windVectors := rekey (stage_windVectors wind);
           significantRainDetected := significantRainDetected;
           timestamp :=
             Js.orString (reading_timestamp <$> head (readings rainData)) (nowIso env);
           rainfallUnit := readingUnit rainData;
           windSpeedUnit :=
             Js.orString (readingUnit <$> windSpeedResponse wind) "knots";
           windDirectionUnit :=
             Js.orString (readingUnit <$> windDirResponse wind) "degrees" |} in
      _ <- tryWrite env CACHE_KEY
             (setCachedData (timezoneOffsetMinutes env) (nowAtStore env) combinedData) ;;
      ret combinedData
  end.

(** The [catch] block: every failure leaves as one [Error]. *)
Definition rethrow {A} (m : M A) : M A :=
  fun w =>
    match m w with
    | (Fulfilled a, w') => (Fulfilled a, w')
    | (Rejected (ErrorObject message), w') =>
        (Rejected (ErrorObject ("Could not retrieve weather data: " +:+ message)), w')
    | (Rejected OtherValue, w') =>
        (Rejected (ErrorObject "An unknown error occurred while fetching weather data."), w')
    end.

(** The cache check that opens [fetchWeatherData].  It stands before the
    [try] block: an error that leaves [getCachedData] leaves
    [fetchWeatherData] as it is. *)
Definition checkCache (env : Env) (forceRefresh : bool) : M (option WeatherData) :=
  fun w =>
    if forceRefresh then (Fulfilled None, w)
    else
      match getCachedDataThrows (storage w) with
      | Some error => (Rejected error, w)
      | None =>
          let '(cachedData, st) := getCachedData (nowAtCheck env) (storage w) in
          (Fulfilled cachedData, {| storage := st; calls := calls w |})
      end.

Definition fetchWeatherData (env : Env) (forceRefresh : bool)
    (userLocation : option UserLocation) (config : WeatherConfig) : M WeatherData :=
  cachedData <- checkCache env forceRefresh ;;
  match cachedData with
  | Some cachedData => ret cachedData
  | None => rethrow (acquire env userLocation config)
  end.

Definition removeWindVectorsCache (st : LocalStorage) : LocalStorage :=
  {| weatherDataCache := weatherDataCache st; windVectorsCache := None |}.

(** [getWindVectorsFromStorage], reading the clock as [now]; the cases are
    those of [getCachedData], and on a [Denied] key the call throws
    ([getWindVectorsFromStorageThrows]) instead of returning. *)
Definition getWindVectorsFromStorage (now : Z) (st : LocalStorage)
    : option (gmap string WindVector) * LocalStorage :=
  match windVectorsCache st with
  | None => (None, st)
  | Some EmptyText => (None, st)
  | Some (Item expiry data) =>
      if decide (now > expiry)%Z then (None, removeWindVectorsCache st)
      else (Some data, st)
  | Some (NoData expiry) =>
      if decide (now > expiry)%Z then (None, removeWindVectorsCache st)
      else (None, st)
  | Some (NoExpiry data) => (data, st)
  | Some Unparsable => (None, removeWindVectorsCache st)
  | Some (Denied _) => (None, st)
  end.

Definition getWindVectorsFromStorageThrows (st : LocalStorage) : option Thrown :=
  match windVectorsCache st with
  | Some (Denied message) => Some (ErrorObject message)
  | _ => None
  end.
End WeatherService.

(** ** [src/workers/distanceCalculator.ts] *)

(** The [{id, lat, lon}] triple sent to a worker and the [{id, distance}] pair
    it sends back. *)
Record StationData := { data_id : string; lat : R; lon : R }.

Record DistanceResult := { result_id : string; result_distance : R }.

Module DistanceWorker.
Local Open Scope R_scope.

Definition calculateDistance (lat1 lon1 lat2 lon2 : R) : R :=
  let R := 6371 in
  let dLat := (lat2 - lat1) * PI / 180 in
  let dLon := (lon2 - lon1) * PI / 180 in
  let a := sin (dLat / 2) * sin (dLat / 2) +
           cos (lat1 * PI / 180) * cos (lat2 * PI / 180) *
           sin (dLon / 2) * sin (dLon / 2) in
  let c := 2 * Js.atan2 (sqrt a) (sqrt (1 - a)) in
  R * c.

Definition calculateDistancesForStations (userLat userLon : R)
    (stations : list StationData) : list DistanceResult :=
  (fun station =>
     {| result_id := data_id station;
        result_distance := calculateDistance userLat userLon (lat station) (lon station) |})
  <$> stations.
End DistanceWorker.

(** ** The [ThreadedDistanceCalculator] class *)

Module ThreadedDistanceCalculator.
Local Open Scope R_scope.

(** The fields of the class that the distance computation reads and writes:
    [workers] is the length of the worker array. *)
Record Pool := {
  isInitialized : bool;
  workers : nat;
  messageId : nat
}.

(** [initialize]: [min(cpuCores, 8)] workers are created and pushed one by
    one.  [failsAt = Some i] says that the constructor of the worker of index
    [i] throws; the [catch] block then leaves the pool uninitialised, with
    the workers pushed so far. *)
Definition initialize (cpuCores : nat) (failsAt : option nat) (pool : Pool) : Pool :=
  if isInitialized pool then pool
  else
    let poolSize := Nat.min cpuCores 8 in
    match failsAt with
    | Some i =>
        if bool_decide (i < poolSize)%nat
        then {| isInitialized := false;
                workers := workers pool + i;
                messageId := messageId pool |}
        else {| isInitialized := true;
                workers := workers pool + poolSize;
                messageId := messageId pool |}
    | None =>
        {| isInitialized := true;
           workers := workers pool + poolSize;
           messageId := messageId pool |}
    end.

(** [sendToWorker('calculateDistancesForStations', data)].  [answers n] tells
    whether the worker answers message [msg_n] before the ten-second timeout;
    the result is [None] when the promise rejects. *)
Definition sendToWorker (answers : nat -> bool) (userLat userLon : R)
    (stations : list StationData) (pool : Pool)
    : option (list DistanceResult) * Pool :=
  if negb (isInitialized pool) || bool_decide (workers pool = 0%nat) then (None, pool)
  else
    let n := messageId pool in
    let pool' := {| isInitialized := isInitialized pool;
                    workers := workers pool;
                    messageId := S n |} in
    (if answers n
     then Some (DistanceWorker.calculateDistancesForStations userLat userLon stations)
     else None,
     pool').

Definition calculateDistanceSync (lat1 lon1 lat2 lon2 : R) : R :=
  let R := 6371 in
  let dLat := (lat2 - lat1) * PI / 180 in
  let dLon := (lon2 - lon1) * PI / 180 in
  let a := sin (dLat / 2) * sin (dLat / 2) +
           cos (lat1 * PI / 180) * cos (lat2 * PI / 180) *
           sin (dLon / 2) * sin (dLon / 2) in
  let c := 2 * Js.atan2 (sqrt a) (sqrt (1 - a)) in
  R * c.

Definition calculateDistancesSync (stations : list Station) (userLat userLon : R)
    : list (Station * R) :=
  omap (fun station =>
          match labelLocation station with
          | Some loc =>
              Some (station,
                    calculateDistanceSync userLat userLon (latitude loc) (longitude loc))
          | None => None
          end) stations.

(** [new Map(results.map(r => [r.id, r.distance]))]: a later pair replaces an
    earlier one with the same id. *)
Definition resultMap (results : list DistanceResult) : gmap string R :=
  foldl (fun m r => <[result_id r := result_distance r]> m) ∅ results.

Definition mapResultsToStations (results : list DistanceResult)
    (stations : list Station) : list (Station * R) :=
  omap (fun station =>
          match resultMap results !! id station with
          | Some d => Some (station, d)
          | None => None
          end) stations.

(** [stations.filter(s => s.labelLocation).map(s => ({id, lat, lon}))] *)
Definition toStationData (stations : list Station) : list StationData :=
  omap (fun station =>
          match labelLocation station with
          | Some loc =>
              Some {| data_id := id station;
                      lat := latitude loc;
                      lon := longitude loc |}
          | None => None
          end) stations.

(** [Math.ceil(a / b)] for lengths. *)
Definition ceilDiv (a b : nat) : nat := ((a + b - 1) / b)%nat.

(** The loop [for (i = 0; i < n; i += chunkSize) chunks.push(slice(i, i + chunkSize))];
    [fuel] bounds the number of iterations. *)
Fixpoint chunksFrom {A} (fuel chunkSize : nat) (rest : list A) : list (list A) :=
  match fuel with
  | O => []
  | S fuel' =>
      match rest with
      | [] => []
      | _ :: _ =>
          take chunkSize rest :: chunksFrom fuel' chunkSize (drop chunkSize rest)
      end
  end.

Definition chunksOf {A} (chunkSize : nat) (l : list A) : list (list A) :=
  chunksFrom (length l) chunkSize l.

(** [chunks.map(chunk => this.sendToWorker(...))]: every chunk is sent, in
    order, before any answer is awaited. *)
Fixpoint sendChunks (answers : nat -> bool) (userLat userLon : R)
    (chunks : list (list StationData)) (pool : Pool)
    : list (option (list DistanceResult)) * Pool :=
  match chunks with
  | [] => ([], pool)
  | chunk :: chunks' =>
      let '(r, pool1) := sendToWorker answers userLat userLon chunk pool in
      let '(rs, pool2) := sendChunks answers userLat userLon chunks' pool1 in
      (r :: rs, pool2)
  end.

(** [Promise.all]: all the answers, or [None] as soon as one is missing. *)
Fixpoint promiseAll {A} (results : list (option A)) : option (list A) :=
  match results with
  | [] => Some []
  | r :: results' =>
      match r, promiseAll results' with
      | Some a, Some rest => Some (a :: rest)
      | _, _ => None
      end
  end.

Definition calculateDistancesParallel (answers : nat -> bool) (pool : Pool)
    (stations : list Station) (userLat userLon : R)
    : list (Station * R) * Pool :=
  if negb (isInitialized pool) || bool_decide (workers pool = 0%nat)
  then (calculateDistancesSync stations userLat userLon, pool)
  else
    let stationData := toStationData stations in
    if bool_decide (length stationData = 0%nat) then ([], pool)
    else if bool_decide (length stationData <= 20)%nat then
      match sendToWorker answers userLat userLon stationData pool with
      | (Some result, pool') => (mapResultsToStations result stations, pool')
      | (None, pool') => (calculateDistancesSync stations userLat userLon, pool')
      end
    else
      let chunkSize :=
        ceilDiv (length stationData) (Nat.min (workers pool) (length stationData)) in
      let chunks := chunksOf chunkSize stationData in
      let '(promises, pool') := sendChunks answers userLat userLon chunks pool in
      match promiseAll promises with
      | Some results => (mapResultsToStations (concat results) stations, pool')
      | None => (calculateDistancesSync stations userLat userLon, pool')
      end.

(** The constructor: [navigator.hardwareConcurrency || 4], with [None] for a
    browser that does not report it, and an empty pool. *)
Definition detectCpuCores (hardwareConcurrency : option nat) : nat :=
  match hardwareConcurrency with
  | Some (S n) => S n
  | _ => 4%nat
  end.

Definition newPool : Pool :=
  {| isInitialized := false; workers := 0; messageId := 0 |}.

(** [terminate]: the workers are released and the pool is marked as not
    initialised; nothing happens when there are no workers. *)
Definition terminate (pool : Pool) : Pool :=
  if bool_decide (0 < workers pool)%nat
  then {| isInitialized := false; workers := 0; messageId := messageId pool |}
  else pool.

(** [getOptimalPoolSize]: [cores / 2] is a division of numbers, so the result
    need not be an integer. *)
Definition getOptimalPoolSize (hardwareConcurrency : option nat) (dataSize : nat) : R :=
  let cores := INR (detectCpuCores hardwareConcurrency) in
  if bool_decide (dataSize <= 10)%nat then 1
  else if bool_decide (dataSize <= 50)%nat then Rmin (cores / 2) 4
  else Rmin cores 8.
End ThreadedDistanceCalculator.

(** ** [App.tsx]: the nearest station shown to the user *)

Module App.

(** [distance < minDistance], where [None] stands for [Infinity]. *)
Definition closer (distance minDistance : option R) : bool :=
  match distance, minDistance with
  | Some d, Some m => bool_decide (d < m)%R
  | Some _, None => true
  | None, _ => false
  end.

(** One step of [data.stations.forEach]: the pair is
    [(closestStation, minDistance)]. *)
Definition closestStep (location : UserLocation)
    (acc : option Station * option R) (station : Station)
    : option Station * option R :=
  match labelLocation station with
  | Some loc =>
      let distance := Location.getDistance (Some location) (Some loc) in
      if closer distance (snd acc) then (Some station, distance) else acc
  | None => acc
  end.

Definition closestStation (location : UserLocation) (stations : list Station)
    : option Station :=
  fst (foldl (closestStep location) (None, None) stations).

(** The pieces of component state that [processWeatherData] sets. *)
Record Display := {
  nearestStation : option Station;
  rainfallValue : option R;
  windSpeed : option R;
  windDirection : option R
}.

(** [processWeatherData]: the new state, or the error that is shown when the
    snapshot has no stations (the state is then left as it was). *)
Definition processWeatherData (location : UserLocation) (data : WeatherData)
    (previous : Display) : string + Display :=
  match stations data with
  | [] => inl "No weather station data available."
  | _ :: _ =>
      match closestStation location (stations data) with
      | Some closest =>
          inr {| nearestStation := Some closest;
                 rainfallValue := Some (default 0%R (rainfallMap data !! id closest));
                 windSpeed := Some (default 0%R (windSpeedMap data !! id closest));
                 windDirection := Some (default 0%R (windDirectionMap data !! id closest)) |}
      | None =>
          inr {| nearestStation := None;
                 rainfallValue := rainfallValue previous;
                 windSpeed := windSpeed previous;
                 windDirection := windDirection previous |}
      end
  end.
End App.

(** * Vocabulary of the properties and example inputs *)

Section FilterPasses.
Import WeatherService.

(** The stations of the first pass: within the radius, by distance, cut at
    [maxStations]. *)
Definition withinRadius (stations : list Station) (lat lon : R)
    (config : WeatherConfig) : list Station :=
  fst <$> Js.slice0
    (Js.sort byDistance
       (List.filter (fun item => bool_decide (snd item <= radiusKm config)%R)
          (withDistance lat lon stations)))
    (maxStations config).

(** The stations of the second pass: the [minStations] closest ones. *)
Definition closestMin (stations : list Station) (lat lon : R)
    (config : WeatherConfig) : list Station :=
  fst <$> Js.slice0 (Js.sort byDistance (withDistance lat lon stations))
    (minStations config).

End FilterPasses.

(** Two located stations and a configuration with [minStations > maxStations]. *)
Definition twoStations : list Station :=
  [ {| id := "S1"; deviceId := "S1"; name := "Alpha";
       labelLocation := Some {| latitude := 1.30; longitude := 103.80 |} |};
    {| id := "S2"; deviceId := "S2"; name := "Bravo";
       labelLocation := Some {| latitude := 1.31; longitude := 103.81 |} |} ].

Definition floorAboveCap : WeatherConfig :=
  {| radiusKm := 15; maxStations := 1; minStations := 2 |}.


(** A five-minute boundary of the wall clock of a zone [tz] minutes ahead of
    UTC: seconds and milliseconds are zero and the minute is a multiple of 5. *)
Definition fiveMinuteBoundary (tz t : Z) : Prop :=
  (t mod 60000 = 0 /\ WeatherService.getMinutes tz t mod 5 = 0)%Z.

(** The epoch time at which the wall clock of zone [tz] shows [h:m:s.ms] on
    the first day of the epoch. *)
Definition wallClock (tz h m s ms : Z) : Z :=
  (((h * 60 + m - tz) * 60 + s) * 1000 + ms)%Z.

Definition emptyStorage : LocalStorage :=
  {| weatherDataCache := None; windVectorsCache := None |}.

(** A snapshot without stations or readings. *)
Definition drySnapshot : WeatherData :=
  {| stations := []; rainfallMap := ∅; windSpeedMap := ∅; windDirectionMap := ∅;
     windVectors := ∅; significantRainDetected := false;
     timestamp := "2025-07-26T10:00:00+08:00"; rainfallUnit := "mm";
     windSpeedUnit := "knots"; windDirectionUnit := "degrees" |}.

(** The point [km] kilometres due north of [reference] on the local plane. *)
Definition northOf (reference : UserLocation) (km : R) : UserLocation :=
  {| latitude := latitude reference + Location.rad2deg (km / 6371);
     longitude := longitude reference |}.

(** A wind vector blowing due south (toward negative [y]) at [speed] km/h. *)
Definition southward (speed : R) : WindVector :=
  {| velocityX := 0; velocityY := - speed; magnitude := speed; directionDeg := 180 |}.

Definition stationAt (stationId stationName : string) (loc : UserLocation) : Station :=
  {| id := stationId; deviceId := stationId; name := stationName;
     labelLocation := Some loc |}.

(** A snapshot flagged as rainy, with the given stations, rainfall and wind
    vectors. *)
Definition rainySnapshot (sts : list Station) (rain : gmap string R)
    (vectors : gmap string WindVector) : WeatherData :=
  {| stations := sts; rainfallMap := rain; windSpeedMap := ∅; windDirectionMap := ∅;
     windVectors := vectors; significantRainDetected := true;
     timestamp := "2025-07-26T10:00:00+08:00"; rainfallUnit := "mm";
     windSpeedUnit := "knots"; windDirectionUnit := "degrees" |}.

(** The first element of a list is not above any element of the list, for the
    comparator [cmp]. *)
Definition headLeast {A} (cmp : A -> A -> R) (l : list A) : Prop :=
  match l with
  | [] => True
  | c :: _ => forall t, t ∈ l -> (cmp c t <= 0)%R
  end.

(** The order in which [threats.sort] leaves the threats: whole minutes first,
    distance among equal minutes. *)
Definition threatLe (a b : Location.Threat) : Prop :=
  (Location.timeToReach a < Location.timeToReach b)%Z \/
  (Location.timeToReach a = Location.timeToReach b /\
   (Location.distance a <= Location.distance b)%R).

(** A reference point in Singapore. *)
Definition singapore : UserLocation := {| latitude := 1.3; longitude := 103.8 |}.

(** One rainy station 10 km north of [reference], under [windVector]. *)
Definition arrivalSnapshot (reference : UserLocation) (windVector : WindVector)
    : WeatherData :=
  rainySnapshot [stationAt "S1" "Alpha" (northOf reference 10)]
    {[ "S1" := 5%R ]} {[ "S1" := windVector ]}.

(** Two rainy stations north of the reference: Alpha 9.2 km away under a
    40 km/h wind (13.8 minutes), Bravo 4.7 km away under a 20 km/h wind
    (14.1 minutes). *)
Definition twoThreatsSnapshot : WeatherData :=
  rainySnapshot
    [stationAt "S1" "Alpha" (northOf singapore 9.2);
     stationAt "S2" "Bravo" (northOf singapore 4.7)]
    (<[ "S1" := 5%R ]> {[ "S2" := 5%R ]})
    (<[ "S1" := southward 40 ]> {[ "S2" := southward 20 ]}).

(** The cycle is not served from the cache: a refresh is forced, or the cache
    check returns and finds nothing usable. *)
Definition cacheMiss (env : Env) (forceRefresh : bool) (w : World) : Prop :=
  forceRefresh = true \/
  (WeatherService.getCachedDataThrows (storage w) = None /\
   fst (WeatherService.getCachedData (nowAtCheck env) (storage w)) = None).

(** The world as the cache check at the start of a cycle leaves it. *)
Definition afterCheck (env : Env) (forceRefresh : bool) (w : World) : World :=
  snd (WeatherService.checkCache env forceRefresh w).

(** The world after the requests [eps] have been issued. *)
Definition logged (w : World) (eps : list Endpoint) : World :=
  {| storage := storage w; calls := calls w ++ eps |}.

(** Some station of the map reports at least [threshold]. *)
Definition someStationAtLeast (threshold : R) (m : gmap string R) : Prop :=
  exists stationId v, m !! stationId = Some v /\ (threshold <= v)%R.

(** The batch of an answer: the items of its latest reading. *)
Definition latestBatch (data : ApiData) : list ReadingDataItem :=
  match head (readings data) with
  | Some reading => default [] (reading_data reading)
  | None => []
  end.

(** What a batch says about a station: the value of the last item that names
    it. *)
Definition stationReading (batch : list ReadingDataItem) (station : string)
    : option R :=
  value <$> last (filter (fun item => stationId item = station) batch).

(** Some station of the batch reports at least [threshold]; an item named
    [__proto__] is no report, since it leaves no key in the map. *)
Definition someStationReports (threshold : R) (batch : list ReadingDataItem) : Prop :=
  exists station v,
    station <> "__proto__" /\ stationReading batch station = Some v /\
    (threshold <= v)%R.

(** A batch that names every station once, and none [__proto__]. *)
Definition oneItemPerStation (batch : list ReadingDataItem) : Prop :=
  NoDup (stationId <$> batch) /\ "__proto__" ∉ stationId <$> batch.

(** The status check applied to every answer: it is rejected when its status
    code is not zero or it carries no data. *)
Definition rejectedAnswer (response : GenericApiResponse) : Prop :=
  code response <> 0%Z \/ api_data response = None.

Definition acceptedAnswer (response : GenericApiResponse) (data : ApiData) : Prop :=
  code response = 0%Z /\ api_data response = Some data.

(** [UpstreamFailure env response fallback]: every request the cycle issues is
    answered, and [response] is the first answer that the status check
    rejects, in the order rainfall, wind speed, wind direction; [fallback] is
    the text used when that answer carries no message.  The wind requests are
    issued when the rainfall answer is accepted and some station of its batch
    reports at least 1 mm. *)
Inductive UpstreamFailure (env : Env) : GenericApiResponse -> string -> Prop :=
  | RainfallFailed rain :
      feed env Rainfall = Fulfilled rain ->
      rejectedAnswer rain ->
      UpstreamFailure env rain "Rainfall API returned an error without a message."
  | WindSpeedFailed rain rainData speed direction :
      feed env Rainfall = Fulfilled rain ->
      acceptedAnswer rain rainData ->
      someStationReports 1 (latestBatch rainData) ->
      feed env WindSpeed = Fulfilled speed ->
      feed env WindDirection = Fulfilled direction ->
      rejectedAnswer speed ->
      UpstreamFailure env speed "Wind speed API returned an error without a message."
  | WindDirectionFailed rain rainData speed speedData direction :
      feed env Rainfall = Fulfilled rain ->
      acceptedAnswer rain rainData ->
      someStationReports 1 (latestBatch rainData) ->
      feed env WindSpeed = Fulfilled speed ->
      acceptedAnswer speed speedData ->
      feed env WindDirection = Fulfilled direction ->
      rejectedAnswer direction ->
      UpstreamFailure env direction "Wind direction API returned an error without a message.".

(** Example feeds. *)
Definition okResponse (items : list ReadingDataItem) : GenericApiResponse :=
  {| code := 0; errorMsg := None;
     api_data := Some {| api_stations := [];
                         readings := [ {| reading_timestamp := "2025-07-26T10:00:00+08:00";
                                          reading_data := Some items |} ];
                         readingType := "TM1"; readingUnit := "mm";
                         paginationToken := None |} |}.

Definition errorResponse (status : Z) (message : string) : GenericApiResponse :=
  {| code := status; errorMsg := Some message; api_data := None |}.

(** An answer with status 0 that carries stations and one reading. *)
Definition answer (rawStations : list RawStation) (unit : string)
    (items : list ReadingDataItem) : GenericApiResponse :=
  {| code := 0; errorMsg := None;
     api_data := Some {| api_stations := rawStations;
                         readings := [ {| reading_timestamp := "2025-07-26T10:00:00+08:00";
                                          reading_data := Some items |} ];
                         readingType := "TM1"; readingUnit := unit;
                         paginationToken := None |} |}.

(** An answer with status 0 and no data. *)
Definition emptyHanded : GenericApiResponse :=
  {| code := 0; errorMsg := None; api_data := None |}.

(** Feeds whose answers are complete, a storage that accepts writes. *)
Definition envOf (feeds : Endpoint -> Settled GenericApiResponse) : Env :=
  {| feed := feeds; windSpeedSettlesFirst := true; timezoneOffsetMinutes := 480;
     nowAtCheck := 1000; nowAtVectors := 1001; nowAtStore := 1002;
     nowIso := "2025-07-26T02:00:00.000Z";
     stationsFault := fun _ => None;
     setItemThrows := fun _ => false |}.

(** A dry day: every station below 1 mm. *)
Definition dryEnv : Env :=
  envOf (fun ep =>
           match ep with
           | Rainfall => Fulfilled (okResponse [ {| stationId := "S1"; value := 0 |};
                                                 {| stationId := "S2"; value := 0.4 |} ])
           | _ => Fulfilled (okResponse [])
           end).

(** Rain at one station, a wind-speed feed that answers with status 1 and
    message ["quota"], and a wind-direction request that fails in transport. *)
Definition failingEnv : Env :=
  envOf (fun ep =>
           match ep with
           | Rainfall => Fulfilled (okResponse [ {| stationId := "S1"; value := 5 |} ])
           | WindSpeed => Fulfilled (errorResponse 1 "quota")
           | WindDirection => Rejected (ErrorObject "Failed to fetch")
           end).

(** The two stations of [twoStations] as the feeds describe them. *)
Definition twoRawStations : list RawStation :=
  [ {| raw_id := "S1"; raw_deviceId := "S1"; raw_name := "Alpha";
       raw_labelLocation := Some {| latitude := 1.30; longitude := 103.80 |};
       raw_location := None |};
    {| raw_id := "S2"; raw_deviceId := "S2"; raw_name := "Bravo";
       raw_labelLocation := Some {| latitude := 1.31; longitude := 103.81 |};
       raw_location := None |} ].

Definition wetBatch : list ReadingDataItem :=
  [ {| stationId := "S1"; value := 5 |}; {| stationId := "S2"; value := 0.2 |} ].

(** A wet day: 5 mm at Alpha; both stations report wind. *)
Definition wetEnv : Env :=
  envOf (fun ep =>
           match ep with
           | Rainfall => Fulfilled (answer twoRawStations "mm" wetBatch)
           | WindSpeed =>
               Fulfilled (answer twoRawStations "knots"
                            [ {| stationId := "S1"; value := 10 |};
                              {| stationId := "S2"; value := 4 |} ])
           | WindDirection =>
               Fulfilled (answer twoRawStations "degrees"
                            [ {| stationId := "S1"; value := 90 |};
                              {| stationId := "S2"; value := 270 |} ])
           end).

(** A wet day on which the wind-speed feed answers with status 0 and no data
    and the wind-direction feed with status 1 and message ["quota"]. *)
Definition windSpeedEmptyEnv : Env :=
  envOf (fun ep =>
           match ep with
           | Rainfall => Fulfilled (answer twoRawStations "mm" wetBatch)
           | WindSpeed => Fulfilled emptyHanded
           | WindDirection => Fulfilled (errorResponse 1 "quota")
           end).

(** A wet day on which the wind-direction feed alone fails, with status 1 and
    message ["quota"]. *)
Definition windDirectionFailingEnv : Env :=
  envOf (fun ep =>
           match ep with
           | Rainfall => Fulfilled (answer twoRawStations "mm" wetBatch)
           | WindSpeed => Fulfilled (answer twoRawStations "knots" [])
           | WindDirection => Fulfilled (errorResponse 1 "quota")
           end).

(** The rainfall feed itself answers with status 1 and message ["quota"]. *)
Definition rainFailingEnv : Env :=
  envOf (fun ep =>
           match ep with
           | Rainfall => Fulfilled (errorResponse 1 "quota")
           | _ => Fulfilled (okResponse [])
           end).

(** A world whose weather slot holds an entry that expired at time 0. *)
Definition staleWorld : World :=
  {| storage := {| weatherDataCache := Some (Item 0 drySnapshot);
                   windVectorsCache := None |};
     calls := [] |}.

Definition freshWorld : World := {| storage := emptyStorage; calls := [] |}.

(** Two stations that share the id ["S1"]: one at the reference point, one
    half-way around the equator. *)
Definition duplicateIdStations : list Station :=
  [ stationAt "S1" "Alpha" {| latitude := 0; longitude := 0 |};
    stationAt "S1" "Bravo" {| latitude := 0; longitude := 180 |} ].

(** A pool of four workers that answer every message. *)
Definition fourWorkers : ThreadedDistanceCalculator.Pool :=
  {| ThreadedDistanceCalculator.isInitialized := true;
     ThreadedDistanceCalculator.workers := 4;
     ThreadedDistanceCalculator.messageId := 0 |}.

Definition alwaysAnswers : nat -> bool := fun _ => true.

(** Twenty-five located stations, more than one message carries. *)
Definition manyStations : list Station :=
  (fun n : nat => stationAt (pretty n) (pretty n) singapore) <$> seq 0 25.

(** * Vocabulary of the further properties *)

(** The distance from the reference point to a station, when it has a
    location. *)
Definition stationDistance (lat lon : R) (station : Station) : option R :=
  (fun loc => WeatherService.calculateDistance lat lon (latitude loc) (longitude loc))
  <$> labelLocation station.

(** Both stations have a location and the first is not farther than the
    second. *)
Definition nearerOrEqual (lat lon : R) (s1 s2 : Station) : Prop :=
  exists d1 d2, stationDistance lat lon s1 = Some d1 /\
                stationDistance lat lon s2 = Some d2 /\ (d1 <= d2)%R.

Definition located (station : Station) : bool :=
  bool_decide (is_Some (labelLocation station)).

(** The number of stations that have a location. *)
Definition locatedCount (stations : list Station) : nat :=
  length (List.filter located stations).

(** An entry of the annotated list pairs a located station with its
    distance. *)
Definition annotated (lat lon : R) (item : Station * R) : Prop :=
  stationDistance lat lon (fst item) = Some (snd item).

(** A wind vector blowing due north (toward positive [y]) at [speed] km/h. *)
Definition northward (speed : R) : WindVector :=
  {| velocityX := 0; velocityY := speed; magnitude := speed; directionDeg := 0 |}.

(** The boundary snapshot with the wind turned around: it blows away from
    the reference point. *)
Definition recedingSnapshot (reference : UserLocation) : WeatherData :=
  rainySnapshot [stationAt "S1" "Alpha" (northOf reference 10)]
    {[ "S1" := 5%R ]} {[ "S1" := northward 40 ]}.

(** The raw stations of a list of answers, in the order in which the merge
    loop visits them. *)
Definition rawStations (responses : list ApiData) : list RawStation :=
  concat (api_stations <$> responses).

(** Two answers that both describe station ["S1"], at different places. *)
Definition firstAnswer : ApiData :=
  {| api_stations := [ {| raw_id := "S1"; raw_deviceId := "S1"; raw_name := "Alpha";
                          raw_labelLocation := Some {| latitude := 1.30; longitude := 103.80 |};
                          raw_location := None |} ];
     readings := []; readingType := "TM1"; readingUnit := "mm";
     paginationToken := None |}.

Definition laterAnswer : ApiData :=
  {| api_stations := [ {| raw_id := "S1"; raw_deviceId := "S1"; raw_name := "Alpha (moved)";
                          raw_labelLocation := Some {| latitude := 1.40; longitude := 103.90 |};
                          raw_location := None |} ];
     readings := []; readingType := "TM1"; readingUnit := "knots";
     paginationToken := None |}.

(** The messages with which [fetchWeatherData] can fail. *)
Definition fetchFailureMessage (message : string) : Prop :=
  (exists cause, message = "Could not retrieve weather data: " +:+ cause) \/
  message = "An unknown error occurred while fetching weather data.".

(** Every key of the map is the id of one of the stations. *)
Definition keyedBy {A} (sts : list Station) (m : gmap string A) : Prop :=
  forall k, is_Some (m !! k) -> k ∈ id <$> sts.

(** A world whose weather slot holds an entry that is good until time 2000. *)
Definition cachedWorld : World :=
  {| storage := {| weatherDataCache := Some (Item 2000 drySnapshot);
                   windVectorsCache := None |};
     calls := [] |}.

(** The wet day on which the wind-speed answer comes without its [stations]
    array. *)
Definition brokenBodyEnv : Env :=
  {| feed := feed wetEnv;
     windSpeedSettlesFirst := windSpeedSettlesFirst wetEnv;
     timezoneOffsetMinutes := timezoneOffsetMinutes wetEnv;
     nowAtCheck := nowAtCheck wetEnv;
     nowAtVectors := nowAtVectors wetEnv;
     nowAtStore := nowAtStore wetEnv;
     nowIso := nowIso wetEnv;
     stationsFault :=
       fun ep =>
         match ep with
         | WindSpeed => Some "Cannot read properties of undefined (reading 'forEach')"
         | _ => None
         end;
     setItemThrows := fun _ => false |}.

(** The same surroundings with another behaviour of [localStorage.setItem]. *)
Definition withSetItem (env : Env) (throws : StorageKey -> bool) : Env :=
  {| feed := feed env;
     windSpeedSettlesFirst := windSpeedSettlesFirst env;
     timezoneOffsetMinutes := timezoneOffsetMinutes env;
     nowAtCheck := nowAtCheck env;
     nowAtVectors := nowAtVectors env;
     nowAtStore := nowAtStore env;
     nowIso := nowIso env;
     stationsFault := stationsFault env;
     setItemThrows := throws |}.

(** The wet day with a storage that refuses every write. *)
Definition fullStorageEnv : Env := withSetItem wetEnv (fun _ => true).

(** A world whose weather slot cannot be accessed. *)
Definition deniedWorld : World :=
  {| storage := {| weatherDataCache := Some (Denied "The operation is insecure.");
                   windVectorsCache := Some (Denied "The operation is insecure.") |};
     calls := [] |}.

(** The weather slot holds [snapshot]: under an expiry, or in an entry
    without one. *)
Definition holds (entry : Stored WeatherData) (snapshot : WeatherData) : Prop :=
  (exists expiry, entry = Item expiry snapshot) \/ entry = NoExpiry (Some snapshot).

(** The entry is not past its expiry at time [now]; an entry without a
    numeric expiry never is. *)
Definition unexpired {A} (entry : Stored A) (now : Z) : Prop :=
  match entry with
  | Item expiry _ | NoData expiry => (now <= expiry)%Z
  | _ => True
  end.


(** The pool can dispatch: it is initialised and has a worker. *)
Definition ready (pool : ThreadedDistanceCalculator.Pool) : Prop :=
  ThreadedDistanceCalculator.isInitialized pool = true /\
  (0 < ThreadedDistanceCalculator.workers pool)%nat.

(** The invariant of the loop that looks for the nearest station: nothing
    located has been seen, or the candidate is a seen station at the least
    distance seen. *)
Definition nearestInvariant (lat lon : R) (seen : list Station)
    (acc : option Station * option R) : Prop :=
  match acc with
  | (None, None) => Forall (fun s => labelLocation s = None) seen
  | (Some candidate, Some d) =>
      candidate ∈ seen /\ stationDistance lat lon candidate = Some d /\
      forall s' d', s' ∈ seen -> stationDistance lat lon s' = Some d' -> (d <= d')%R
  | _ => False
  end.

(** * Properties *)

(** ** Array primitives *)

Section ArrayFacts.
Context {A : Type}.
Implicit Types (l : list A) (cmp : A -> A -> R).

Lemma length_insert_sorted cmp x l : length (Js.insert cmp x l) = S (length l).
Proof.
  induction l as [|y l IH]; simpl; [reflexivity|].
  destruct (decide _); simpl; [reflexivity|]. now rewrite IH.
Qed.

Lemma length_sort cmp l : length (Js.sort cmp l) = length l.
Proof.
  induction l as [|x l IH]; simpl; [reflexivity|].
  now rewrite length_insert_sorted, IH.
Qed.

Lemma length_slice0 l e :
  Z.of_nat (length (Js.slice0 l e)) =
  if decide (e < 0)%Z then Z.max (Z.of_nat (length l) + e) 0
  else Z.min e (Z.of_nat (length l)).
Proof.
  unfold Js.slice0. rewrite length_take. destruct (decide _); lia.
Qed.

Lemma length_slice0_le l e : (0 <= e)%Z -> (Z.of_nat (length (Js.slice0 l e)) <= e)%Z.
Proof. intros He. rewrite length_slice0. destruct (decide _); lia. Qed.
End ArrayFacts.

(** ** The station filter *)

Section StationFilter.
Import WeatherService.

Lemma falsy_zero : falsy (Some 0%R) = true.
Proof. unfold falsy. now rewrite bool_decide_eq_true. Qed.

Lemma falsy_nonzero (v : R) : v <> 0%R -> falsy (Some v) = false.
Proof. intros Hv. unfold falsy. now rewrite bool_decide_eq_false. Qed.

Lemma length_withDistance_le lat lon (stations : list Station) :
  (length (withDistance lat lon stations) <= length stations)%nat.
Proof.
  induction stations as [|s stations IH]; simpl; [lia|].
  destruct (labelLocation s); simpl; lia.
Qed.

Lemma filterNearbyStations_located stations lat lon config :
  lat <> 0%R -> lon <> 0%R ->
  filterNearbyStations stations (Some lat) (Some lon) config =
  if bool_decide (Z.of_nat (length (withinRadius stations lat lon config))
                  < minStations config)%Z &&
     bool_decide (Z.of_nat (length stations) >= minStations config)%Z
  then closestMin stations lat lon config
  else withinRadius stations lat lon config.
Proof.
  intros Hlat Hlon. unfold filterNearbyStations.
  now rewrite !falsy_nonzero by assumption.
Qed.

Lemma length_withinRadius stations lat lon config :
  (0 <= maxStations config)%Z ->
  (Z.of_nat (length (withinRadius stations lat lon config)) <= maxStations config)%Z.
Proof.
  intros Hmax. unfold withinRadius. rewrite length_fmap.
  now apply length_slice0_le.
Qed.
End StationFilter.

(** C3, as stated, fails: with [maxStations = 1] and [minStations = 2] two
    located stations are both returned, whatever their distances. *)
Lemma filterNearbyStations_exceeds_maxStations :
  ~ (Z.of_nat (length (WeatherService.filterNearbyStations twoStations
                         (Some 1.3%R) (Some 103.8%R) floorAboveCap))
     <= maxStations floorAboveCap)%Z.
Proof.
  rewrite filterNearbyStations_located by lra.
  pose proof (length_withinRadius twoStations 1.3 103.8 floorAboveCap ltac:(simpl; lia)) as Hle.
  simpl maxStations in *.
  rewrite (bool_decide_eq_true_2 (_ < _)%Z) by (simpl minStations; lia).
  rewrite (bool_decide_eq_true_2 (_ >= _)%Z) by (simpl; lia).
  simpl andb. cbv iota.
  unfold closestMin. rewrite length_fmap, length_slice0, length_sort.
  simpl. lia.
Qed.

(** C3 (amended): when a reference location with non-zero latitude and
    longitude is supplied and [maxStations] is not negative,
    [filterNearbyStations] returns at most [max(maxStations, minStations)]
    entries, hence at most [maxStations] entries whenever
    [minStations <= maxStations]. *)
Theorem filterNearbyStations_length_bound :
  forall (stations : list Station) (lat lon : R) (config : WeatherConfig),
    lat <> 0%R -> lon <> 0%R -> (0 <= maxStations config)%Z ->
    let result :=
      WeatherService.filterNearbyStations stations (Some lat) (Some lon) config in
    (Z.of_nat (length result) <= Z.max (maxStations config) (minStations config))%Z /\
    ((minStations config <= maxStations config)%Z ->
     (Z.of_nat (length result) <= maxStations config)%Z).
Proof.
  intros stations lat lon config Hlat Hlon Hmax result.
  assert (Hbound : (Z.of_nat (length result)
                    <= Z.max (maxStations config) (minStations config))%Z).
  { subst result. rewrite filterNearbyStations_located by assumption.
    pose proof (length_withinRadius stations lat lon config Hmax) as Hle.
    destruct (bool_decide _ && bool_decide _) eqn:Hcond.
    - apply andb_true_iff in Hcond as [Hlt _].
      apply bool_decide_eq_true in Hlt.
      unfold closestMin. rewrite length_fmap.
      etrans; [apply length_slice0_le; lia | lia].
    - lia. }
  split; [exact Hbound | lia].
Qed.

Lemma filterNearbyStations_length_bound_witness :
  (Z.of_nat (length (WeatherService.filterNearbyStations twoStations
                       (Some 1.3%R) (Some 103.8%R) WeatherService.DEFAULT_CONFIG))
   <= 20)%Z.
Proof.
  apply (filterNearbyStations_length_bound twoStations 1.3 103.8
           WeatherService.DEFAULT_CONFIG); [lra | lra | simpl; lia | simpl; lia].
Defined.

(** C10: a reference location whose latitude or longitude is zero is treated
    as absent, and [filterNearbyStations] returns the station list it was
    given, unchanged. *)
Theorem filterNearbyStations_zero_coordinate :
  forall (stations : list Station) (userLat userLon : option R)
         (config : WeatherConfig),
    userLat = Some 0%R \/ userLon = Some 0%R ->
    WeatherService.filterNearbyStations stations userLat userLon config = stations.
Proof.
  intros stations userLat userLon config [-> | ->];
    unfold WeatherService.filterNearbyStations.
  - now rewrite falsy_zero.
  - rewrite falsy_zero. now rewrite orb_true_r.
Qed.

Lemma filterNearbyStations_zero_coordinate_witness :
  WeatherService.filterNearbyStations twoStations (Some 0%R) (Some 103.8%R)
    WeatherService.DEFAULT_CONFIG = twoStations.
Proof.
  apply filterNearbyStations_zero_coordinate. left. reflexivity.
Defined.

(** ** The time-aligned cache *)

Section TimeAlignedCache.
Import WeatherService.
Local Open Scope Z_scope.

Lemma getMinutes_rem_5 tz now : Z.rem (getMinutes tz now) 5 = (now / 60000 + tz) mod 5.
Proof.
  unfold getMinutes.
  rewrite Z.rem_mod_nonneg by (try apply Z.mod_pos_bound; lia).
  apply Z.mod_mod_divide. exists 12. lia.
Qed.

Lemma getMinutes_mod_5 tz t : getMinutes tz t mod 5 = (t / 60000 + tz) mod 5.
Proof.
  unfold getMinutes. apply Z.mod_mod_divide. exists 12. lia.
Qed.

(** The expiry in closed form: the minute count is moved up to the next
    multiple of five on the wall clock. *)
Lemma getNext5MinMark_closed tz now :
  getNext5MinMark tz now = 60000 * (now / 60000 + 5 - (now / 60000 + tz) mod 5).
Proof.
  unfold getNext5MinMark, zeroSeconds. rewrite getMinutes_rem_5.
  set (r := (now / 60000 + tz) mod 5).
  replace (now + (5 - r) * 60 * 1000) with (now + (5 - r) * 60000) by lia.
  rewrite Z_mod_plus_full.
  pose proof (Z.div_mod now 60000 ltac:(lia)). lia.
Qed.

Lemma getNext5MinMark_after tz now : now < getNext5MinMark tz now.
Proof.
  rewrite getNext5MinMark_closed.
  pose proof (Z.mod_pos_bound (now / 60000 + tz) 5 ltac:(lia)).
  pose proof (Z.div_mod now 60000 ltac:(lia)).
  pose proof (Z.mod_pos_bound now 60000 ltac:(lia)).
  lia.
Qed.

Lemma getNext5MinMark_boundary tz now : fiveMinuteBoundary tz (getNext5MinMark tz now).
Proof.
  unfold fiveMinuteBoundary. rewrite getMinutes_mod_5, getNext5MinMark_closed.
  set (m := now / 60000). split.
  - rewrite Z.mul_comm. apply Z_mod_mult.
  - rewrite (Z.mul_comm 60000), Z_div_mult by lia.
    pose proof (Z.div_mod (m + tz) 5 ltac:(lia)) as Hdm.
    replace (m + 5 - (m + tz) mod 5 + tz) with ((1 + (m + tz) / 5) * 5) by lia.
    apply Z_mod_mult.
Qed.

Lemma getNext5MinMark_least tz now b :
  fiveMinuteBoundary tz b -> now < b -> getNext5MinMark tz now <= b.
Proof.
  unfold fiveMinuteBoundary. rewrite getMinutes_mod_5, getNext5MinMark_closed.
  intros [Hsec Hmin] Hlt.
  pose proof (Z.div_mod b 60000 ltac:(lia)) as Hb.
  pose proof (Z.div_mod now 60000 ltac:(lia)) as Hn.
  pose proof (Z.mod_pos_bound now 60000 ltac:(lia)) as Hnr.
  pose proof (Z.div_mod (b / 60000 + tz) 5 ltac:(lia)) as Hbq.
  pose proof (Z.div_mod (now / 60000 + tz) 5 ltac:(lia)) as Hnq.
  pose proof (Z.mod_pos_bound (now / 60000 + tz) 5 ltac:(lia)) as Hnqr.
  lia.
Qed.

Lemma getNext5MinMark_on_boundary tz now :
  fiveMinuteBoundary tz now -> getNext5MinMark tz now = now + 300000.
Proof.
  unfold fiveMinuteBoundary. rewrite getMinutes_mod_5, getNext5MinMark_closed.
  intros [Hsec Hmin]. rewrite Hmin.
  pose proof (Z.div_mod now 60000 ltac:(lia)). lia.
Qed.

Lemma getCachedData_fresh tz now data st t :
  t <= getNext5MinMark tz now ->
  getCachedData t (setCachedData tz now data st) =
  (Some data, setCachedData tz now data st).
Proof.
  intros Ht. unfold getCachedData. simpl.
  destruct (decide _); [lia | reflexivity].
Qed.

Lemma getCachedData_expired tz now data st t :
  getNext5MinMark tz now < t ->
  getCachedData t (setCachedData tz now data st) =
  (None, removeWeatherCache (setCachedData tz now data st)).
Proof.
  intros Ht. unfold getCachedData. simpl.
  destruct (decide _); [reflexivity | lia].
Qed.
End TimeAlignedCache.

(** C5: a put stores the snapshot with an expiry that is the next five-minute
    wall-clock boundary strictly after the time of the put (seconds and
    milliseconds zero; a put at 10:02:30 expires at 10:05:00, a put on a
    boundary expires five minutes later); a get returns the snapshot while the
    clock is at most the expiry, and returns nothing and evicts the entry once
    the clock is past it. *)
Theorem cache_expiry_next_boundary :
  forall (tz now : Z) (data : WeatherData) (st : LocalStorage),
    let expiry := WeatherService.getNext5MinMark tz now in
    let st' := WeatherService.setCachedData tz now data st in
    weatherDataCache st' = Some (Item expiry data) /\
    (now < expiry)%Z /\
    fiveMinuteBoundary tz expiry /\
    (forall b, fiveMinuteBoundary tz b -> (now < b)%Z -> (expiry <= b)%Z) /\
    (fiveMinuteBoundary tz now -> expiry = (now + 5 * 60 * 1000)%Z) /\
    WeatherService.getNext5MinMark tz (wallClock tz 10 2 30 0) = wallClock tz 10 5 0 0 /\
    (forall t, (t <= expiry)%Z -> WeatherService.getCachedData t st' = (Some data, st')) /\
    (forall t, (expiry < t)%Z ->
       WeatherService.getCachedData t st' = (None, WeatherService.removeWeatherCache st') /\
       weatherDataCache (WeatherService.removeWeatherCache st') = None).
Proof.
  intros tz now data st expiry st'. subst expiry st'.
  split; [reflexivity|].
  split; [apply getNext5MinMark_after|].
  split; [apply getNext5MinMark_boundary|].
  split; [intros b; apply getNext5MinMark_least|].
  split; [intros Hb; rewrite getNext5MinMark_on_boundary by assumption; lia|].
  split.
  { rewrite getNext5MinMark_closed. unfold wallClock.
    replace ((((10 * 60 + 2 - tz) * 60 + 30) * 1000 + 0) / 60000)%Z
      with (602 - tz)%Z
      by (apply (Z.div_unique _ _ _ 30000); lia).
    replace (602 - tz + tz)%Z with (2 + 120 * 5)%Z by lia.
    rewrite Z_mod_plus_full. change (2 mod 5)%Z with 2%Z. lia. }
  split; [intros t; apply getCachedData_fresh|].
  intros t Ht. split; [now apply getCachedData_expired | reflexivity].
Qed.

(** The specification's example in Singapore's zone (UTC+8): a put at 10:02:30
    expires at 10:05:00, a get at 10:04:59 returns the entry and a get at
    10:05:01 returns nothing and evicts. *)
Lemma cache_expiry_next_boundary_witness :
  let st' := WeatherService.setCachedData 480 (wallClock 480 10 2 30 0)
               drySnapshot emptyStorage in
  WeatherService.getCachedData (wallClock 480 10 4 59 0) st' = (Some drySnapshot, st') /\
  fst (WeatherService.getCachedData (wallClock 480 10 5 1 0) st') = None /\
  weatherDataCache (snd (WeatherService.getCachedData (wallClock 480 10 5 1 0) st')) = None.
Proof.
  destruct (cache_expiry_next_boundary 480 (wallClock 480 10 2 30 0)
              drySnapshot emptyStorage)
    as (_ & _ & _ & _ & _ & Hex & Hfresh & Hexpired).
  rewrite Hex in Hfresh, Hexpired.
  split; [apply Hfresh; vm_compute; discriminate|].
  destruct (Hexpired (wallClock 480 10 5 1 0)) as [Hget Hslot];
    [vm_compute; reflexivity|].
  rewrite Hget. split; [reflexivity | exact Hslot].
Defined.

(** ** Arithmetic of [%] and [Math.round] *)

Section NumberFacts.
Local Open Scope R_scope.

Lemma div_nonneg (a b : R) : 0 <= a -> 0 < b -> 0 <= a / b.
Proof.
  intros Ha Hb. unfold Rdiv. apply Rmult_le_pos; [assumption|].
  left. now apply Rinv_0_lt_compat.
Qed.

Lemma Zfloor_shift (x : R) (n : Z) : Zfloor (x - IZR n) = (Zfloor x - n)%Z.
Proof.
  apply Zfloor_eq. rewrite minus_IZR.
  pose proof (Zfloor_bound x). lra.
Qed.

Lemma trunc_nonneg (x : R) : 0 <= x -> Js.trunc x = Zfloor x /\ (0 <= Zfloor x)%Z.
Proof.
  intros Hx. unfold Js.trunc. destruct (decide _); [|contradiction].
  split; [reflexivity|]. now apply (Zfloor_lub 0).
Qed.

(** For a non-negative dividend and a positive divisor, [%] leaves the
    fractional part of the quotient: the remainder lies in [[0, b)]. *)
Lemma rem_nonneg (a b : R) :
  0 <= a -> 0 < b ->
  let q := Zfloor (a / b) in
  Js.rem a b = a - b * IZR q /\ (0 <= q)%Z /\ 0 <= a - b * IZR q < b.
Proof.
  intros Ha Hb q. unfold Js.rem.
  assert (Hq : 0 <= a / b) by (apply div_nonneg; assumption).
  destruct (trunc_nonneg _ Hq) as [-> Hq0].
  split; [reflexivity|]. split; [exact Hq0|].
  pose proof (Zfloor_bound (a / b)) as [Hlo Hhi]. fold q in Hlo, Hhi.
  assert (Hab : a = b * (a / b)) by (field; lra).
  split.
  - apply (Rmult_le_compat_l b) in Hlo; lra.
  - apply (Rmult_lt_compat_l b) in Hhi; lra.
Qed.

Lemma rem_small (a b : R) : 0 <= a < b -> Js.rem a b = a.
Proof.
  intros [Ha Hab].
  destruct (rem_nonneg a b Ha ltac:(lra)) as (-> & _ & _).
  replace (Zfloor (a / b)) with 0%Z; [lra|].
  symmetry. apply Zfloor_eq. simpl.
  split.
  - apply div_nonneg; lra.
  - apply (Rmult_lt_reg_r b); [lra|]. unfold Rdiv. rewrite Rmult_assoc, Rinv_l; lra.
Qed.
End NumberFacts.

(** ** Wind vectors *)

(** C6: ten knots from 90 degrees become a vector of magnitude 18.52 km/h
    travelling toward 270 degrees, with [velocityX = 0] and
    [velocityY = -18.52]; over the reals these values are exact, so they hold
    within every tolerance. *)
Theorem convertToWindVector_from_east :
  let v := WeatherService.convertToWindVector 10 90 in
  (magnitude v = 18.52 /\ directionDeg v = 270 /\
   velocityX v = 0 /\ velocityY v = -18.52)%R.
Proof.
  unfold WeatherService.convertToWindVector. simpl.
  replace (90 + 180)%R with 270%R by lra.
  rewrite (rem_small 270 360) by lra.
  replace (270 * (PI / 180))%R with (3 * (PI / 2))%R by lra.
  rewrite cos_3PI2, sin_3PI2.
  repeat split; lra.
Qed.

(** ** Cardinal directions *)

Section Cardinal.
Import Location.
Local Open Scope R_scope.

Lemma round_bounds (x : R) (lo hi : Z) :
  IZR lo - 1 / 2 <= x -> x < IZR hi + 1 / 2 -> (lo <= Js.round x <= hi)%Z.
Proof.
  intros Hlo Hhi. unfold Js.round.
  pose proof (Zfloor_bound (x + 1 / 2)) as [Hb1 Hb2].
  split.
  - apply Zfloor_lub. lra.
  - apply Z.lt_succ_r. apply lt_IZR. rewrite succ_IZR. lra.
Qed.

(** The index computed by the code, for a non-negative angle: rounding after
    [% 360] differs from rounding the angle itself by a multiple of 16. *)
Lemma cardinal_index (deg : R) :
  0 <= deg ->
  let index := Z.rem (Js.round (Js.rem deg 360 / 22.5)) 16 in
  (0 <= index < 16)%Z /\ index = (Js.round (deg / 22.5) mod 16)%Z.
Proof.
  intros Hdeg index. subst index.
  destruct (rem_nonneg deg 360 Hdeg ltac:(lra)) as (Hrem & Hq & Hr).
  set (q := Zfloor (deg / 360)) in *. rewrite Hrem.
  assert (Hshift : Js.round ((deg - 360 * IZR q) / 22.5)
                   = (Js.round (deg / 22.5) - 16 * q)%Z).
  { unfold Js.round. rewrite <- Zfloor_shift. f_equal.
    rewrite mult_IZR. lra. }
  pose proof (round_bounds ((deg - 360 * IZR q) / 22.5) 0 16
                ltac:(simpl; lra) ltac:(simpl; lra)) as Hk.
  rewrite Z.rem_mod_nonneg by lia.
  split; [apply Z.mod_pos_bound; lia|].
  rewrite Hshift.
  replace (Js.round (deg / 22.5) - 16 * q)%Z
    with (Js.round (deg / 22.5) + (- q) * 16)%Z by lia.
  apply Z_mod_plus_full.
Qed.

Lemma directions_total (i : Z) :
  (0 <= i < 16)%Z -> exists label, Js.index directions i = Some label /\ label ∈ directions.
Proof.
  intros Hi. unfold Js.index. destruct (decide _); [|lia].
  destruct (directions !! Z.to_nat i) as [label|] eqn:Hlookup.
  - exists label. split; [reflexivity|]. eapply list_elem_of_lookup_2, Hlookup.
  - apply lookup_ge_None in Hlookup. simpl in Hlookup. lia.
Qed.

Lemma convertDegreesToCardinal_0 : convertDegreesToCardinal 0 = Some "N".
Proof.
  unfold convertDegreesToCardinal. rewrite (rem_small 0 360) by lra.
  replace (Js.round (0 / 22.5)) with 0%Z; [reflexivity|].
  symmetry. apply Zfloor_eq. simpl. lra.
Qed.

Lemma convertDegreesToCardinal_360 : convertDegreesToCardinal 360 = Some "N".
Proof.
  unfold convertDegreesToCardinal.
  destruct (rem_nonneg 360 360 ltac:(lra) ltac:(lra)) as (-> & _ & _).
  replace (Zfloor (360 / 360)) with 1%Z by (symmetry; apply Zfloor_eq; simpl; lra).
  replace (Js.round ((360 - 360 * 1) / 22.5)) with 0%Z; [reflexivity|].
  symmetry. apply Zfloor_eq. simpl. lra.
Qed.
End Cardinal.

(** C8, as stated, fails on negative angles: for -90 degrees the index is -4
    and the array access yields no label. *)
Lemma convertDegreesToCardinal_negative :
  Location.convertDegreesToCardinal (-90) = None.
Proof.
  unfold Location.convertDegreesToCardinal, Js.rem, Js.trunc.
  destruct (decide (0 <= -90 / 360)%R) as [H|_]; [lra|].
  replace (Zfloor (- (-90 / 360))) with 0%Z by (symmetry; apply Zfloor_eq; simpl; lra).
  replace (Js.round ((-90 - 360 * IZR (- 0)) / 22.5)) with (-4)%Z; [reflexivity|].
  symmetry. apply Zfloor_eq. change (IZR (- 0)) with 0%R. lra.
Qed.

(** C8 (amended): for every non-negative angle [convertDegreesToCardinal]
    returns one of the 16 compass labels, the one at index
    [round(deg / 22.5) mod 16]; and the labels of 0 and of 360 degrees are the
    same, ["N"]. *)
Theorem convertDegreesToCardinal_nonnegative :
  forall deg : R,
    (0 <= deg)%R ->
    (exists label,
       Location.convertDegreesToCardinal deg = Some label /\
       label ∈ Location.directions /\
       Location.directions !! Z.to_nat (Js.round (deg / 22.5) mod 16) = Some label) /\
    Location.convertDegreesToCardinal 0 = Location.convertDegreesToCardinal 360 /\
    Location.convertDegreesToCardinal 0 = Some "N".
Proof.
  intros deg Hdeg. split.
  - destruct (cardinal_index deg Hdeg) as [Hrange Hindex].
    destruct (directions_total _ Hrange) as (label & Hlabel & Hin).
    exists label. split; [exact Hlabel|]. split; [exact Hin|].
    rewrite <- Hindex. unfold Js.index in Hlabel.
    destruct (decide _); [exact Hlabel | discriminate].
  - rewrite convertDegreesToCardinal_0, convertDegreesToCardinal_360. now split.
Qed.

Lemma convertDegreesToCardinal_nonnegative_witness :
  exists label, Location.convertDegreesToCardinal 360 = Some label /\
                label ∈ Location.directions.
Proof.
  destruct (convertDegreesToCardinal_nonnegative 360 ltac:(lra))
    as [(label & Hlabel & Hin & _) _].
  exists label. split; assumption.
Defined.

(** ** Sorting *)

Section SortFacts.
Context {A : Type} (cmp : A -> A -> R).
Hypothesis le_total : forall x y, (cmp x y <= 0)%R \/ (cmp y x <= 0)%R.
Hypothesis le_trans :
  forall x y z, (cmp x y <= 0)%R -> (cmp y z <= 0)%R -> (cmp x z <= 0)%R.

Lemma elem_of_insert_sorted (a x : A) (l : list A) :
  x ∈ Js.insert cmp a l <-> x = a \/ x ∈ l.
Proof.
  induction l as [|y l IH]; simpl.
  - rewrite list_elem_of_singleton. split; [now left | intros [?|H]; [assumption|]].
    now apply elem_of_nil in H.
  - destruct (decide _).
    + rewrite (elem_of_cons _ x a). reflexivity.
    + rewrite !elem_of_cons, IH. tauto.
Qed.

Lemma elem_of_sort (x : A) (l : list A) : x ∈ Js.sort cmp l <-> x ∈ l.
Proof.
  induction l as [|y l IH]; simpl; [reflexivity|].
  rewrite elem_of_insert_sorted, elem_of_cons, IH. reflexivity.
Qed.

Lemma insert_headLeast (a : A) (l : list A) :
  headLeast cmp l -> headLeast cmp (Js.insert cmp a l).
Proof.
  destruct l as [|y l]; simpl.
  - intros _ t Ht. apply list_elem_of_singleton in Ht as ->.
    destruct (le_total a a); assumption.
  - intros Hy. destruct (decide (cmp a y <= 0)%R) as [Hay|Hay].
    + intros t Ht. apply elem_of_cons in Ht as [->|Ht].
      * destruct (le_total a a); assumption.
      * apply (le_trans _ y); [exact Hay | now apply Hy].
    + intros t Ht. apply elem_of_cons in Ht as [->|Ht].
      * destruct (le_total y y); assumption.
      * apply elem_of_insert_sorted in Ht as [->|Ht].
        -- destruct (le_total a y) as [H|H]; [contradiction | exact H].
        -- apply Hy. now apply elem_of_cons; right.
Qed.

Lemma sort_headLeast (l : list A) : headLeast cmp (Js.sort cmp l).
Proof.
  induction l as [|x l IH]; simpl; [exact I|]. now apply insert_headLeast.
Qed.
End SortFacts.

(** ** The prediction engine *)

Section Prediction.
Import Location.
Local Open Scope R_scope.

Lemma compareThreats_le (a b : Threat) : compareThreats a b <= 0 <-> threatLe a b.
Proof.
  unfold compareThreats, Js.or, threatLe.
  destruct (decide (IZR (timeToReach a) - IZR (timeToReach b) = 0)) as [Heq|Hne].
  - assert (timeToReach a = timeToReach b) by (apply eq_IZR; lra).
    split; [intros; right; split; [assumption | lra] | intros [?|[_ ?]]; [lia | lra]].
  - split.
    + intros Hle. left. apply lt_IZR. lra.
    + intros [Hlt|[Heq _]].
      * apply IZR_lt in Hlt. lra.
      * rewrite Heq in Hne. lra.
Qed.

Lemma threatLe_total (a b : Threat) : threatLe a b \/ threatLe b a.
Proof.
  unfold threatLe.
  destruct (Z.lt_trichotomy (timeToReach a) (timeToReach b)) as [?|[?|?]]; auto.
  destruct (Rle_or_lt (distance a) (distance b)); [auto|].
  right. right. split; [auto | lra].
Qed.

Lemma threatLe_trans (a b c : Threat) : threatLe a b -> threatLe b c -> threatLe a c.
Proof.
  unfold threatLe. intros [?|[? ?]] [?|[? ?]]; try (left; lia).
  right. split; [lia | lra].
Qed.

Lemma sort_threats_head (l : list Threat) :
  l <> [] ->
  exists c rest, Js.sort compareThreats l = c :: rest /\ c ∈ l /\
                 forall t, t ∈ l -> threatLe c t.
Proof.
  intros Hne.
  pose proof (sort_headLeast compareThreats) as Hhead.
  specialize (Hhead ltac:(intros x y; rewrite !compareThreats_le; apply threatLe_total)).
  specialize (Hhead ltac:(intros x y z; rewrite !compareThreats_le; apply threatLe_trans)).
  specialize (Hhead l).
  destruct (Js.sort compareThreats l) as [|c rest] eqn:Hsort.
  - apply (f_equal length) in Hsort. rewrite length_sort in Hsort.
    destruct l; [contradiction | discriminate].
  - exists c, rest. split; [reflexivity|].
    assert (Hin : forall t, t ∈ l <-> t ∈ c :: rest)
      by (intros t; rewrite <- Hsort; symmetry; apply elem_of_sort).
    split; [apply Hin; left|].
    intros t Ht. apply compareThreats_le. apply Hhead, Hin, Ht.
Qed.

Lemma threats_rainyStations userLocation weatherData :
  threats userLocation weatherData <> [] -> rainyStations weatherData <> [].
Proof. unfold threats. now destruct (rainyStations weatherData). Qed.

(** Geometry of one station. *)

Lemma squares_pos (x y : R) : x <> 0 \/ y <> 0 -> 0 < x * x + y * y.
Proof. intros [H|H]; nra. Qed.

Lemma dotProduct_distance userLocation stationLoc windVector :
  0 < dotProduct userLocation stationLoc windVector ->
  0 < distanceToUser userLocation stationLoc.
Proof.
  unfold dotProduct, distanceToUser.
  destruct (stationToUser userLocation stationLoc) as [sx sy].
  intros Hdot. apply sqrt_lt_R0, squares_pos.
  destruct (Req_dec sx 0) as [->|?]; [|now left].
  destruct (Req_dec sy 0) as [->|?]; [lra | now right].
Qed.

Lemma dotProduct_effectiveVelocity userLocation stationLoc windVector :
  0 < dotProduct userLocation stationLoc windVector ->
  0 < effectiveVelocity userLocation stationLoc windVector.
Proof.
  intros Hdot. unfold effectiveVelocity.
  apply Rdiv_lt_0_compat; [exact Hdot | eapply dotProduct_distance, Hdot].
Qed.

Lemma threatOf_towards userLocation weatherData station stationLoc windVector :
  labelLocation station = Some stationLoc ->
  windVectors weatherData !! id station = Some windVector ->
  0 < dotProduct userLocation stationLoc windVector ->
  threatOf userLocation weatherData station =
  if decide (timeToArrive userLocation stationLoc windVector <= 15) then
    Some {| stationName := name station;
            timeToReach := Js.round (timeToArrive userLocation stationLoc windVector);
            distance := distanceToUser userLocation stationLoc |}
  else None.
Proof.
  intros Hloc Hvec Hdot. unfold threatOf. rewrite Hloc, Hvec.
  destruct (decide (0 < dotProduct _ _ _)); [|contradiction].
  destruct (decide (0 < effectiveVelocity _ _ _)) as [|Hn];
    [|exfalso; apply Hn; now apply dotProduct_effectiveVelocity].
  reflexivity.
Qed.

Lemma deg2rad_rad2deg (x : R) : deg2rad (rad2deg x) = x.
Proof. unfold deg2rad, rad2deg. field. apply PI_neq0. Qed.

Lemma stationToUser_northOf reference km :
  stationToUser reference (northOf reference km) = (0 - 0, 0 - km).
Proof.
  unfold stationToUser, toCartesian, northOf. simpl. f_equal.
  - f_equal. replace (longitude reference - longitude reference) with 0 by lra.
    unfold deg2rad. ring.
  - f_equal.
    replace (latitude reference + rad2deg (km / 6371) - latitude reference)
      with (rad2deg (km / 6371)) by lra.
    rewrite deg2rad_rad2deg. field.
Qed.

(** A station [km] to the north under a wind blowing south at [speed]. *)
Lemma due_north reference km speed :
  0 < km -> 0 < speed ->
  distanceToUser reference (northOf reference km) = km /\
  dotProduct reference (northOf reference km) (southward speed) = speed * km /\
  timeToArrive reference (northOf reference km) (southward speed) = km / speed * 60.
Proof.
  intros Hkm Hspeed.
  assert (Hdist : distanceToUser reference (northOf reference km) = km).
  { unfold distanceToUser. rewrite stationToUser_northOf.
    replace ((0 - 0) * (0 - 0) + (0 - km) * (0 - km)) with (km * km) by ring.
    apply sqrt_square. lra. }
  assert (Hdot : dotProduct reference (northOf reference km) (southward speed)
                 = speed * km).
  { unfold dotProduct. rewrite stationToUser_northOf. simpl. ring. }
  split; [exact Hdist|]. split; [exact Hdot|].
  unfold timeToArrive, effectiveVelocity. rewrite Hdist, Hdot. field. lra.
Qed.

(** The same station under any wind whose velocity points south. *)
Lemma due_north_vector reference km speed windVector :
  0 < km -> 0 < speed ->
  velocityX windVector = 0 -> velocityY windVector = - speed ->
  distanceToUser reference (northOf reference km) = km /\
  dotProduct reference (northOf reference km) windVector = speed * km /\
  timeToArrive reference (northOf reference km) windVector = km / speed * 60.
Proof.
  intros Hkm Hspeed Hx Hy.
  destruct (due_north reference km speed Hkm Hspeed) as (Hdist & Hdot & Htime).
  split; [exact Hdist|].
  assert (Hdot' : dotProduct reference (northOf reference km) windVector = speed * km).
  { rewrite <- Hdot. unfold dotProduct.
    destruct (stationToUser _ _). simpl. now rewrite Hx, Hy. }
  split; [exact Hdot'|].
  unfold timeToArrive, effectiveVelocity. rewrite Hdist, Hdot'. field. lra.
Qed.

Lemma threatOf_due_north reference weatherData station km speed :
  labelLocation station = Some (northOf reference km) ->
  windVectors weatherData !! id station = Some (southward speed) ->
  0 < km -> 0 < speed ->
  threatOf reference weatherData station =
  if decide (km / speed * 60 <= 15) then
    Some {| stationName := name station;
            timeToReach := Js.round (km / speed * 60);
            distance := km |}
  else None.
Proof.
  intros Hloc Hvec Hkm Hspeed.
  destruct (due_north reference km speed Hkm Hspeed) as (Hdist & Hdot & Htime).
  rewrite (threatOf_towards _ _ _ _ _ Hloc Hvec) by (rewrite Hdot; nra).
  now rewrite Htime, Hdist.
Qed.
End Prediction.

Section PredictionExamples.
Import Location.
Local Open Scope R_scope.

Lemma isRainyStation_intro weatherData station stationLoc rain windVector :
  labelLocation station = Some stationLoc ->
  rainfallMap weatherData !! id station = Some rain -> 3 <= rain ->
  windVectors weatherData !! id station = Some windVector ->
  0 < magnitude windVector ->
  isRainyStation weatherData station = true.
Proof.
  intros Hloc Hrain Hmm Hvec Hmag. unfold isRainyStation.
  unfold SIGNIFICANT_RAIN_THRESHOLD_MM. rewrite Hloc, Hrain, Hvec.
  rewrite !andb_true_iff, !bool_decide_eq_true. simpl. eauto.
Qed.

Lemma round_value (x : R) (z : Z) : IZR z - 1 / 2 <= x < IZR z + 1 / 2 -> Js.round x = z.
Proof. intros Hx. apply Zfloor_eq. lra. Qed.

Lemma arrival_threats reference windVector :
  velocityX windVector = 0 -> velocityY windVector = - 40 ->
  magnitude windVector = 40 ->
  threats reference (arrivalSnapshot reference windVector) =
  [ {| stationName := "Alpha"; timeToReach := 15; distance := 10 |} ].
Proof.
  intros Hx Hy Hmagnitude.
  destruct (due_north_vector reference 10 40 windVector ltac:(lra) ltac:(lra) Hx Hy)
    as (Hdist & Hdot & Htime).
  unfold threats, rainyStations, arrivalSnapshot, rainySnapshot. simpl.
  rewrite (isRainyStation_intro _ _ (northOf reference 10) 5 windVector);
    [|reflexivity|apply lookup_singleton_eq|lra|apply lookup_singleton_eq
     |rewrite Hmagnitude; lra].
  simpl.
  rewrite (threatOf_towards reference _ _ (northOf reference 10) windVector);
    [|reflexivity|apply lookup_singleton_eq|rewrite Hdot; lra].
  rewrite Htime, Hdist.
  destruct (decide _) as [_|Hn]; [|exfalso; apply Hn; lra].
  rewrite (round_value _ 15) by lra. reflexivity.
Qed.

Lemma arrival_prediction reference windVector :
  velocityX windVector = 0 -> velocityY windVector = - 40 ->
  magnitude windVector = 40 ->
  calculateRainPrediction reference (arrivalSnapshot reference windVector) =
  "Rain from Alpha is moving your way and could arrive in about 15 minutes.".
Proof.
  intros Hx Hy Hmagnitude.
  pose proof (arrival_threats reference windVector Hx Hy Hmagnitude) as Hthreats.
  unfold calculateRainPrediction. rewrite Hthreats. simpl.
  destruct (rainyStations _) eqn:Hrainy; [|reflexivity].
  unfold threats in Hthreats. rewrite Hrainy in Hthreats. discriminate.
Qed.

(** Wind reported from the east and from the north. *)
Lemma wind_from_east speedKnots :
  WeatherService.convertToWindVector speedKnots 90 =
  {| velocityX := 0; velocityY := - (speedKnots * 1.852);
     magnitude := speedKnots * 1.852; directionDeg := 270 |}.
Proof.
  unfold WeatherService.convertToWindVector.
  replace (90 + 180)%R with 270%R by lra.
  rewrite (rem_small 270 360) by lra.
  replace (270 * (PI / 180))%R with (3 * (PI / 2))%R by lra.
  rewrite cos_3PI2, sin_3PI2. f_equal; lra.
Qed.

Lemma wind_from_north speedKnots :
  WeatherService.convertToWindVector speedKnots 0 =
  {| velocityX := - (speedKnots * 1.852); velocityY := 0;
     magnitude := speedKnots * 1.852; directionDeg := 180 |}.
Proof.
  unfold WeatherService.convertToWindVector.
  replace (0 + 180)%R with 180%R by lra.
  rewrite (rem_small 180 360) by lra.
  replace (180 * (PI / 180))%R with PI by (field; apply PI_neq0).
  rewrite cos_PI, sin_PI. f_equal; lra.
Qed.

(** The quantities of the loop body, written out over the coordinates. *)
Lemma stationToUser_coordinates userLocation stationLoc :
  stationToUser userLocation stationLoc =
  (0 - 6371 * ((longitude stationLoc - longitude userLocation) * (PI / 180))
       * cos (latitude userLocation * (PI / 180)),
   0 - 6371 * ((latitude stationLoc - latitude userLocation) * (PI / 180))).
Proof. reflexivity. Qed.

Lemma twoThreats_threats :
  threats singapore twoThreatsSnapshot =
  [ {| stationName := "Alpha"; timeToReach := 14; distance := 9.2 |};
    {| stationName := "Bravo"; timeToReach := 14; distance := 4.7 |} ].
Proof.
  unfold threats, rainyStations, twoThreatsSnapshot, rainySnapshot. simpl.
  rewrite (isRainyStation_intro _ _ (northOf singapore 9.2) 5 (southward 40));
    [|reflexivity|apply lookup_insert_eq|lra|apply lookup_insert_eq|simpl; lra].
  rewrite (isRainyStation_intro _ _ (northOf singapore 4.7) 5 (southward 20));
    [|reflexivity|simpl; now rewrite lookup_insert_ne, lookup_singleton_eq|lra
     |simpl; now rewrite lookup_insert_ne, lookup_singleton_eq|simpl; lra].
  simpl.
  rewrite (threatOf_due_north singapore _ _ 9.2 40);
    [|reflexivity|apply lookup_insert_eq|lra|lra].
  rewrite (threatOf_due_north singapore _ _ 4.7 20);
    [|reflexivity|simpl; now rewrite lookup_insert_ne, lookup_singleton_eq|lra|lra].
  destruct (decide (9.2 / 40 * 60 <= 15)) as [_|Hn]; [|exfalso; apply Hn; lra].
  destruct (decide (4.7 / 20 * 60 <= 15)) as [_|Hn]; [|exfalso; apply Hn; lra].
  rewrite (round_value (9.2 / 40 * 60) 14) by lra.
  rewrite (round_value (4.7 / 20 * 60) 14) by lra.
  reflexivity.
Qed.
End PredictionExamples.

(** C4: a candidate whose wind has a positive dot product with the vector
    from the station to the reference becomes a threat exactly when its
    time-to-arrive is at most 15 minutes, where the time is computed from the
    coordinates: with [(x, y)] the station on the local plane around the
    reference ([x = R * dLon * cos(refLat)], [y = R * dLat]), the dot product
    is [v . (-x, -y)], the distance [km] is the length of [(-x, -y)], and
    the time is [km / (dot / km) * 60] minutes; the threat carries that time
    rounded and that distance.  A rainy station 10 km due north under a wind
    whose velocity is 40 km/h due south has a time-to-arrive of exactly 15
    minutes and is reported as a threat arriving in 15 minutes.  The
    velocity is read in the frame of the prediction, x east and y north; the
    vector that [convertToWindVector] builds for 40 km/h reported from 90
    degrees has this velocity, under the travel direction 270. *)
Theorem threat_iff_within_15_minutes :
  (forall (userLocation : UserLocation) (weatherData : WeatherData)
          (station : Station) (stationLoc : UserLocation) (windVector : WindVector),
     labelLocation station = Some stationLoc ->
     windVectors weatherData !! id station = Some windVector ->
     let x := (6371 * ((longitude stationLoc - longitude userLocation) * (PI / 180))
               * cos (latitude userLocation * (PI / 180)))%R in
     let y := (6371 * ((latitude stationLoc - latitude userLocation) * (PI / 180)))%R in
     let dot := (velocityX windVector * (0 - x) + velocityY windVector * (0 - y))%R in
     let km := sqrt ((0 - x) * (0 - x) + (0 - y) * (0 - y)) in
     let minutes := (km / (dot / km) * 60)%R in
     (0 < dot)%R ->
     (is_Some (Location.threatOf userLocation weatherData station) <->
      (minutes <= 15)%R) /\
     (forall threat,
        Location.threatOf userLocation weatherData station = Some threat ->
        threat = {| Location.stationName := name station;
                    Location.timeToReach := Js.round minutes;
                    Location.distance := km |})) /\
  (forall (reference : UserLocation) (windVector : WindVector),
     velocityX windVector = 0%R -> velocityY windVector = (- 40)%R ->
     magnitude windVector = 40%R ->
     let stationLoc := northOf reference 10 in
     let x := (6371 * ((longitude stationLoc - longitude reference) * (PI / 180))
               * cos (latitude reference * (PI / 180)))%R in
     let y := (6371 * ((latitude stationLoc - latitude reference) * (PI / 180)))%R in
     let dot := (velocityX windVector * (0 - x) + velocityY windVector * (0 - y))%R in
     let km := sqrt ((0 - x) * (0 - x) + (0 - y) * (0 - y)) in
     x = 0%R /\ y = 10%R /\ km = 10%R /\ dot = 400%R /\
     (km / (dot / km) * 60 = 15)%R /\
     Location.threats reference (arrivalSnapshot reference windVector) =
       [ {| Location.stationName := "Alpha";
            Location.timeToReach := 15;
            Location.distance := 10 |} ] /\
     Location.calculateRainPrediction reference (arrivalSnapshot reference windVector) =
       "Rain from Alpha is moving your way and could arrive in about 15 minutes.") /\
  (let windVector := WeatherService.convertToWindVector (40 / 1.852) 90 in
   velocityX windVector = 0%R /\ velocityY windVector = (- 40)%R /\
   magnitude windVector = 40%R /\ directionDeg windVector = 270%R).
Proof.
  split; [|split].
  - intros userLocation weatherData station stationLoc windVector Hloc Hvec
           x y dot km minutes Hdot.
    assert (Hd : Location.dotProduct userLocation stationLoc windVector = dot).
    { unfold Location.dotProduct. now rewrite stationToUser_coordinates. }
    assert (Hk : Location.distanceToUser userLocation stationLoc = km).
    { unfold Location.distanceToUser. now rewrite stationToUser_coordinates. }
    assert (Ht : Location.timeToArrive userLocation stationLoc windVector = minutes).
    { unfold Location.timeToArrive, Location.effectiveVelocity. now rewrite Hd, Hk. }
    rewrite (threatOf_towards _ _ _ _ _ Hloc Hvec) by (rewrite Hd; exact Hdot).
    rewrite Ht, Hk.
    destruct (decide _) as [Hle|Hgt].
    + split; [split; [intros _; exact Hle | intros _; eauto]|].
      now intros threat [= <-].
    + split; [split; [intros [? ?]; discriminate | intros; contradiction]|].
      intros threat; discriminate.
  - intros reference windVector Hx Hy Hmagnitude stationLoc x y dot km.
    assert (Hx0 : x = 0%R).
    { subst x stationLoc. unfold northOf. cbn [longitude].
      replace (longitude reference - longitude reference)%R with 0%R by lra. ring. }
    assert (Hy10 : y = 10%R).
    { subst y stationLoc. unfold northOf. cbn [latitude].
      unfold Location.rad2deg. field. apply PI_neq0. }
    assert (Hkm : km = 10%R).
    { subst km. rewrite Hx0, Hy10.
      replace ((0 - 0) * (0 - 0) + (0 - 10) * (0 - 10))%R with (10 * 10)%R by ring.
      apply sqrt_square. lra. }
    assert (Hdot : dot = 400%R).
    { subst dot. rewrite Hx, Hy, Hx0, Hy10. ring. }
    split; [exact Hx0|]. split; [exact Hy10|]. split; [exact Hkm|].
    split; [exact Hdot|]. split; [rewrite Hkm, Hdot; field|].
    split; [now apply arrival_threats | now apply arrival_prediction].
  - cbn zeta. rewrite wind_from_east.
    cbn [velocityX velocityY magnitude directionDeg].
    repeat split; lra.
Qed.

Lemma threat_iff_within_15_minutes_witness :
  is_Some (Location.threatOf singapore
             (arrivalSnapshot singapore
                (WeatherService.convertToWindVector (40 / 1.852) 90))
             (stationAt "S1" "Alpha" (northOf singapore 10))).
Proof.
  destruct threat_iff_within_15_minutes as (Hiff & Hexample & Hvector).
  destruct Hvector as (Hx & Hy & Hmagnitude & _).
  destruct (Hexample singapore _ Hx Hy Hmagnitude)
    as (Hx0 & Hy10 & Hkm & Hdot & Hminutes & _).
  apply (Hiff singapore
           (arrivalSnapshot singapore
              (WeatherService.convertToWindVector (40 / 1.852) 90))
           (stationAt "S1" "Alpha" (northOf singapore 10))
           (northOf singapore 10)
           (WeatherService.convertToWindVector (40 / 1.852) 90)).
  - reflexivity.
  - apply lookup_singleton_eq.
  - cbv zeta in Hdot. rewrite Hdot. lra.
  - cbv zeta in Hminutes. rewrite Hminutes. lra.
Defined.

(** C1, as stated, fails: Alpha would arrive first (13.8 minutes against 14.1),
    but both times round to 14 minutes and the shorter distance makes Bravo
    the station that is named. *)
Lemma closest_threat_not_smallest_time :
  Location.threats singapore twoThreatsSnapshot =
    [ {| Location.stationName := "Alpha"; Location.timeToReach := 14;
         Location.distance := 9.2 |};
      {| Location.stationName := "Bravo"; Location.timeToReach := 14;
         Location.distance := 4.7 |} ] /\
  (Location.timeToArrive singapore (northOf singapore 9.2) (southward 40)
   < Location.timeToArrive singapore (northOf singapore 4.7) (southward 20))%R /\
  Location.calculateRainPrediction singapore twoThreatsSnapshot =
    "Rain from Bravo is moving your way and could arrive in about 14 minutes.".
Proof.
  split; [apply twoThreats_threats|]. split.
  - destruct (due_north singapore 9.2 40 ltac:(lra) ltac:(lra)) as (_ & _ & ->).
    destruct (due_north singapore 4.7 20 ltac:(lra) ltac:(lra)) as (_ & _ & ->).
    lra.
  - unfold Location.calculateRainPrediction.
    rewrite twoThreats_threats.
    destruct (Location.rainyStations _) eqn:Hrainy.
    { pose proof twoThreats_threats as Hth.
      unfold Location.threats in Hth. rewrite Hrainy in Hth. discriminate. }
    simpl. unfold Location.compareThreats, Js.or. simpl.
    destruct (decide (14 - 14 = 0)%R) as [_|Hn]; [|exfalso; apply Hn; lra].
    destruct (decide (9.2 - 4.7 <= 0)%R) as [Hle|_]; [lra|].
    reflexivity.
Qed.

(** C1 (amended): for every snapshot flagged as rainy with at least one
    qualifying threat, [calculateRainPrediction] names the station of a threat
    whose time-to-arrive rounded to whole minutes is smallest; among threats
    with the same rounded time it is one with the smallest distance. *)
Theorem closest_threat_by_rounded_minutes :
  forall (userLocation : UserLocation) (weatherData : WeatherData),
    significantRainDetected weatherData = true ->
    Location.threats userLocation weatherData <> [] ->
    exists closest,
      closest ∈ Location.threats userLocation weatherData /\
      (forall t, t ∈ Location.threats userLocation weatherData -> threatLe closest t) /\
      Location.calculateRainPrediction userLocation weatherData =
        if decide (Location.timeToReach closest <= 5)%Z
        then Location.veryCloseMessage closest
        else Location.approachingMessage closest.
Proof.
  intros userLocation weatherData Hflag Hthreats.
  destruct (sort_threats_head _ Hthreats) as (c & rest & Hsort & Hin & Hleast).
  exists c. split; [exact Hin|]. split; [exact Hleast|].
  unfold Location.calculateRainPrediction. rewrite Hflag. simpl.
  pose proof (threats_rainyStations _ _ Hthreats) as Hrainy.
  destruct (Location.rainyStations weatherData); [contradiction|].
  now rewrite Hsort.
Qed.

Lemma closest_threat_by_rounded_minutes_witness :
  exists closest,
    closest ∈ Location.threats singapore twoThreatsSnapshot /\
    Location.calculateRainPrediction singapore twoThreatsSnapshot =
      if decide (Location.timeToReach closest <= 5)%Z
      then Location.veryCloseMessage closest
      else Location.approachingMessage closest.
Proof.
  destruct (closest_threat_by_rounded_minutes singapore twoThreatsSnapshot)
    as (closest & Hin & _ & Hmsg).
  - reflexivity.
  - rewrite twoThreats_threats. discriminate.
  - exists closest. split; assumption.
Defined.

(** ** The staged acquisition *)

Section Acquisition.
Import WeatherService.

Lemma someAtLeast_spec threshold (m : gmap string R) :
  someAtLeast threshold m = true <-> someStationAtLeast threshold m.
Proof.
  unfold someAtLeast, someStationAtLeast.
  rewrite bool_decide_eq_true, Exists_exists. split.
  - intros ([k v] & Hin & Hle). apply elem_of_map_to_list in Hin. now exists k, v.
  - intros (k & v & Hlookup & Hle). exists (k, v).
    split; [now apply elem_of_map_to_list | exact Hle].
Qed.

(** The map of a batch, read off the batch. *)
Lemma readingMap_items (items : list ReadingDataItem) (k : string) :
  foldl (fun m item => Js.assign m (stationId item) (value item))
    (∅ : gmap string R) items !! k
  = if decide (k = "__proto__") then None else stationReading items k.
Proof.
  unfold stationReading.
  induction items as [|item items IH] using rev_ind.
  - cbn. rewrite lookup_empty. now destruct (decide _).
  - rewrite foldl_snoc, filter_app. unfold Js.assign at 1.
    destruct (decide (stationId item = "__proto__")) as [Hp|Hnp].
    + rewrite IH. destruct (decide (k = "__proto__")) as [->|Hk]; [reflexivity|].
      rewrite filter_cons_False by congruence. now rewrite filter_nil, app_nil_r.
    + destruct (decide (stationId item = k)) as [<-|Hne].
      * rewrite lookup_insert_eq, decide_False by exact Hnp.
        rewrite (filter_cons_True (fun i => stationId i = stationId item))
          by reflexivity.
        rewrite filter_nil, last_snoc. reflexivity.
      * rewrite lookup_insert_ne by exact Hne. rewrite IH.
        rewrite filter_cons_False by exact Hne.
        now rewrite filter_nil, app_nil_r.
Qed.

Lemma readingMap_latestBatch (data : ApiData) (k : string) :
  readingMap (head (readings data)) !! k
  = if decide (k = "__proto__") then None else stationReading (latestBatch data) k.
Proof.
  unfold readingMap, latestBatch.
  destruct (head (readings data)) as [reading|];
    [destruct (reading_data reading) as [items|]|]; cbn;
    try apply readingMap_items;
    rewrite lookup_empty; now destruct (decide _).
Qed.

Lemma someAtLeast_reports threshold (data : ApiData) :
  someAtLeast threshold (readingMap (head (readings data))) = true <->
  someStationReports threshold (latestBatch data).
Proof.
  rewrite someAtLeast_spec. unfold someStationAtLeast, someStationReports. split.
  - intros (k & v & Hlookup & Hle). rewrite readingMap_latestBatch in Hlookup.
    destruct (decide (k = "__proto__")); [discriminate|]. eauto.
  - intros (k & v & Hk & Hreading & Hle). exists k, v.
    rewrite readingMap_latestBatch, decide_False by exact Hk. auto.
Qed.

Lemma stationReading_elem (batch : list ReadingDataItem) k v :
  stationReading batch k = Some v ->
  exists item, item ∈ batch /\ stationId item = k /\ value item = v.
Proof.
  unfold stationReading.
  destruct (last _) as [item|] eqn:Hlast; [|discriminate].
  intros [= <-]. exists item.
  apply last_Some in Hlast as [l' Hl'].
  assert (Hin : item ∈ filter (fun i => stationId i = k) batch).
  { rewrite Hl'. apply elem_of_app. right. left. }
  apply list_elem_of_filter in Hin as [Hk Hin]. auto.
Qed.

Lemma filter_unique {A B} `{EqDecision B} (f : A -> B) (l : list A) (x : A) :
  NoDup (f <$> l) -> x ∈ l -> filter (fun y => f y = f x) l = [x].
Proof.
  induction l as [|a l IH]; intros Hnodup Hin; [now apply elem_of_nil in Hin|].
  rewrite fmap_cons in Hnodup. apply NoDup_cons in Hnodup as [Hnotin Hnodup].
  assert (Hnone : forall y, y ∈ l -> f y <> f a).
  { intros y Hy Heq. apply Hnotin. rewrite <- Heq. apply list_elem_of_fmap. eauto. }
  apply elem_of_cons in Hin as [->|Hin].
  - rewrite filter_cons_True by reflexivity. f_equal.
    clear IH Hnotin Hnodup. induction l as [|y l IH]; [reflexivity|].
    rewrite filter_cons_False by (apply Hnone; left).
    apply IH. intros z Hz. apply Hnone. now right.
  - rewrite filter_cons_False by (intros Heq; now apply (Hnone x Hin)).
    now apply IH.
Qed.

Lemma stationReading_unique (batch : list ReadingDataItem) item :
  NoDup (stationId <$> batch) -> item ∈ batch ->
  stationReading batch (stationId item) = Some (value item).
Proof.
  intros Hnodup Hin. unfold stationReading.
  now rewrite (filter_unique stationId batch item Hnodup Hin).
Qed.

(** On a batch that names every station once, the stations that report are
    the items. *)
Lemma someStationReports_items threshold (batch : list ReadingDataItem) :
  oneItemPerStation batch ->
  someStationReports threshold batch <->
  exists item, item ∈ batch /\ (threshold <= value item)%R.
Proof.
  intros [Hnodup Hproto]. split.
  - intros (k & v & _ & Hreading & Hle).
    apply stationReading_elem in Hreading as (item & Hin & _ & <-). eauto.
  - intros (item & Hin & Hle). exists (stationId item), (value item).
    split; [|split; [now apply stationReading_unique | exact Hle]].
    intros Heq. apply Hproto. rewrite <- Heq. apply list_elem_of_fmap. eauto.
Qed.

Lemma someStationReports_dry threshold (batch : list ReadingDataItem) :
  (forall item, item ∈ batch -> (value item < threshold)%R) ->
  ~ someStationReports threshold batch.
Proof.
  intros Hall (k & v & _ & Hreading & Hle).
  apply stationReading_elem in Hreading as (item & Hin & _ & <-).
  specialize (Hall item Hin). lra.
Qed.

Lemma successData_code response :
  code response <> 0%Z -> successData response = None.
Proof. intros Hcode. unfold successData. now destruct (decide _). Qed.

Lemma successData_rejected response :
  rejectedAnswer response -> successData response = None.
Proof.
  intros [Hcode|Hdata]; [now apply successData_code|].
  unfold successData. now destruct (decide _).
Qed.

Lemma successData_ok response data :
  code response = 0%Z -> api_data response = Some data ->
  successData response = Some data.
Proof. intros Hcode Hdata. unfold successData. now destruct (decide _). Qed.

(** The cache check on a miss. *)
Lemma checkCache_miss env forceRefresh w :
  cacheMiss env forceRefresh w ->
  checkCache env forceRefresh w = (Fulfilled None, afterCheck env forceRefresh w) /\
  calls (afterCheck env forceRefresh w) = calls w /\
  (forceRefresh = true -> afterCheck env forceRefresh w = w) /\
  (weatherDataCache (storage (afterCheck env forceRefresh w))
     = weatherDataCache (storage w) \/
   weatherDataCache (storage (afterCheck env forceRefresh w)) = None).
Proof.
  unfold cacheMiss, afterCheck, checkCache.
  destruct forceRefresh.
  - intros _. simpl. auto.
  - intros [Hforce|[Hthrows Hmiss]]; [discriminate|]. rewrite Hthrows.
    destruct (getCachedData (nowAtCheck env) (storage w)) as [cached st] eqn:Hget.
    simpl in Hmiss. subst cached. simpl.
    split; [reflexivity|]. split; [reflexivity|]. split; [discriminate|].
    unfold getCachedData in Hget.
    destruct (weatherDataCache (storage w))
      as [[|expiry data| |data|expiry|message]|] eqn:Hslot;
      repeat (destruct (decide _)); try discriminate;
      inversion Hget; subst; cbn; rewrite ?Hslot; auto.
Qed.

Lemma fetchWeatherData_miss env forceRefresh userLocation config w :
  cacheMiss env forceRefresh w ->
  fetchWeatherData env forceRefresh userLocation config w =
  rethrow (acquire env userLocation config) (afterCheck env forceRefresh w).
Proof.
  intros Hmiss. destruct (checkCache_miss _ _ _ Hmiss) as (Hcheck & _).
  unfold fetchWeatherData, bind. now rewrite Hcheck.
Qed.

(** The wind stage: both requests are always issued. *)
Lemma fetchWindStage_calls env w :
  calls (snd (fetchWindStage env w)) = calls w ++ [WindSpeed; WindDirection].
Proof.
  unfold fetchWindStage, bind, fetchBoth.
  destruct (feed env WindSpeed) as [speed|e1], (feed env WindDirection) as [direction|e2];
    try reflexivity.
  simpl. destruct (successData speed); [|reflexivity].
  destruct (successData direction); [|reflexivity].
  unfold tryWrite, modifyStorage. reflexivity.
Qed.

Lemma fetchWindStage_speed_failed env w speed direction :
  feed env WindSpeed = Fulfilled speed ->
  feed env WindDirection = Fulfilled direction ->
  successData speed = None ->
  fetchWindStage env w =
  (Rejected (ErrorObject (Js.orString (errorMsg speed)
               "Wind speed API returned an error without a message.")),
   logged w [WindSpeed; WindDirection]).
Proof.
  intros Hs Hd Hfail. unfold fetchWindStage, bind, fetchBoth.
  rewrite Hs, Hd. simpl. now rewrite Hfail.
Qed.

Lemma fetchWindStage_direction_failed env w speed speedData direction :
  feed env WindSpeed = Fulfilled speed ->
  feed env WindDirection = Fulfilled direction ->
  successData speed = Some speedData ->
  successData direction = None ->
  fetchWindStage env w =
  (Rejected (ErrorObject (Js.orString (errorMsg direction)
               "Wind direction API returned an error without a message.")),
   logged w [WindSpeed; WindDirection]).
Proof.
  intros Hs Hd Hok Hfail. unfold fetchWindStage, bind, fetchBoth.
  rewrite Hs, Hd. simpl. now rewrite Hok, Hfail.
Qed.

Lemma fetchWindStage_direction_rejected env w speed e :
  feed env WindSpeed = Fulfilled speed ->
  feed env WindDirection = Rejected e ->
  fetchWindStage env w = (Rejected e, logged w [WindSpeed; WindDirection]).
Proof.
  intros Hs Hd. unfold fetchWindStage, bind, fetchBoth. now rewrite Hs, Hd.
Qed.

(** The body of the [try] block, case by case. *)
Lemma acquire_rain_failed env userLocation config w rain :
  feed env Rainfall = Fulfilled rain ->
  successData rain = None ->
  acquire env userLocation config w =
  (Rejected (ErrorObject (Js.orString (errorMsg rain)
               "Rainfall API returned an error without a message.")),
   logged w [Rainfall]).
Proof.
  intros Hfeed Hfail. unfold acquire, bind, fetch. now rewrite Hfeed, Hfail.
Qed.

Lemma acquire_dry env userLocation config w rain rainData :
  feed env Rainfall = Fulfilled rain ->
  successData rain = Some rainData ->
  someAtLeast 1 (readingMap (head (readings rainData))) = false ->
  stationsFault env Rainfall = None ->
  exists snapshot,
    acquire env userLocation config w =
      (Fulfilled snapshot,
       {| storage :=
            if setItemThrows env CACHE_KEY then storage w
            else setCachedData (timezoneOffsetMinutes env) (nowAtStore env)
                   snapshot (storage w);
          calls := calls w ++ [Rainfall] |}) /\
    significantRainDetected snapshot = false /\
    windSpeedMap snapshot = ∅ /\
    windDirectionMap snapshot = ∅ /\
    windVectors snapshot = ∅.
Proof.
  intros Hfeed Hok Hdry Hstations. unfold acquire, bind, fetch.
  rewrite Hfeed, Hok, Hdry.
  unfold ret, tryWrite, modifyStorage, mergeFault, mergedEndpoints.
  cbn [skippedWindStage
    windSpeedResponse windDirResponse stage_windSpeedMap stage_windDirectionMap
    stage_windVectors storage calls app omap list_omap]. rewrite Hstations.
  cbn [head storage calls].
  eexists. split; [reflexivity|]. cbn [significantRainDetected windSpeedMap
    windDirectionMap windVectors].
  split; [reflexivity|].
  destruct userLocation; unfold onlyNearby; rewrite ?map_filter_empty; auto.
Qed.

Lemma acquire_dry_calls env userLocation config w rain rainData :
  feed env Rainfall = Fulfilled rain ->
  successData rain = Some rainData ->
  someAtLeast 1 (readingMap (head (readings rainData))) = false ->
  calls (snd (acquire env userLocation config w)) = calls w ++ [Rainfall].
Proof.
  intros Hfeed Hok Hdry. unfold acquire, bind, fetch.
  rewrite Hfeed, Hok, Hdry. unfold ret, throw, tryWrite, modifyStorage.
  now destruct (mergeFault _ _).
Qed.

Lemma acquire_wet env userLocation config w rain rainData :
  feed env Rainfall = Fulfilled rain ->
  successData rain = Some rainData ->
  someAtLeast 1 (readingMap (head (readings rainData))) = true ->
  calls (snd (acquire env userLocation config w))
    = calls w ++ [Rainfall; WindSpeed; WindDirection] /\
  forall e w',
    fetchWindStage env (logged w [Rainfall]) = (Rejected e, w') ->
    acquire env userLocation config w = (Rejected e, w').
Proof.
  intros Hfeed Hok Hwet. unfold acquire, bind, fetch.
  rewrite Hfeed, Hok, Hwet. fold (logged w [Rainfall]).
  pose proof (fetchWindStage_calls env (logged w [Rainfall])) as Hcalls.
  destruct (fetchWindStage env (logged w [Rainfall])) as [[wind|e] w1].
  - split; [|intros; discriminate].
    unfold tryWrite, modifyStorage, ret, throw. cbn [snd calls] in *.
    destruct (mergeFault _ _); cbn [snd calls];
      rewrite Hcalls; simpl; now rewrite <- app_assoc.
  - split; [|intros e0 w' [= -> ->]; reflexivity].
    cbn [snd] in *. rewrite Hcalls. simpl. now rewrite <- app_assoc.
Qed.

Lemma rethrow_world {A} (m : M A) w : snd (rethrow m w) = snd (m w).
Proof. unfold rethrow. now destruct (m w) as [[a|[msg|]] w']. Qed.
End Acquisition.

(** C2: when the cycle is not served from the cache and the rainfall feed
    answers with a batch in which every item is below 1 mm, only the
    rainfall endpoint is called, and the snapshot (which the cycle produces
    when the stations of the answer are well formed) has the
    significant-rain flag false
    and empty wind-speed, wind-direction and wind-vector maps.  The two wind
    endpoints are called exactly when some station of the batch reports at
    least 1 mm; on a batch that names every station once, that is: exactly
    when some item of the batch is at least 1 mm. *)
Theorem wind_fetched_only_on_significant_rain :
  forall (env : Env) (forceRefresh : bool) (userLocation : option UserLocation)
         (config : WeatherConfig) (w : World)
         (rain : GenericApiResponse) (rainData : ApiData),
    cacheMiss env forceRefresh w ->
    feed env Rainfall = Fulfilled rain ->
    code rain = 0%Z -> api_data rain = Some rainData ->
    let batch := latestBatch rainData in
    let outcome :=
      WeatherService.fetchWeatherData env forceRefresh userLocation config w in
    ((forall item, item ∈ batch -> (value item < 1)%R) ->
     calls (snd outcome) = calls w ++ [Rainfall] /\
     (stationsFault env Rainfall = None ->
      exists snapshot,
        fst outcome = Fulfilled snapshot /\
        significantRainDetected snapshot = false /\
        windSpeedMap snapshot = ∅ /\
        windDirectionMap snapshot = ∅ /\
        windVectors snapshot = ∅)) /\
    (someStationReports 1 batch <->
     calls (snd outcome) = calls w ++ [Rainfall; WindSpeed; WindDirection]) /\
    (~ someStationReports 1 batch <->
     calls (snd outcome) = calls w ++ [Rainfall]) /\
    (oneItemPerStation batch ->
     ((exists item, item ∈ batch /\ (1 <= value item)%R) <->
      calls (snd outcome) = calls w ++ [Rainfall; WindSpeed; WindDirection])).
Proof.
  intros env forceRefresh userLocation config w rain rainData
         Hmiss Hfeed Hcode Hdata batch outcome.
  pose proof (successData_ok _ _ Hcode Hdata) as Hok.
  destruct (checkCache_miss _ _ _ Hmiss) as (_ & Hcalls & _).
  pose proof (someAtLeast_reports 1 rainData) as Hreports. fold batch in Hreports.
  assert (Hfalse : ~ someStationReports 1 batch ->
                   WeatherService.someAtLeast 1
                     (WeatherService.readingMap (head (readings rainData))) = false).
  { intros Hnone. apply not_true_is_false. now rewrite Hreports. }
  assert (Hdry : ~ someStationReports 1 batch ->
                 calls (snd outcome) = calls w ++ [Rainfall]).
  { intros Hnone. subst outcome.
    rewrite fetchWeatherData_miss, rethrow_world by assumption.
    rewrite (acquire_dry_calls env userLocation config _ rain rainData Hfeed Hok
               (Hfalse Hnone)).
    now rewrite Hcalls. }
  assert (Hsnapshot : ~ someStationReports 1 batch ->
                      stationsFault env Rainfall = None ->
                      exists snapshot,
                        fst outcome = Fulfilled snapshot /\
                        significantRainDetected snapshot = false /\
                        windSpeedMap snapshot = ∅ /\
                        windDirectionMap snapshot = ∅ /\
                        windVectors snapshot = ∅).
  { intros Hnone Hstations. subst outcome.
    rewrite fetchWeatherData_miss by assumption.
    destruct (acquire_dry env userLocation config (afterCheck env forceRefresh w)
                rain rainData Hfeed Hok (Hfalse Hnone) Hstations)
      as (snapshot & Hacq & Hflag & Hs & Hd & Hv).
    exists snapshot. unfold WeatherService.rethrow. rewrite Hacq. simpl. auto. }
  assert (Hwet : someStationReports 1 batch ->
                 calls (snd outcome) = calls w ++ [Rainfall; WindSpeed; WindDirection]).
  { intros Hsome. apply Hreports in Hsome. subst outcome.
    rewrite fetchWeatherData_miss, rethrow_world by assumption.
    destruct (acquire_wet env userLocation config (afterCheck env forceRefresh w)
                rain rainData Hfeed Hok Hsome) as [-> _].
    now rewrite Hcalls. }
  assert (Hcases : (someStationReports 1 batch <->
                    calls (snd outcome) = calls w ++ [Rainfall; WindSpeed; WindDirection]) /\
                   (~ someStationReports 1 batch <->
                    calls (snd outcome) = calls w ++ [Rainfall])).
  { destruct (WeatherService.someAtLeast 1
                (WeatherService.readingMap (head (readings rainData)))) eqn:Hsome.
    - assert (Hyes : someStationReports 1 batch) by now apply Hreports.
      specialize (Hwet Hyes). split.
      + split; [intros _; exact Hwet | intros _; exact Hyes].
      + split; [intros Hn; now contradiction Hn|].
        rewrite Hwet. intros Heq. apply app_inv_head in Heq. discriminate.
    - assert (Hno : ~ someStationReports 1 batch).
      { rewrite <- Hreports. discriminate. }
      pose proof (Hdry Hno) as Hlog. split.
      + split; [intros Hyes; now contradiction Hno|].
        rewrite Hlog. intros Heq. apply app_inv_head in Heq. discriminate.
      + split; [intros _; exact Hlog | intros _; exact Hno]. }
  split.
  { intros Hall. pose proof (someStationReports_dry 1 batch Hall) as Hnone.
    split; [now apply Hdry | now apply Hsnapshot]. }
  split; [apply Hcases|]. split; [apply Hcases|].
  intros Hbatch. rewrite <- (someStationReports_items 1 batch Hbatch).
  apply Hcases.
Qed.

Lemma wind_fetched_only_on_significant_rain_witness :
  (exists snapshot,
     fst (WeatherService.fetchWeatherData dryEnv true (Some singapore)
            WeatherService.DEFAULT_CONFIG freshWorld) = Fulfilled snapshot /\
     significantRainDetected snapshot = false /\
     windVectors snapshot = ∅ /\
     calls (snd (WeatherService.fetchWeatherData dryEnv true (Some singapore)
                   WeatherService.DEFAULT_CONFIG freshWorld)) = [Rainfall]) /\
  calls (snd (WeatherService.fetchWeatherData wetEnv true (Some singapore)
                WeatherService.DEFAULT_CONFIG freshWorld))
  = [Rainfall; WindSpeed; WindDirection].
Proof.
  split.
  - destruct (wind_fetched_only_on_significant_rain dryEnv true (Some singapore)
                WeatherService.DEFAULT_CONFIG freshWorld
                (okResponse [ {| stationId := "S1"; value := 0 |};
                              {| stationId := "S2"; value := 0.4 |} ])
                {| api_stations := [];
                   readings := [ {| reading_timestamp := "2025-07-26T10:00:00+08:00";
                                    reading_data :=
                                      Some [ {| stationId := "S1"; value := 0 |};
                                             {| stationId := "S2"; value := 0.4 |} ] |} ];
                   readingType := "TM1"; readingUnit := "mm";
                   paginationToken := None |})
      as [Hdry _].
    + left. reflexivity.
    + reflexivity.
    + reflexivity.
    + reflexivity.
    + destruct Hdry as (Hcalls & Hsnapshot).
      * intros item Hin. cbn in Hin.
        apply elem_of_cons in Hin as [->|Hin]; [cbn; lra|].
        apply list_elem_of_singleton in Hin as ->. cbn. lra.
      * destruct (Hsnapshot eq_refl) as (snapshot & Hres & Hflag & _ & _ & Hvec).
        exists snapshot. auto.
  - destruct (wind_fetched_only_on_significant_rain wetEnv true (Some singapore)
                WeatherService.DEFAULT_CONFIG freshWorld
                (answer twoRawStations "mm" wetBatch)
                {| api_stations := twoRawStations;
                   readings := [ {| reading_timestamp := "2025-07-26T10:00:00+08:00";
                                    reading_data := Some wetBatch |} ];
                   readingType := "TM1"; readingUnit := "mm";
                   paginationToken := None |})
      as (_ & _ & _ & Hwet).
    + left. reflexivity.
    + reflexivity.
    + reflexivity.
    + reflexivity.
    + apply Hwet.
      * split.
        -- cbn. apply (bool_decide_unpack _). reflexivity.
        -- cbn. apply (bool_decide_unpack _). reflexivity.
      * exists {| stationId := "S1"; value := 5 |}.
        split; [left | cbn; lra].
Defined.

Section FailedCycle.
Import WeatherService.

Lemma rethrow_error {A} (m : M A) w message w' :
  m w = (Rejected (ErrorObject message), w') ->
  rethrow m w =
  (Rejected (ErrorObject ("Could not retrieve weather data: " +:+ message)), w').
Proof. intros Hm. unfold rethrow. now rewrite Hm. Qed.

(** A failed [try] block: the error it throws and the world it leaves. *)
Lemma acquire_upstream_failure env userLocation config w response fallback :
  UpstreamFailure env response fallback ->
  exists eps,
    acquire env userLocation config w =
    (Rejected (ErrorObject (Js.orString (errorMsg response) fallback)), logged w eps).
Proof.
  intros [rain Hrain Hrejected
         |rain rainData speed direction Hrain [Hcode Hdata] Hwet Hspeed Hdir Hrejected
         |rain rainData speed speedData direction Hrain [Hcode Hdata] Hwet
            Hspeed [Hscode Hsdata] Hdir Hrejected].
  - exists [Rainfall]. apply acquire_rain_failed; [assumption|].
    now apply successData_rejected.
  - exists [Rainfall; WindSpeed; WindDirection].
    apply someAtLeast_reports in Hwet.
    pose proof (successData_ok _ _ Hcode Hdata) as Hok.
    destruct (acquire_wet env userLocation config w rain rainData Hrain Hok Hwet)
      as [_ Hrej].
    erewrite Hrej.
    2:{ apply (fetchWindStage_speed_failed _ _ speed direction); try assumption.
        now apply successData_rejected. }
    unfold logged. simpl. now rewrite <- app_assoc.
  - exists [Rainfall; WindSpeed; WindDirection].
    apply someAtLeast_reports in Hwet.
    pose proof (successData_ok _ _ Hcode Hdata) as Hok.
    pose proof (successData_ok _ _ Hscode Hsdata) as Hsok.
    destruct (acquire_wet env userLocation config w rain rainData Hrain Hok Hwet)
      as [_ Hrej].
    erewrite Hrej.
    2:{ apply (fetchWindStage_direction_failed _ _ speed speedData direction);
          try assumption.
        now apply successData_rejected. }
    unfold logged. simpl. now rewrite <- app_assoc.
Qed.

Lemma wet_reading :
  someAtLeast 1 (readingMap (head (readings
    {| api_stations := [];
       readings := [ {| reading_timestamp := "2025-07-26T10:00:00+08:00";
                        reading_data := Some [ {| stationId := "S1"; value := 5 |} ] |} ];
       readingType := "TM1"; readingUnit := "mm"; paginationToken := None |})))
  = true.
Proof.
  apply someAtLeast_reports. exists "S1", 5%R.
  split; [discriminate|]. split; [reflexivity | lra].
Qed.

Lemma wetBatch_reports : someStationReports 1 wetBatch.
Proof.
  exists "S1", 5%R. split; [discriminate|]. split; [reflexivity | lra].
Qed.
End FailedCycle.

(** C7, as stated, fails: the wind-speed feed answers with status 1 and
    message ["quota"] while the wind-direction request fails in transport;
    the error that surfaces carries the transport message, not ["quota"], and
    the expired entry that the cycle found in the weather slot is gone. *)
Lemma failed_cycle_loses_message_and_evicts :
  let outcome :=
    WeatherService.fetchWeatherData failingEnv false None
      WeatherService.DEFAULT_CONFIG staleWorld in
  feed failingEnv WindSpeed = Fulfilled (errorResponse 1 "quota") /\
  fst outcome = Rejected (ErrorObject "Could not retrieve weather data: Failed to fetch") /\
  weatherDataCache (storage staleWorld) = Some (Item 0 drySnapshot) /\
  weatherDataCache (storage (snd outcome)) = None.
Proof.
  intros outcome. split; [reflexivity|].
  assert (Hmiss : cacheMiss failingEnv false staleWorld)
    by (right; split; reflexivity).
  subst outcome. rewrite fetchWeatherData_miss by exact Hmiss.
  destruct (acquire_wet failingEnv None WeatherService.DEFAULT_CONFIG
              (afterCheck failingEnv false staleWorld)
              (okResponse [ {| stationId := "S1"; value := 5 |} ]) _
              eq_refl eq_refl wet_reading) as [_ Hrej].
  erewrite rethrow_error.
  2:{ apply Hrej.
      apply (fetchWindStage_direction_rejected _ _ (errorResponse 1 "quota"));
        reflexivity. }
  split; [reflexivity|]. split; reflexivity.
Qed.

(** C7 (amended): when the cycle is not served from the cache, every request
    it issues is answered, and some answer is rejected by the status check
    (its status code is not zero, or it carries no data),
    [fetchWeatherData] fails with a single error whose message is
    ["Could not retrieve weather data: "] followed by the [errorMsg] of the
    first rejected answer in the order rainfall, wind speed, wind direction
    (a fixed text per feed when [errorMsg] is null or empty); no snapshot is
    written: the weather slot is as the cache check that opens the cycle left
    it, which is unchanged on a forced refresh and otherwise unchanged or
    emptied. *)
Theorem upstream_failure_single_error :
  forall (env : Env) (forceRefresh : bool) (userLocation : option UserLocation)
         (config : WeatherConfig) (w : World)
         (response : GenericApiResponse) (fallback : string),
    cacheMiss env forceRefresh w ->
    UpstreamFailure env response fallback ->
    let outcome :=
      WeatherService.fetchWeatherData env forceRefresh userLocation config w in
    fst outcome =
      Rejected (ErrorObject ("Could not retrieve weather data: " +:+
                             Js.orString (errorMsg response) fallback)) /\
    (forall message, errorMsg response = Some message -> message <> "" ->
       fst outcome =
         Rejected (ErrorObject ("Could not retrieve weather data: " +:+ message))) /\
    weatherDataCache (storage (snd outcome)) =
      weatherDataCache (storage (afterCheck env forceRefresh w)) /\
    (forceRefresh = true ->
       weatherDataCache (storage (snd outcome)) = weatherDataCache (storage w)) /\
    (weatherDataCache (storage (snd outcome)) = weatherDataCache (storage w) \/
     weatherDataCache (storage (snd outcome)) = None).
Proof.
  intros env forceRefresh userLocation config w response fallback Hmiss Hfail outcome.
  destruct (checkCache_miss _ _ _ Hmiss) as (_ & _ & Hforce & Hslot).
  destruct (acquire_upstream_failure env userLocation config
              (afterCheck env forceRefresh w) response fallback Hfail)
    as (eps & Hacq).
  assert (Hout : outcome =
    (Rejected (ErrorObject ("Could not retrieve weather data: " +:+
                            Js.orString (errorMsg response) fallback)),
     logged (afterCheck env forceRefresh w) eps)).
  { subst outcome. rewrite fetchWeatherData_miss by assumption.
    now apply rethrow_error. }
  rewrite Hout. simpl.
  split; [reflexivity|]. split.
  { intros message Hmsg Hne. rewrite Hmsg. simpl.
    destruct (decide (message = "")); [contradiction | reflexivity]. }
  split; [reflexivity|]. split; [|exact Hslot].
  intros Htrue. now rewrite (Hforce Htrue).
Qed.

Lemma upstream_failure_single_error_witness :
  fst (WeatherService.fetchWeatherData rainFailingEnv false None
         WeatherService.DEFAULT_CONFIG staleWorld)
  = Rejected (ErrorObject "Could not retrieve weather data: quota") /\
  fst (WeatherService.fetchWeatherData windSpeedEmptyEnv true None
         WeatherService.DEFAULT_CONFIG freshWorld)
  = Rejected (ErrorObject
      "Could not retrieve weather data: Wind speed API returned an error without a message.") /\
  fst (WeatherService.fetchWeatherData windDirectionFailingEnv true None
         WeatherService.DEFAULT_CONFIG freshWorld)
  = Rejected (ErrorObject "Could not retrieve weather data: quota").
Proof.
  split; [|split].
  - destruct (upstream_failure_single_error rainFailingEnv false None
                WeatherService.DEFAULT_CONFIG staleWorld (errorResponse 1 "quota")
                "Rainfall API returned an error without a message.")
      as (Herror & _).
    + right. split; reflexivity.
    + apply RainfallFailed; [reflexivity | left; simpl; lia].
    + exact Herror.
  - destruct (upstream_failure_single_error windSpeedEmptyEnv true None
                WeatherService.DEFAULT_CONFIG freshWorld emptyHanded
                "Wind speed API returned an error without a message.")
      as (Herror & _).
    + left. reflexivity.
    + eapply (WindSpeedFailed windSpeedEmptyEnv
                (answer twoRawStations "mm" wetBatch) _ emptyHanded
                (errorResponse 1 "quota")).
      * reflexivity.
      * split; reflexivity.
      * exact wetBatch_reports.
      * reflexivity.
      * reflexivity.
      * right. reflexivity.
    + exact Herror.
  - destruct (upstream_failure_single_error windDirectionFailingEnv true None
                WeatherService.DEFAULT_CONFIG freshWorld (errorResponse 1 "quota")
                "Wind direction API returned an error without a message.")
      as (Herror & _).
    + left. reflexivity.
    + eapply (WindDirectionFailed windDirectionFailingEnv
                (answer twoRawStations "mm" wetBatch) _
                (answer twoRawStations "knots" []) _ (errorResponse 1 "quota")).
      * reflexivity.
      * split; reflexivity.
      * exact wetBatch_reports.
      * reflexivity.
      * split; reflexivity.
      * reflexivity.
      * left. simpl. lia.
    + exact Herror.
Defined.

(** ** The parallel distance engine *)

Section ParallelDistance.
Import ThreadedDistanceCalculator.

(** The worker and the fallback evaluate the same formula. *)
Lemma worker_distance_sync lat1 lon1 lat2 lon2 :
  DistanceWorker.calculateDistance lat1 lon1 lat2 lon2 =
  calculateDistanceSync lat1 lon1 lat2 lon2.
Proof. reflexivity. Qed.

(** Chunking loses nothing: with a positive chunk size the loop ends within
    its fuel and the chunks, in order, make up the input. *)
Lemma concat_chunksFrom {A} (chunkSize fuel : nat) (l : list A) :
  (0 < chunkSize)%nat -> (length l <= fuel)%nat ->
  concat (chunksFrom fuel chunkSize l) = l.
Proof.
  intros Hsize. revert l.
  induction fuel as [|fuel IH]; intros l Hlen.
  - destruct l; [reflexivity | simpl in Hlen; lia].
  - destruct l as [|x l]; [reflexivity|].
    cbn [chunksFrom concat]. rewrite IH.
    + apply take_drop.
    + rewrite length_drop. simpl in *. lia.
Qed.

Lemma concat_chunksOf {A} (chunkSize : nat) (l : list A) :
  (0 < chunkSize)%nat -> concat (chunksOf chunkSize l) = l.
Proof. intros Hsize. now apply concat_chunksFrom. Qed.

Lemma ceilDiv_pos (a b : nat) : (0 < a)%nat -> (0 < b)%nat -> (0 < ceilDiv a b)%nat.
Proof.
  intros Ha Hb. unfold ceilDiv.
  apply (Nat.lt_le_trans _ 1); [lia|].
  apply Nat.div_le_lower_bound; lia.
Qed.

(** Whatever the workers answer, the answers that arrive are the worker's
    results for the chunks, in order. *)
Lemma sendChunks_results answers lat lon chunks pool results :
  promiseAll (fst (sendChunks answers lat lon chunks pool)) = Some results ->
  results = DistanceWorker.calculateDistancesForStations lat lon <$> chunks.
Proof.
  revert pool results.
  induction chunks as [|chunk chunks IH]; intros pool results.
  - simpl. now intros [= <-].
  - cbn [sendChunks].
    destruct (sendToWorker answers lat lon chunk pool) as [r pool1] eqn:Hsend.
    destruct (sendChunks answers lat lon chunks pool1) as [rs pool2] eqn:Hrest.
    cbn [fst promiseAll].
    destruct r as [r|]; [|discriminate].
    destruct (promiseAll rs) as [rs'|] eqn:Hrs; [|discriminate].
    intros [= <-].
    specialize (IH pool1 rs'). rewrite Hrest in IH. cbn [fst] in IH.
    rewrite (IH Hrs). rewrite fmap_cons. f_equal.
    unfold sendToWorker in Hsend.
    destruct (negb _ || _); [discriminate|].
    destruct (answers _); [|discriminate]. now injection Hsend as <- _.
Qed.

Lemma worker_concat lat lon (chunks : list (list StationData)) :
  concat (DistanceWorker.calculateDistancesForStations lat lon <$> chunks) =
  DistanceWorker.calculateDistancesForStations lat lon (concat chunks).
Proof.
  unfold DistanceWorker.calculateDistancesForStations.
  induction chunks as [|c chunks IH]; [reflexivity|].
  cbn [fmap list_fmap concat]. now rewrite fmap_app, <- IH.
Qed.

(** The result map. *)
Lemma resultMap_notin results (m : gmap string R) k :
  k ∉ result_id <$> results ->
  foldl (fun m r => <[result_id r := result_distance r]> m) m results !! k = m !! k.
Proof.
  revert m. induction results as [|r results IH]; intros m Hk; [reflexivity|].
  cbn [foldl]. rewrite fmap_cons, not_elem_of_cons in Hk. destruct Hk as [Hne Hk].
  rewrite IH by exact Hk. now apply lookup_insert_ne.
Qed.

Lemma resultMap_in results (m : gmap string R) r :
  NoDup (result_id <$> results) -> r ∈ results ->
  foldl (fun m r => <[result_id r := result_distance r]> m) m results !! result_id r
  = Some (result_distance r).
Proof.
  revert m. induction results as [|r0 results IH]; intros m Hnodup Hin.
  - now apply elem_of_nil in Hin.
  - rewrite fmap_cons in Hnodup. apply NoDup_cons in Hnodup as [Hfresh Hnodup].
    cbn [foldl]. apply elem_of_cons in Hin as [->|Hin].
    + rewrite resultMap_notin by exact Hfresh. apply lookup_insert_eq.
    + now apply IH.
Qed.

(** Stations and the triples sent to the workers. *)
Lemma elem_of_toStationData stations d :
  d ∈ toStationData stations <->
  exists station loc, station ∈ stations /\ labelLocation station = Some loc /\
    d = {| data_id := id station; lat := latitude loc; lon := longitude loc |}.
Proof.
  unfold toStationData. rewrite list_elem_of_omap. split.
  - intros (station & Hin & Hd). destruct (labelLocation station) as [loc|] eqn:Hloc;
      [|discriminate].
    injection Hd as <-. now exists station, loc.
  - intros (station & loc & Hin & Hloc & ->). exists station.
    split; [exact Hin|]. now rewrite Hloc.
Qed.

Lemma toStationData_ids_NoDup stations :
  NoDup (id <$> stations) -> NoDup (data_id <$> toStationData stations).
Proof.
  induction stations as [|s stations IH]; [intros _; constructor|].
  rewrite fmap_cons, NoDup_cons. intros [Hfresh Hnodup].
  unfold toStationData in *. cbn [omap list_omap].
  destruct (labelLocation s) as [loc|]; [|now apply IH].
  rewrite fmap_cons. apply NoDup_cons. split; [|now apply IH].
  cbn [data_id]. intros Hin. apply Hfresh.
  apply list_elem_of_fmap in Hin as (d & Hid & Hd).
  apply elem_of_toStationData in Hd as (s' & loc' & Hs' & _ & ->).
  apply list_elem_of_fmap. now exists s'.
Qed.

Lemma NoDup_fmap_elem_eq {A B} (f : A -> B) (l : list A) x y :
  NoDup (f <$> l) -> x ∈ l -> y ∈ l -> f x = f y -> x = y.
Proof.
  induction l as [|a l IH]; [intros _ Hx; now apply elem_of_nil in Hx|].
  rewrite fmap_cons, NoDup_cons. intros [Hfresh Hnodup] Hx Hy Hf.
  apply elem_of_cons in Hx as [->|Hx]; apply elem_of_cons in Hy as [->|Hy];
    try reflexivity.
  - exfalso. apply Hfresh. rewrite Hf. apply list_elem_of_fmap. now exists y.
  - exfalso. apply Hfresh. rewrite <- Hf. apply list_elem_of_fmap. now exists x.
  - now apply IH.
Qed.

Lemma omap_ext_elem {A B} (f g : A -> option B) (l : list A) :
  (forall x, x ∈ l -> f x = g x) -> omap f l = omap g l.
Proof.
  induction l as [|a l IH]; intros Heq; [reflexivity|].
  cbn [omap list_omap]. rewrite (Heq a) by (left).
  rewrite IH; [reflexivity|]. intros x Hx. apply Heq. now right.
Qed.

(** With pairwise distinct ids, reading the distances back through the
    result map gives what the synchronous pass computes. *)
Lemma mapResultsToStations_worker stations lat lon :
  NoDup (id <$> stations) ->
  mapResultsToStations
    (DistanceWorker.calculateDistancesForStations lat lon (toStationData stations))
    stations
  = calculateDistancesSync stations lat lon.
Proof.
  intros Hnodup. unfold mapResultsToStations, calculateDistancesSync.
  apply omap_ext_elem. intros s Hs. unfold resultMap.
  set (results := DistanceWorker.calculateDistancesForStations lat lon
                    (toStationData stations)).
  assert (Hids : result_id <$> results = data_id <$> toStationData stations).
  { subst results. unfold DistanceWorker.calculateDistancesForStations.
    rewrite <- list_fmap_compose. reflexivity. }
  destruct (labelLocation s) as [loc|] eqn:Hloc.
  - set (r := {| result_id := id s;
                 result_distance :=
                   DistanceWorker.calculateDistance lat lon (latitude loc) (longitude loc) |}).
    assert (Hr : r ∈ results).
    { subst results. unfold DistanceWorker.calculateDistancesForStations.
      apply list_elem_of_fmap.
      exists {| data_id := id s; lat := latitude loc; lon := longitude loc |}.
      split; [reflexivity|]. apply elem_of_toStationData. now exists s, loc. }
    pose proof (resultMap_in results ∅ r) as Hlookup.
    rewrite Hids in Hlookup.
    specialize (Hlookup (toStationData_ids_NoDup _ Hnodup) Hr).
    subst r. cbn [result_id result_distance] in Hlookup.
    rewrite Hlookup. reflexivity.
  - rewrite resultMap_notin, lookup_empty; [reflexivity|].
    rewrite Hids. intros Hin.
    apply list_elem_of_fmap in Hin as (d & Hid & Hd).
    apply elem_of_toStationData in Hd as (s' & loc' & Hs' & Hloc' & ->).
    cbn [data_id] in Hid.
    assert (s = s') by (eapply (NoDup_fmap_elem_eq id); eassumption).
    subst s'. congruence.
Qed.

Lemma length_toStationData stations lat lon :
  length (toStationData stations) = length (calculateDistancesSync stations lat lon).
Proof.
  unfold toStationData, calculateDistancesSync.
  induction stations as [|s stations IH]; [reflexivity|].
  cbn [omap list_omap]. destruct (labelLocation s); simpl; now rewrite ?IH.
Qed.
End ParallelDistance.

Section ParallelDistanceExamples.
Import ThreadedDistanceCalculator.
Local Open Scope R_scope.

Lemma distance_same_point : calculateDistanceSync 0 0 0 0 = 0.
Proof.
  unfold calculateDistanceSync.
  replace ((0 - 0) * PI / 180 / 2) with 0 by lra.
  replace (0 * PI / 180) with 0 by lra.
  rewrite sin_0, cos_0.
  replace (0 * 0 + 1 * 1 * 0 * 0) with 0 by lra.
  replace (1 - 0) with 1 by lra.
  rewrite sqrt_0, sqrt_1. unfold Js.atan2.
  destruct (decide (0 < 1)) as [_|Hn]; [|exfalso; apply Hn; lra].
  replace (0 / 1) with 0 by lra. rewrite atan_0. lra.
Qed.

Lemma distance_antipode : calculateDistanceSync 0 0 0 180 = 6371 * PI.
Proof.
  unfold calculateDistanceSync.
  replace ((0 - 0) * PI / 180 / 2) with 0 by lra.
  replace ((180 - 0) * PI / 180 / 2) with (PI / 2) by lra.
  replace (0 * PI / 180) with 0 by lra.
  rewrite sin_0, cos_0, sin_PI2.
  replace (0 * 0 + 1 * 1 * 1 * 1) with 1 by lra.
  replace (1 - 1) with 0 by lra.
  rewrite sqrt_0, sqrt_1. unfold Js.atan2.
  destruct (decide (0 < 0)) as [Hn|_]; [lra|].
  destruct (decide (0 < 0)) as [Hn|_]; [lra|].
  destruct (decide (0 < 1)) as [_|Hn]; [|exfalso; apply Hn; lra].
  lra.
Qed.
End ParallelDistanceExamples.

(** The two paths agree because station ids are distinct.  On a list in which
    two located stations share an id, which the merge of the feeds never
    produces, the result map keeps one distance per id: the parallel path
    gives the first station the distance of the second, while the
    synchronous path gives each its own. *)
Lemma parallel_path_merges_duplicate_ids :
  let alpha := stationAt "S1" "Alpha" {| latitude := 0; longitude := 0 |} in
  let bravo := stationAt "S1" "Bravo" {| latitude := 0; longitude := 180 |} in
  fst (ThreadedDistanceCalculator.calculateDistancesParallel alwaysAnswers fourWorkers
         duplicateIdStations 0 0)
    = [ (alpha, (6371 * PI)%R); (bravo, (6371 * PI)%R) ] /\
  ThreadedDistanceCalculator.calculateDistancesSync duplicateIdStations 0 0
    = [ (alpha, 0%R); (bravo, (6371 * PI)%R) ] /\
  (6371 * PI)%R <> 0%R.
Proof.
  intros alpha bravo.
  assert (Hsync : ThreadedDistanceCalculator.calculateDistancesSync
                    duplicateIdStations 0 0
                  = [ (alpha, 0%R); (bravo, (6371 * PI)%R) ]).
  { unfold ThreadedDistanceCalculator.calculateDistancesSync, duplicateIdStations.
    cbn [omap list_omap labelLocation stationAt latitude longitude].
    now rewrite distance_same_point, distance_antipode. }
  split; [|split; [exact Hsync | pose proof PI_RGT_0; lra]].
  unfold ThreadedDistanceCalculator.calculateDistancesParallel, fourWorkers,
    alwaysAnswers, duplicateIdStations, ThreadedDistanceCalculator.sendToWorker.
  cbn [ThreadedDistanceCalculator.isInitialized ThreadedDistanceCalculator.workers
       negb orb].
  rewrite (bool_decide_eq_false_2 (4 = 0)%nat) by lia.
  cbn [ThreadedDistanceCalculator.toStationData omap list_omap labelLocation
       stationAt latitude longitude id length].
  rewrite (bool_decide_eq_false_2 (2 = 0)%nat) by lia.
  rewrite (bool_decide_eq_true_2 (2 <= 20)%nat) by lia.
  cbn [negb orb fst].
  unfold ThreadedDistanceCalculator.mapResultsToStations,
    ThreadedDistanceCalculator.resultMap,
    DistanceWorker.calculateDistancesForStations.
  cbn [fmap list_fmap foldl data_id lat lon result_id result_distance
       omap list_omap id].
  rewrite !lookup_insert_eq. rewrite worker_distance_sync, distance_antipode.
  reflexivity.
Qed.

(** C9: for every station list (station ids are pairwise distinct, as the
    merge of the feeds leaves them), every reference point, pool state and
    worker behaviour, the parallel distance path returns exactly what the
    synchronous fallback returns: the located stations, in order, each with
    the same distance.  This holds on the single-message path, on the
    sharded path, and when a worker fails to answer. *)
Theorem parallel_distances_agree :
  forall (answers : nat -> bool) (pool : ThreadedDistanceCalculator.Pool)
         (stations : list Station) (userLat userLon : R),
    NoDup (id <$> stations) ->
    fst (ThreadedDistanceCalculator.calculateDistancesParallel answers pool
           stations userLat userLon)
    = ThreadedDistanceCalculator.calculateDistancesSync stations userLat userLon.
Proof.
  intros answers pool stations userLat userLon Hnodup.
  unfold ThreadedDistanceCalculator.calculateDistancesParallel.
  destruct (negb _ || bool_decide (ThreadedDistanceCalculator.workers pool = 0%nat))
    eqn:Hready; [reflexivity|].
  apply orb_false_iff in Hready as [_ Hworkers].
  apply bool_decide_eq_false in Hworkers.
  set (stationData := ThreadedDistanceCalculator.toStationData stations).
  pose proof (length_toStationData stations userLat userLon) as Hlen.
  fold stationData in Hlen.
  destruct (bool_decide (length stationData = 0%nat)) eqn:Hempty.
  { apply bool_decide_eq_true in Hempty. rewrite Hempty in Hlen.
    cbn [fst]. symmetry. now apply nil_length_inv. }
  apply bool_decide_eq_false in Hempty.
  destruct (bool_decide (length stationData <= 20)%nat) eqn:Hsmall.
  - destruct (ThreadedDistanceCalculator.sendToWorker _ _ _ _ _) as [[result|] pool']
      eqn:Hsend; [|reflexivity].
    cbn [fst]. unfold ThreadedDistanceCalculator.sendToWorker in Hsend.
    destruct (negb _ || _); [discriminate|].
    destruct (answers _); [|discriminate].
    injection Hsend as <- _. now apply mapResultsToStations_worker.
  - destruct (ThreadedDistanceCalculator.sendChunks _ _ _ _ _) as [promises pool']
      eqn:Hsend.
    destruct (ThreadedDistanceCalculator.promiseAll promises) as [results|] eqn:Hall;
      [|reflexivity].
    cbn [fst].
    match type of Hsend with
    | ThreadedDistanceCalculator.sendChunks _ _ _ ?chunks _ = _ =>
        pose proof (sendChunks_results answers userLat userLon chunks pool results)
          as Hres
    end.
    rewrite Hsend in Hres. specialize (Hres Hall). subst results.
    rewrite worker_concat, concat_chunksOf.
    + now apply mapResultsToStations_worker.
    + apply ceilDiv_pos; lia.
Qed.

Lemma parallel_distances_agree_witness :
  fst (ThreadedDistanceCalculator.calculateDistancesParallel alwaysAnswers fourWorkers
         twoStations 1.3 103.8)
  = ThreadedDistanceCalculator.calculateDistancesSync twoStations 1.3 103.8 /\
  fst (ThreadedDistanceCalculator.calculateDistancesParallel alwaysAnswers fourWorkers
         manyStations 1.3 103.8)
  = ThreadedDistanceCalculator.calculateDistancesSync manyStations 1.3 103.8.
Proof.
  split.
  - apply parallel_distances_agree.
    apply (NoDup_cons_2 "S1" ["S2"]).
    + intros Hin. apply list_elem_of_singleton in Hin. discriminate.
    + apply NoDup_singleton.
  - apply parallel_distances_agree.
    unfold manyStations. rewrite <- list_fmap_compose.
    apply (NoDup_fmap_2 (fun n : nat => pretty n)). apply NoDup_seq.
Defined.

(** * Further properties *)

(** ** Sorting, continued *)

Section SortOrder.
Context {A : Type} (cmp : A -> A -> R).

Lemma insert_Permutation (x : A) (l : list A) : Js.insert cmp x l ≡ₚ x :: l.
Proof.
  induction l as [|y l IH]; simpl; [reflexivity|].
  destruct (decide _); [reflexivity|].
  rewrite IH. apply Permutation_swap.
Qed.

Lemma sort_Permutation (l : list A) : Js.sort cmp l ≡ₚ l.
Proof.
  induction l as [|x l IH]; simpl; [reflexivity|].
  now rewrite insert_Permutation, IH.
Qed.

Hypothesis le_total : forall x y, (cmp x y <= 0)%R \/ (cmp y x <= 0)%R.
Hypothesis le_trans :
  forall x y z, (cmp x y <= 0)%R -> (cmp y z <= 0)%R -> (cmp x z <= 0)%R.

Lemma insert_StronglySorted (x : A) (l : list A) :
  StronglySorted (fun a b => (cmp a b <= 0)%R) l ->
  StronglySorted (fun a b => (cmp a b <= 0)%R) (Js.insert cmp x l).
Proof.
  induction 1 as [|y l Hsorted IH Hy]; simpl.
  - repeat constructor.
  - destruct (decide (cmp x y <= 0)%R) as [Hxy|Hxy].
    + constructor; [now constructor|].
      constructor; [exact Hxy|].
      eapply Forall_impl; [exact Hy|]. intros z Hyz. now apply (le_trans x y z).
    + constructor; [exact IH|].
      rewrite insert_Permutation. constructor; [|exact Hy].
      destruct (le_total x y); [contradiction | assumption].
Qed.

Lemma sort_StronglySorted (l : list A) :
  StronglySorted (fun a b => (cmp a b <= 0)%R) (Js.sort cmp l).
Proof.
  induction l as [|x l IH]; simpl; [constructor|]. now apply insert_StronglySorted.
Qed.
End SortOrder.

Section ArrayOrder.
Context {A : Type}.

Lemma slice0_take (l : list A) (e : Z) : exists n, Js.slice0 l e = take n l.
Proof. unfold Js.slice0. eauto. Qed.

Lemma take_StronglySorted (R : relation A) (n : nat) (l : list A) :
  StronglySorted R l -> StronglySorted R (take n l).
Proof.
  intros Hl. rewrite <- (take_drop n l) in Hl.
  now apply StronglySorted_app_1_l in Hl.
Qed.

Lemma list_filter_sublist (f : A -> bool) (l : list A) : List.filter f l `sublist_of` l.
Proof.
  induction l as [|x l IH]; simpl; [constructor|].
  destruct (f x); now constructor.
Qed.

Lemma submseteq_NoDup_fmap {B} (f : A -> B) (l k : list A) :
  l ⊆+ k -> NoDup (f <$> k) -> NoDup (f <$> l).
Proof.
  intros Hsub Hk. apply (fmap_submseteq f) in Hsub.
  apply submseteq_Permutation in Hsub as [rest Hperm].
  rewrite Hperm in Hk. now apply NoDup_app in Hk as [? _].
Qed.
End ArrayOrder.

(** ** The station filter, continued *)

Section StationFilterOrder.
Import WeatherService.
Local Open Scope R_scope.

Lemma byDistance_le (a b : Station * R) : byDistance a b <= 0 <-> snd a <= snd b.
Proof. unfold byDistance. lra. Qed.

Lemma byDistance_sorted (l : list (Station * R)) :
  StronglySorted (fun a b => snd a <= snd b) (Js.sort byDistance l).
Proof.
  pose proof (sort_StronglySorted byDistance
                ltac:(intros x y; rewrite !byDistance_le; lra)
                ltac:(intros x y z; rewrite !byDistance_le; lra) l) as Hs.
  apply (StronglySorted_fmap (fun x => x) _ (fun a b => snd a <= snd b)) in Hs.
  - now rewrite list_fmap_id in Hs.
  - intros x y. now rewrite byDistance_le.
Qed.

Lemma withDistance_annotated lat lon stations :
  Forall (annotated lat lon) (withDistance lat lon stations).
Proof.
  unfold withDistance. induction stations as [|s stations IH]; [constructor|].
  cbn [omap list_omap]. destruct (labelLocation s) as [loc|] eqn:Hloc; [|exact IH].
  constructor; [|exact IH]. unfold annotated, stationDistance. cbn [fst snd].
  now rewrite Hloc.
Qed.

Lemma withDistance_stations lat lon stations :
  fst <$> withDistance lat lon stations = List.filter located stations.
Proof.
  unfold withDistance, located. induction stations as [|s stations IH]; [reflexivity|].
  cbn [omap list_omap List.filter].
  destruct (labelLocation s) as [loc|]; cbn.
  - now rewrite IH.
  - exact IH.
Qed.

Lemma fmap_fst_sorted lat lon (items : list (Station * R)) :
  Forall (annotated lat lon) items ->
  StronglySorted (fun a b => snd a <= snd b) items ->
  StronglySorted (nearerOrEqual lat lon) (fst <$> items).
Proof.
  intros Hann Hsorted. induction Hsorted as [|a l Hl IH Ha]; [constructor|].
  apply Forall_cons in Hann as [Hanna Hannl].
  rewrite fmap_cons. constructor; [now apply IH|].
  apply Forall_fmap, Forall_forall. intros b Hb.
  rewrite Forall_forall in Ha, Hannl.
  exists (snd a), (snd b). split; [exact Hanna|]. split; [now apply Hannl | now apply Ha].
Qed.

(** Either pass: cut the sorted annotated list at some length. *)
Lemma pass_sorted lat lon (items : list (Station * R)) (e : Z) :
  Forall (annotated lat lon) items ->
  StronglySorted (nearerOrEqual lat lon)
    (fst <$> Js.slice0 (Js.sort byDistance items) e) /\
  Forall (fun s => is_Some (labelLocation s))
    (fst <$> Js.slice0 (Js.sort byDistance items) e) /\
  fst <$> Js.slice0 (Js.sort byDistance items) e ⊆+ fst <$> items.
Proof.
  intros Hann. destruct (slice0_take (Js.sort byDistance items) e) as [n ->].
  assert (Hsub : take n (Js.sort byDistance items) ⊆+ items).
  { etrans; [apply submseteq_take|]. apply Permutation_submseteq, sort_Permutation. }
  assert (Hann' : Forall (annotated lat lon) (take n (Js.sort byDistance items))).
  { rewrite Forall_forall in Hann |- *. intros x Hx. apply Hann.
    eapply elem_of_submseteq; eassumption. }
  split; [|split].
  - apply fmap_fst_sorted; [exact Hann'|]. apply take_StronglySorted, byDistance_sorted.
  - apply Forall_fmap. eapply Forall_impl; [exact Hann'|].
    intros [s d]. unfold annotated, stationDistance. cbn.
    destruct (labelLocation s); [eauto | discriminate].
  - now apply fmap_submseteq.
Qed.

Lemma withinRadius_closestMin lat lon stations config :
  (StronglySorted (nearerOrEqual lat lon) (withinRadius stations lat lon config) /\
   Forall (fun s => is_Some (labelLocation s)) (withinRadius stations lat lon config) /\
   withinRadius stations lat lon config ⊆+ stations) /\
  (StronglySorted (nearerOrEqual lat lon) (closestMin stations lat lon config) /\
   Forall (fun s => is_Some (labelLocation s)) (closestMin stations lat lon config) /\
   closestMin stations lat lon config ⊆+ stations).
Proof.
  pose proof (withDistance_annotated lat lon stations) as Hann.
  assert (Hlocated : fst <$> withDistance lat lon stations ⊆+ stations).
  { rewrite withDistance_stations. apply sublist_submseteq, list_filter_sublist. }
  split.
  - unfold withinRadius.
    set (inside := List.filter _ (withDistance lat lon stations)).
    assert (Hin : inside `sublist_of` withDistance lat lon stations)
      by apply list_filter_sublist.
    destruct (pass_sorted lat lon inside (maxStations config)) as (H1 & H2 & H3).
    { rewrite Forall_forall in Hann |- *. intros x Hx. apply Hann.
      eapply elem_of_submseteq; [exact Hx | now apply sublist_submseteq]. }
    split; [exact H1|]. split; [exact H2|].
    etrans; [exact H3|]. etrans; [|exact Hlocated].
    now apply fmap_submseteq, sublist_submseteq.
  - unfold closestMin.
    destruct (pass_sorted lat lon (withDistance lat lon stations) (minStations config) Hann)
      as (H1 & H2 & H3).
    split; [exact H1|]. split; [exact H2|]. etrans; [exact H3 | exact Hlocated].
Qed.
End StationFilterOrder.

Section StationFilterMore.
Import WeatherService.
Local Open Scope R_scope.

Lemma withinRadius_inside lat lon stations config :
  Forall (fun s => exists d, stationDistance lat lon s = Some d /\ d <= radiusKm config)
    (withinRadius stations lat lon config).
Proof.
  unfold withinRadius.
  destruct (slice0_take
              (Js.sort byDistance
                 (List.filter (fun item => bool_decide (snd item <= radiusKm config))
                    (withDistance lat lon stations)))
              (maxStations config)) as [n ->].
  apply Forall_fmap, Forall_forall. intros item Hitem.
  assert (Hin : item ∈ List.filter (fun item => bool_decide (snd item <= radiusKm config))
                          (withDistance lat lon stations)).
  { rewrite <- (sort_Permutation byDistance).
    eapply elem_of_submseteq; [exact Hitem | apply submseteq_take]. }
  apply list_elem_of_In, filter_In in Hin as [Hin Hradius].
  apply list_elem_of_In in Hin. apply bool_decide_eq_true in Hradius.
  pose proof (withDistance_annotated lat lon stations) as Hann.
  rewrite Forall_forall in Hann. specialize (Hann item Hin).
  exists (snd item). split; assumption.
Qed.

Lemma length_closestMin lat lon stations config :
  (0 <= minStations config)%Z ->
  Z.of_nat (length (closestMin stations lat lon config)) =
  Z.min (minStations config) (Z.of_nat (locatedCount stations)).
Proof.
  intros Hmin. unfold closestMin, locatedCount.
  rewrite length_fmap, length_slice0, length_sort.
  rewrite <- (withDistance_stations lat lon), length_fmap.
  destruct (decide _); [lia | reflexivity].
Qed.
End StationFilterMore.

(** X1: with a usable reference location the stations come back in ascending
    order of distance to it, and each of them has a location. *)
Theorem filterNearbyStations_sorted_by_distance :
  forall (stations : list Station) (lat lon : R) (config : WeatherConfig),
    lat <> 0%R -> lon <> 0%R ->
    let result :=
      WeatherService.filterNearbyStations stations (Some lat) (Some lon) config in
    StronglySorted (nearerOrEqual lat lon) result /\
    Forall (fun s => is_Some (labelLocation s)) result.
Proof.
  intros stations lat lon config Hlat Hlon result. subst result.
  rewrite filterNearbyStations_located by assumption.
  destruct (withinRadius_closestMin lat lon stations config)
    as [(H1 & H2 & _) (H3 & H4 & _)].
  destruct (_ && _); split; assumption.
Qed.

Lemma filterNearbyStations_sorted_by_distance_witness :
  StronglySorted (nearerOrEqual 1.3 103.8)
    (WeatherService.filterNearbyStations twoStations (Some 1.3%R) (Some 103.8%R)
       WeatherService.DEFAULT_CONFIG).
Proof.
  apply (filterNearbyStations_sorted_by_distance twoStations 1.3 103.8
           WeatherService.DEFAULT_CONFIG); lra.
Defined.

(** X2: when the radius pass already yields [minStations] stations, or the
    input has fewer than [minStations] stations, every returned station lies
    within [radiusKm] of the reference location. *)
Theorem filterNearbyStations_within_radius :
  forall (stations : list Station) (lat lon : R) (config : WeatherConfig),
    lat <> 0%R -> lon <> 0%R ->
    (minStations config <= Z.of_nat (length (withinRadius stations lat lon config)))%Z \/
    (Z.of_nat (length stations) < minStations config)%Z ->
    Forall (fun s => exists d, stationDistance lat lon s = Some d /\
                               (d <= radiusKm config)%R)
      (WeatherService.filterNearbyStations stations (Some lat) (Some lon) config).
Proof.
  intros stations lat lon config Hlat Hlon Hcond.
  rewrite filterNearbyStations_located by assumption.
  destruct (bool_decide _ && bool_decide _) eqn:Hexpand.
  - apply andb_true_iff in Hexpand as [H1 H2].
    apply bool_decide_eq_true in H1, H2. lia.
  - apply withinRadius_inside.
Qed.

Lemma filterNearbyStations_within_radius_witness :
  Forall (fun s => exists d, stationDistance 1.3 103.8 s = Some d /\ (d <= 15)%R)
    (WeatherService.filterNearbyStations twoStations (Some 1.3%R) (Some 103.8%R)
       WeatherService.DEFAULT_CONFIG).
Proof.
  apply (filterNearbyStations_within_radius twoStations 1.3 103.8
           WeatherService.DEFAULT_CONFIG); [lra | lra |].
  right. simpl. lia.
Defined.

(** X3: the reliability floor.  With a usable reference location and
    [0 <= minStations <= stations.length], at least
    [min(minStations, number of located stations)] stations are returned. *)
Theorem filterNearbyStations_floor :
  forall (stations : list Station) (lat lon : R) (config : WeatherConfig),
    lat <> 0%R -> lon <> 0%R ->
    (0 <= minStations config <= Z.of_nat (length stations))%Z ->
    (Z.min (minStations config) (Z.of_nat (locatedCount stations))
     <= Z.of_nat (length (WeatherService.filterNearbyStations stations
                            (Some lat) (Some lon) config)))%Z.
Proof.
  intros stations lat lon config Hlat Hlon [Hmin Hlen].
  rewrite filterNearbyStations_located by assumption.
  destruct (bool_decide _ && bool_decide _) eqn:Hexpand.
  - rewrite length_closestMin by assumption. lia.
  - apply andb_false_iff in Hexpand as [H|H]; apply bool_decide_eq_false in H; lia.
Qed.

Lemma filterNearbyStations_floor_witness :
  (2 <= Z.of_nat (length (WeatherService.filterNearbyStations twoStations
                            (Some 1.3%R) (Some 103.8%R) floorAboveCap)))%Z.
Proof.
  apply (filterNearbyStations_floor twoStations 1.3 103.8 floorAboveCap);
    [lra | lra | simpl; lia].
Defined.

Lemma filterNearbyStations_sub (stations : list Station) (userLat userLon : option R)
    (config : WeatherConfig) :
  WeatherService.filterNearbyStations stations userLat userLon config ⊆+ stations.
Proof.
  unfold WeatherService.filterNearbyStations.
  destruct (_ || _); [reflexivity|].
  destruct (withinRadius_closestMin (default 0%R userLat) (default 0%R userLon)
              stations config) as [(_ & _ & H1) (_ & _ & H2)].
  destruct (_ && _); assumption.
Qed.

(** X4: whatever the location and the configuration, the stations returned
    are stations of the input, none of them more often than it occurs there;
    in particular pairwise distinct ids stay pairwise distinct. *)
Theorem filterNearbyStations_submseteq :
  forall (stations : list Station) (userLat userLon : option R)
         (config : WeatherConfig),
    WeatherService.filterNearbyStations stations userLat userLon config ⊆+ stations /\
    (NoDup (id <$> stations) ->
     NoDup (id <$> WeatherService.filterNearbyStations stations userLat userLon config)).
Proof.
  intros stations userLat userLon config.
  split; [apply filterNearbyStations_sub|].
  apply submseteq_NoDup_fmap, filterNearbyStations_sub.
Qed.

Lemma filterNearbyStations_submseteq_witness :
  NoDup (id <$> WeatherService.filterNearbyStations twoStations
                  (Some 1.3%R) (Some 103.8%R) WeatherService.DEFAULT_CONFIG).
Proof.
  apply (filterNearbyStations_submseteq twoStations (Some 1.3%R) (Some 103.8%R)
           WeatherService.DEFAULT_CONFIG).
  apply (NoDup_cons_2 "S1" ["S2"]).
  - intros Hin. apply list_elem_of_singleton in Hin. discriminate.
  - apply NoDup_singleton.
Defined.

(** ** Great-circle distance and bearing *)

Section GeoMath.
Import Location.
Local Open Scope R_scope.

Lemma deg2rad_unfold (x : R) : deg2rad x = x * PI / 180.
Proof. unfold deg2rad. lra. Qed.

Lemma atan_nonneg (x : R) : 0 <= x -> 0 <= atan x.
Proof.
  intros [Hx|<-]; [|rewrite atan_0; lra].
  left. rewrite <- atan_0. now apply atan_increasing.
Qed.

Lemma atan2_quadrant (y x : R) : 0 <= y -> 0 <= x -> 0 <= Js.atan2 y x <= PI / 2.
Proof.
  intros Hy Hx. unfold Js.atan2. pose proof PI_RGT_0.
  destruct (decide (0 < x)).
  - pose proof (atan_bound (y / x)). pose proof (atan_nonneg (y / x)) as Hn.
    specialize (Hn ltac:(apply div_nonneg; assumption)). lra.
  - destruct (decide (x < 0)); [lra|].
    destruct (decide (0 < y)); [lra|].
    destruct (decide (y < 0)); lra.
Qed.

Lemma atan2_lower (y x : R) : - PI < Js.atan2 y x.
Proof.
  unfold Js.atan2. pose proof PI_RGT_0. pose proof (atan_bound (y / x)).
  destruct (decide (0 < x)); [lra|].
  destruct (decide (x < 0)).
  - destruct (decide (0 <= y)); [lra|].
    assert (0 < y / x) by (apply Rdiv_neg_neg; lra).
    pose proof (atan_increasing 0 (y / x) ltac:(assumption)) as Hinc.
    rewrite atan_0 in Hinc. lra.
  - destruct (decide (0 < y)); [lra|].
    destruct (decide (y < 0)); lra.
Qed.

(** The haversine term [a] is unchanged when the two points are swapped. *)
Lemma haversine_swap (lat1 lon1 lat2 lon2 : R) :
  sin ((lat2 - lat1) * PI / 180 / 2) * sin ((lat2 - lat1) * PI / 180 / 2) +
  cos (lat1 * PI / 180) * cos (lat2 * PI / 180) *
  sin ((lon2 - lon1) * PI / 180 / 2) * sin ((lon2 - lon1) * PI / 180 / 2)
  =
  sin ((lat1 - lat2) * PI / 180 / 2) * sin ((lat1 - lat2) * PI / 180 / 2) +
  cos (lat2 * PI / 180) * cos (lat1 * PI / 180) *
  sin ((lon1 - lon2) * PI / 180 / 2) * sin ((lon1 - lon2) * PI / 180 / 2).
Proof.
  replace ((lat1 - lat2) * PI / 180 / 2) with (- ((lat2 - lat1) * PI / 180 / 2)) by lra.
  replace ((lon1 - lon2) * PI / 180 / 2) with (- ((lon2 - lon1) * PI / 180 / 2)) by lra.
  rewrite !sin_neg. ring.
Qed.

Lemma calculateDistance_swap (lat1 lon1 lat2 lon2 : R) :
  WeatherService.calculateDistance lat1 lon1 lat2 lon2 =
  WeatherService.calculateDistance lat2 lon2 lat1 lon1.
Proof.
  unfold WeatherService.calculateDistance. cbv zeta.
  now rewrite (haversine_swap lat1 lon1 lat2 lon2).
Qed.

Lemma calculateDistance_same (lat lon : R) :
  WeatherService.calculateDistance lat lon lat lon = 0.
Proof.
  unfold WeatherService.calculateDistance. cbv zeta.
  replace ((lat - lat) * PI / 180 / 2) with 0 by lra.
  replace ((lon - lon) * PI / 180 / 2) with 0 by lra.
  rewrite sin_0.
  replace (0 * 0 + cos (lat * PI / 180) * cos (lat * PI / 180) * 0 * 0) with 0 by ring.
  replace (1 - 0) with 1 by lra.
  rewrite sqrt_0, sqrt_1. unfold Js.atan2.
  destruct (decide (0 < 1)) as [_|Hn]; [|exfalso; apply Hn; lra].
  replace (0 / 1) with 0 by lra. rewrite atan_0. lra.
Qed.

Lemma getDistance_calculateDistance (loc1 loc2 : UserLocation) :
  getDistance (Some loc1) (Some loc2) =
  Some (WeatherService.calculateDistance (latitude loc1) (longitude loc1)
          (latitude loc2) (longitude loc2)).
Proof.
  unfold getDistance, WeatherService.calculateDistance. cbv zeta.
  now rewrite !deg2rad_unfold.
Qed.
End GeoMath.

(** X5: [getDistance] computes the same distance as the [calculateDistance]
    of the weather service, of the worker and of the synchronous fallback; it
    is symmetric in its two points, zero for identical points, and infinite
    (absent) exactly when a point is missing. *)
Theorem getDistance_symmetric_zero :
  forall (loc1 loc2 : UserLocation),
    Location.getDistance (Some loc1) (Some loc2) =
      Some (WeatherService.calculateDistance (latitude loc1) (longitude loc1)
              (latitude loc2) (longitude loc2)) /\
    WeatherService.calculateDistance (latitude loc1) (longitude loc1)
        (latitude loc2) (longitude loc2) =
      DistanceWorker.calculateDistance (latitude loc1) (longitude loc1)
        (latitude loc2) (longitude loc2) /\
    WeatherService.calculateDistance (latitude loc1) (longitude loc1)
        (latitude loc2) (longitude loc2) =
      ThreadedDistanceCalculator.calculateDistanceSync (latitude loc1) (longitude loc1)
        (latitude loc2) (longitude loc2) /\
    Location.getDistance (Some loc1) (Some loc2) =
      Location.getDistance (Some loc2) (Some loc1) /\
    Location.getDistance (Some loc1) (Some loc1) = Some 0%R /\
    (forall a b, Location.getDistance a b = None <-> a = None \/ b = None).
Proof.
  intros loc1 loc2.
  split; [apply getDistance_calculateDistance|].
  split; [reflexivity|]. split; [reflexivity|].
  split; [rewrite !getDistance_calculateDistance; f_equal; apply calculateDistance_swap|].
  split; [rewrite getDistance_calculateDistance; f_equal; apply calculateDistance_same|].
  intros [a|] [b|]; simpl; split; try tauto; try discriminate.
  intros [H|H]; discriminate.
Qed.

(** X6: a great-circle distance is never negative and never more than half
    the circumference of the Earth, [6371 * PI] kilometres. *)
Theorem calculateDistance_bounds :
  forall (lat1 lon1 lat2 lon2 : R),
    (0 <= WeatherService.calculateDistance lat1 lon1 lat2 lon2 <= 6371 * PI)%R.
Proof.
  intros lat1 lon1 lat2 lon2.
  unfold WeatherService.calculateDistance. cbv zeta.
  match goal with
  | |- context [Js.atan2 (sqrt ?a) (sqrt ?b)] =>
      pose proof (atan2_quadrant (sqrt a) (sqrt b) (sqrt_pos a) (sqrt_pos b))
  end.
  lra.
Qed.

(** X7: the initial bearing is a compass angle in [[0, 360)]. *)
Theorem calculateBearing_range :
  forall (loc1 loc2 : UserLocation),
    (0 <= Location.calculateBearing loc1 loc2 < 360)%R.
Proof.
  intros loc1 loc2. unfold Location.calculateBearing. cbv zeta.
  match goal with
  | |- context [Js.atan2 ?y ?x] => pose proof (atan2_lower y x) as Hlow;
                                   set (bearingRad := Js.atan2 y x) in *
  end.
  assert (Hdeg : (0 <= Location.rad2deg bearingRad + 360)%R).
  { unfold Location.rad2deg. pose proof PI_RGT_0 as Hpi.
    assert (Hk : (0 < 180 / PI)%R) by (apply Rdiv_lt_0_compat; lra).
    assert (Heq : (- PI * (180 / PI) = -180)%R) by (field; lra).
    pose proof (Rmult_lt_compat_r (180 / PI) (- PI) bearingRad Hk Hlow). lra. }
  destruct (rem_nonneg _ 360 Hdeg ltac:(lra)) as (-> & _ & Hrange). exact Hrange.
Qed.

(** ** The prediction engine, continued *)

Section PredictionMore.
Import Location.
Local Open Scope R_scope.

Lemma stationToUser_same (userLocation : UserLocation) :
  stationToUser userLocation userLocation = (0 - 0 * cos (deg2rad (latitude userLocation)), 0 - 0).
Proof.
  unfold stationToUser, toCartesian. cbn [fst snd].
  replace (longitude userLocation - longitude userLocation) with 0 by lra.
  replace (latitude userLocation - latitude userLocation) with 0 by lra.
  unfold deg2rad. f_equal; f_equal; ring.
Qed.

Lemma threatOf_inv userLocation weatherData station threat :
  threatOf userLocation weatherData station = Some threat ->
  exists stationLoc windVector,
    labelLocation station = Some stationLoc /\
    windVectors weatherData !! id station = Some windVector /\
    0 < dotProduct userLocation stationLoc windVector /\
    timeToArrive userLocation stationLoc windVector <= 15 /\
    threat = {| stationName := name station;
                timeToReach := Js.round (timeToArrive userLocation stationLoc windVector);
                distance := distanceToUser userLocation stationLoc |}.
Proof.
  unfold threatOf.
  destruct (labelLocation station) as [stationLoc|]; [|discriminate].
  destruct (windVectors weatherData !! id station) as [windVector|]; [|discriminate].
  destruct (decide (0 < dotProduct _ _ _)) as [Hdot|]; [|discriminate].
  destruct (decide (0 < effectiveVelocity _ _ _)); [|discriminate].
  destruct (decide (_ <= PREDICTION_TIME_MINUTES)) as [Htime|]; [|discriminate].
  intros [= <-]. exists stationLoc, windVector. auto 10.
Qed.

Lemma timeToArrive_pos userLocation stationLoc windVector :
  0 < dotProduct userLocation stationLoc windVector ->
  0 < timeToArrive userLocation stationLoc windVector.
Proof.
  intros Hdot. unfold timeToArrive.
  pose proof (dotProduct_distance _ _ _ Hdot) as Hdist.
  pose proof (dotProduct_effectiveVelocity _ _ _ Hdot) as Heff.
  pose proof (Rdiv_lt_0_compat _ _ Hdist Heff). lra.
Qed.

Lemma threatOf_away userLocation weatherData station stationLoc windVector :
  labelLocation station = Some stationLoc ->
  windVectors weatherData !! id station = Some windVector ->
  dotProduct userLocation stationLoc windVector <= 0 ->
  threatOf userLocation weatherData station = None.
Proof.
  intros Hloc Hvec Hdot. unfold threatOf. rewrite Hloc, Hvec.
  destruct (decide _); [lra | reflexivity].
Qed.

Lemma omap_all_None {A B} (f : A -> option B) (l : list A) :
  (forall x, x ∈ l -> f x = None) -> omap f l = [].
Proof.
  induction l as [|x l IH]; intros Hall; [reflexivity|].
  cbn [omap list_omap]. rewrite (Hall x) by left.
  apply IH. intros y Hy. apply Hall. now right.
Qed.

Lemma isRainyStation_inv weatherData station :
  isRainyStation weatherData station = true ->
  exists stationLoc windVector,
    labelLocation station = Some stationLoc /\
    windVectors weatherData !! id station = Some windVector /\
    0 < magnitude windVector /\
    3 <= default 0 (rainfallMap weatherData !! id station).
Proof.
  unfold isRainyStation. rewrite !andb_true_iff, !bool_decide_eq_true.
  intros [[[stationLoc Hloc] Hrain] Hvec].
  destruct (windVectors weatherData !! id station) as [windVector|]; [|discriminate].
  apply bool_decide_eq_true in Hvec. exists stationLoc, windVector. auto.
Qed.
End PredictionMore.

(** X8: a rainy station that sits exactly on the reference point is never a
    threat, whatever its wind: its dot product is zero, so the division by the
    (zero) distance is not reached. *)
Theorem colocated_station_is_no_threat :
  forall (userLocation : UserLocation) (weatherData : WeatherData) (station : Station),
    labelLocation station = Some userLocation ->
    Location.distanceToUser userLocation userLocation = 0%R /\
    Location.threatOf userLocation weatherData station = None.
Proof.
  intros userLocation weatherData station Hloc. split.
  - unfold Location.distanceToUser. rewrite stationToUser_same.
    match goal with |- sqrt ?x = _ => replace x with 0%R by ring end.
    apply sqrt_0.
  - unfold Location.threatOf. rewrite Hloc.
    destruct (windVectors weatherData !! id station) as [windVector|]; [|reflexivity].
    destruct (decide _) as [Hdot|]; [|reflexivity].
    unfold Location.dotProduct in Hdot. rewrite stationToUser_same in Hdot.
    exfalso. revert Hdot.
    match goal with |- (0 < ?x)%R -> _ => replace x with 0%R by ring end.
    lra.
Qed.

Lemma colocated_station_is_no_threat_witness :
  Location.threatOf singapore
    (rainySnapshot [stationAt "S1" "Alpha" singapore] {[ "S1" := 5%R ]}
       {[ "S1" := southward 40 ]})
    (stationAt "S1" "Alpha" singapore) = None.
Proof.
  apply (colocated_station_is_no_threat singapore _ (stationAt "S1" "Alpha" singapore)).
  reflexivity.
Defined.

(** X9: every threat that enters the list belongs to a rainy station of the
    snapshot, lies at a positive distance, and has an arrival time of 0 to 15
    whole minutes. *)
Theorem threats_within_window :
  forall (userLocation : UserLocation) (weatherData : WeatherData)
         (threat : Location.Threat),
    threat ∈ Location.threats userLocation weatherData ->
    (0 <= Location.timeToReach threat <= 15)%Z /\
    (0 < Location.distance threat)%R /\
    exists station,
      station ∈ stations weatherData /\
      Location.isRainyStation weatherData station = true /\
      Location.stationName threat = name station.
Proof.
  intros userLocation weatherData threat Hin.
  unfold Location.threats in Hin.
  apply list_elem_of_omap in Hin as (station & Hstation & Hthreat).
  apply threatOf_inv in Hthreat
    as (stationLoc & windVector & Hloc & Hvec & Hdot & Htime & ->).
  cbn [Location.timeToReach Location.distance Location.stationName].
  pose proof (timeToArrive_pos _ _ _ Hdot) as Hpos.
  split; [apply round_bounds; simpl; lra|].
  split; [eapply dotProduct_distance; exact Hdot|].
  unfold Location.rainyStations in Hstation.
  apply list_elem_of_In, filter_In in Hstation as [Hstation Hrainy].
  exists station. split; [now apply list_elem_of_In|]. now split.
Qed.

Lemma threats_within_window_witness :
  (0 <= 14 <= 15)%Z /\ (0 < 4.7)%R.
Proof.
  destruct (threats_within_window singapore twoThreatsSnapshot
              {| Location.stationName := "Bravo"; Location.timeToReach := 14;
                 Location.distance := 4.7 |}) as (Hminutes & Hdistance & _).
  - rewrite twoThreats_threats. right. left.
  - split; [exact Hminutes | exact Hdistance].
Defined.

(** X10: when the snapshot is flagged as rainy and has rainy stations, but at
    none of them the wind has a positive component toward the reference point,
    the prediction is that the rain is not heading this way. *)
Theorem wind_away_no_arrival :
  forall (userLocation : UserLocation) (weatherData : WeatherData),
    significantRainDetected weatherData = true ->
    Location.rainyStations weatherData <> [] ->
    (forall station stationLoc windVector,
       station ∈ Location.rainyStations weatherData ->
       labelLocation station = Some stationLoc ->
       windVectors weatherData !! id station = Some windVector ->
       (Location.dotProduct userLocation stationLoc windVector <= 0)%R) ->
    Location.threats userLocation weatherData = [] /\
    Location.calculateRainPrediction userLocation weatherData =
      "Significant rain is detected, but current wind patterns suggest it is not heading towards your location within the next 15 minutes.".
Proof.
  intros userLocation weatherData Hflag Hrainy Haway.
  assert (Hnone : Location.threats userLocation weatherData = []).
  { unfold Location.threats. apply omap_all_None. intros station Hstation.
    assert (Hr : Location.isRainyStation weatherData station = true).
    { unfold Location.rainyStations in Hstation.
      now apply list_elem_of_In, filter_In in Hstation as [_ ?]. }
    apply isRainyStation_inv in Hr as (stationLoc & windVector & Hloc & Hvec & _).
    eapply threatOf_away; eauto. }
  split; [exact Hnone|].
  unfold Location.calculateRainPrediction. rewrite Hflag, Hnone. simpl.
  now destruct (Location.rainyStations weatherData).
Qed.

Lemma wind_away_no_arrival_witness :
  Location.calculateRainPrediction singapore (recedingSnapshot singapore) =
    "Significant rain is detected, but current wind patterns suggest it is not heading towards your location within the next 15 minutes.".
Proof.
  assert (Hrainy : Location.rainyStations (recedingSnapshot singapore)
                   = [stationAt "S1" "Alpha" (northOf singapore 10)]).
  { unfold Location.rainyStations, recedingSnapshot, rainySnapshot. simpl.
    now rewrite (isRainyStation_intro _ _ (northOf singapore 10) 5 (northward 40));
      [|reflexivity|apply lookup_singleton_eq|lra|apply lookup_singleton_eq|simpl; lra]. }
  apply (wind_away_no_arrival singapore (recedingSnapshot singapore)).
  - reflexivity.
  - rewrite Hrainy. discriminate.
  - intros station stationLoc windVector Hin Hloc Hvec.
    rewrite Hrainy in Hin. apply list_elem_of_singleton in Hin. subst station.
    injection Hloc as <-.
    unfold recedingSnapshot, rainySnapshot in Hvec. simpl in Hvec.
    rewrite lookup_singleton_eq in Hvec. injection Hvec as <-.
    unfold Location.dotProduct. rewrite stationToUser_northOf. simpl. lra.
Defined.

(** X28: the axes of a wind vector.  [convertToWindVector] lays the velocity
    out with the travel direction measured from the x axis: a wind reported
    from the north (0 degrees, travel direction 180) gets the velocity
    [(-speed, 0)], one reported from the east (90 degrees, travel direction
    270) the velocity [(0, -speed)].  The prediction reads x as east and y
    as north.  So a rainy station due north of the user is no threat under
    the wind reported from the north, whatever its speed and distance; under
    the wind reported from the east the rain arrives after
    [distance / speed], and the station is a threat exactly when that is at
    most 15 minutes. *)
Theorem wind_axes_in_prediction :
  forall (reference : UserLocation) (km speedKnots : R)
         (weatherData : WeatherData) (station : Station),
    (0 < km)%R -> (0 < speedKnots)%R ->
    labelLocation station = Some (northOf reference km) ->
    let fromNorth := WeatherService.convertToWindVector speedKnots 0 in
    let fromEast := WeatherService.convertToWindVector speedKnots 90 in
    (directionDeg fromNorth = 180%R /\
     velocityX fromNorth = (- (speedKnots * 1.852))%R /\
     velocityY fromNorth = 0%R) /\
    (directionDeg fromEast = 270%R /\
     velocityX fromEast = 0%R /\
     velocityY fromEast = (- (speedKnots * 1.852))%R) /\
    (windVectors weatherData !! id station = Some fromNorth ->
     Location.threatOf reference weatherData station = None) /\
    (windVectors weatherData !! id station = Some fromEast ->
     Location.timeToArrive reference (northOf reference km) fromEast
       = (km / (speedKnots * 1.852) * 60)%R /\
     (is_Some (Location.threatOf reference weatherData station) <->
      (km / (speedKnots * 1.852) * 60 <= 15)%R)).
Proof.
  intros reference km speedKnots weatherData station Hkm Hspeed Hloc fromNorth fromEast.
  subst fromNorth fromEast. rewrite wind_from_north, wind_from_east.
  cbn [directionDeg velocityX velocityY].
  split; [auto|]. split; [auto|]. split.
  - intros Hvec. eapply threatOf_away; [exact Hloc | exact Hvec|].
    unfold Location.dotProduct. rewrite stationToUser_northOf. cbn. lra.
  - intros Hvec.
    destruct (due_north_vector reference km (speedKnots * 1.852)
                {| velocityX := 0; velocityY := - (speedKnots * 1.852);
                   magnitude := speedKnots * 1.852; directionDeg := 270 |}
                Hkm ltac:(lra) eq_refl eq_refl) as (Hdist & Hdot & Htime).
    split; [exact Htime|].
    rewrite (threatOf_towards _ _ _ _ _ Hloc Hvec) by (rewrite Hdot; nra).
    rewrite Htime. destruct (decide _) as [Hle|Hgt].
    + split; [intros _; exact Hle | intros _; eauto].
    + split; [intros [? ?]; discriminate | intros; contradiction].
Qed.

Lemma wind_axes_in_prediction_witness :
  Location.threatOf singapore
    (arrivalSnapshot singapore (WeatherService.convertToWindVector (40 / 1.852) 0))
    (stationAt "S1" "Alpha" (northOf singapore 10)) = None /\
  is_Some (Location.threatOf singapore
             (arrivalSnapshot singapore (WeatherService.convertToWindVector (40 / 1.852) 90))
             (stationAt "S1" "Alpha" (northOf singapore 10))).
Proof.
  split.
  - destruct (wind_axes_in_prediction singapore 10 (40 / 1.852)
                (arrivalSnapshot singapore (WeatherService.convertToWindVector (40 / 1.852) 0))
                (stationAt "S1" "Alpha" (northOf singapore 10)))
      as (_ & _ & Hnorth & _); [lra | lra | reflexivity|].
    apply Hnorth. apply lookup_singleton_eq.
  - destruct (wind_axes_in_prediction singapore 10 (40 / 1.852)
                (arrivalSnapshot singapore (WeatherService.convertToWindVector (40 / 1.852) 90))
                (stationAt "S1" "Alpha" (northOf singapore 10)))
      as (_ & _ & _ & Heast); [lra | lra | reflexivity|].
    destruct (Heast (lookup_singleton_eq _ _)) as (_ & Hiff).
    apply Hiff. lra.
Defined.

(** ** Wind vectors, continued *)

Section WindVectors.
Import WeatherService.
Local Open Scope R_scope.

Lemma cos_sin_square (x : R) : cos x * cos x + sin x * sin x = 1.
Proof. pose proof (sin2_cos2 x) as H. unfold Rsqr in H. lra. Qed.

Lemma rem_second_turn (a : R) : 360 <= a < 720 -> Js.rem a 360 = a - 360.
Proof.
  intros Ha. destruct (rem_nonneg a 360 ltac:(lra) ltac:(lra)) as (-> & _ & _).
  replace (Zfloor (a / 360)) with 1%Z; [lra|].
  symmetry. apply Zfloor_eq. lra.
Qed.

Lemma buildWindVectors_lookup (windSpeedMap windDirectionMap : gmap string R) k v :
  buildWindVectors windSpeedMap windDirectionMap !! k = Some v <->
  k <> "__proto__" /\
  exists speed direction,
    windSpeedMap !! k = Some speed /\ windDirectionMap !! k = Some direction /\
    0 < speed /\ v = convertToWindVector speed direction.
Proof.
  unfold buildWindVectors.
  destruct (decide (k = "__proto__")) as [->|Hk].
  { rewrite lookup_delete_eq. split; [discriminate | now intros [? _]]. }
  rewrite lookup_delete_ne by congruence. rewrite lookup_merge.
  destruct (windSpeedMap !! k) as [speed|], (windDirectionMap !! k) as [direction|];
    cbn.
  - destruct (decide (0 < speed)) as [Hpos|Hneg]; split.
    + intros [= <-]. split; [exact Hk|]. now exists speed, direction.
    + intros (_ & s & d & [= <-] & [= <-] & _ & ->). reflexivity.
    + discriminate.
    + intros (_ & s & d & [= <-] & _ & Hpos & _). contradiction.
  - split; [discriminate | intros (_ & s & d & _ & H & _); discriminate].
  - split; [discriminate | intros (_ & s & d & H & _); discriminate].
  - split; [discriminate | intros (_ & s & d & H & _); discriminate].
Qed.

Lemma ordinary_not_proto (k : string) : k ∉ Js.objectPrototypeNames -> k <> "__proto__".
Proof.
  intros Hk ->. apply Hk. unfold Js.objectPrototypeNames.
  apply (bool_decide_unpack _). reflexivity.
Qed.
End WindVectors.

(** X11: a wind vector has the speed in km/h ([knots * 1.852]) as its
    magnitude and as the length of its velocity; its travel direction is the
    reported direction turned by 180 degrees, kept in [[0, 360)]. *)
Theorem convertToWindVector_geometry :
  forall (speedKnots direction : R),
    let v := WeatherService.convertToWindVector speedKnots direction in
    (magnitude v = speedKnots * 1.852)%R /\
    (velocityX v * velocityX v + velocityY v * velocityY v
     = magnitude v * magnitude v)%R /\
    ((0 <= direction < 180)%R -> directionDeg v = (direction + 180)%R) /\
    ((180 <= direction < 360)%R -> directionDeg v = (direction - 180)%R) /\
    ((-180 <= direction)%R -> (0 <= directionDeg v < 360)%R).
Proof.
  intros speedKnots direction v. subst v.
  unfold WeatherService.convertToWindVector. cbn.
  split; [reflexivity|]. split.
  { match goal with
    | |- context [cos ?x] => pose proof (cos_sin_square x) as Hcs; nra
    end. }
  split; [intros Hd; apply rem_small; lra|].
  split; [intros Hd; rewrite rem_second_turn; lra|].
  intros Hd.
  destruct (rem_nonneg (direction + 180) 360 ltac:(lra) ltac:(lra)) as (-> & _ & H).
  exact H.
Qed.

Lemma convertToWindVector_geometry_witness :
  directionDeg (WeatherService.convertToWindVector 10 200) = (200 - 180)%R.
Proof.
  apply (convertToWindVector_geometry 10 200). lra.
Defined.

(** X12: for a station id that does not name a member of
    [Object.prototype], the wind-vector map has an entry exactly when the
    station has both a speed and a direction reading and the speed is
    positive, and the entry is the converted vector; every entry of the map
    has a positive magnitude. *)
Theorem buildWindVectors_entries :
  forall (windSpeedMap windDirectionMap : gmap string R)
         (stationId : string) (v : WindVector),
    (stationId ∉ Js.objectPrototypeNames ->
     (WeatherService.buildWindVectors windSpeedMap windDirectionMap !! stationId = Some v <->
      exists speed direction,
        windSpeedMap !! stationId = Some speed /\
        windDirectionMap !! stationId = Some direction /\
        (0 < speed)%R /\ v = WeatherService.convertToWindVector speed direction)) /\
    (WeatherService.buildWindVectors windSpeedMap windDirectionMap !! stationId = Some v ->
     (0 < magnitude v)%R).
Proof.
  intros windSpeedMap windDirectionMap stationId v. split.
  - intros Hordinary. apply ordinary_not_proto in Hordinary.
    rewrite buildWindVectors_lookup. split; [now intros [_ H] | now split].
  - intros Hv.
    apply buildWindVectors_lookup in Hv as (_ & speed & direction & _ & _ & Hpos & ->).
    cbn. lra.
Qed.

Lemma buildWindVectors_entries_witness :
  WeatherService.buildWindVectors {[ "S1" := 10%R ]} {[ "S1" := 90%R ]} !! "S1"
  = Some (WeatherService.convertToWindVector 10 90) /\
  WeatherService.buildWindVectors {[ "toString" := 10%R ]} {[ "toString" := 90%R ]}
    !! "S1" = None.
Proof.
  split.
  - apply (buildWindVectors_entries {[ "S1" := 10%R ]} {[ "S1" := 90%R ]} "S1").
    + unfold Js.objectPrototypeNames. apply (bool_decide_unpack _). reflexivity.
    + exists 10%R, 90%R. rewrite !lookup_singleton_eq. repeat split; lra.
  - destruct (WeatherService.buildWindVectors {[ "toString" := 10%R ]}
                {[ "toString" := 90%R ]} !! "S1") as [v|] eqn:Hv; [|reflexivity].
    apply (buildWindVectors_entries {[ "toString" := 10%R ]}
             {[ "toString" := 90%R ]} "S1" v) in Hv
      as (speed & direction & Hspeed & _).
    + rewrite lookup_singleton_ne in Hspeed by discriminate. discriminate.
    + unfold Js.objectPrototypeNames. apply (bool_decide_unpack _). reflexivity.
Defined.

(** ** Readings and station metadata *)

Section Readings.
Import WeatherService.

(** One step of the merge. *)
Lemma mergeStation_ids (stationMap : list Station) (rawStation : RawStation) :
  id <$> mergeStation stationMap rawStation =
  if decide (raw_id rawStation ∈ id <$> stationMap) then id <$> stationMap
  else (id <$> stationMap) ++ [raw_id rawStation].
Proof.
  induction stationMap as [|s stationMap IH]; cbn [mergeStation].
  - destruct (decide _) as [Hin|_]; [now apply elem_of_nil in Hin | reflexivity].
  - destruct (decide (id s = raw_id rawStation)) as [Heq|Hne].
    + rewrite decide_True by (rewrite fmap_cons, <- Heq; left).
      destruct (labelLocation s); reflexivity.
    + rewrite !fmap_cons, IH.
      destruct (decide (raw_id rawStation ∈ id <$> stationMap)) as [Hin|Hnin].
      * rewrite decide_True by (now right). reflexivity.
      * rewrite decide_False; [reflexivity|].
        rewrite elem_of_cons. intros [?|?]; congruence.
Qed.

Lemma mergeStation_NoDup (stationMap : list Station) (rawStation : RawStation) :
  NoDup (id <$> stationMap) -> NoDup (id <$> mergeStation stationMap rawStation).
Proof.
  intros Hnodup. rewrite mergeStation_ids.
  destruct (decide _) as [|Hnin]; [exact Hnodup|].
  apply NoDup_app. split; [exact Hnodup|]. split; [|apply NoDup_singleton].
  intros x Hx Hx'. apply list_elem_of_singleton in Hx'. now subst.
Qed.

Lemma mergeStation_elem_ids (stationMap : list Station) (rawStation : RawStation) k :
  k ∈ id <$> mergeStation stationMap rawStation <->
  k ∈ id <$> stationMap \/ k = raw_id rawStation.
Proof.
  rewrite mergeStation_ids. destruct (decide _) as [Hin|Hnin].
  - split; [now left | intros [?| ->]; assumption].
  - rewrite elem_of_app, list_elem_of_singleton. reflexivity.
Qed.

Lemma mergeStation_keeps_located (stationMap : list Station) (rawStation : RawStation) s :
  s ∈ stationMap -> is_Some (labelLocation s) -> s ∈ mergeStation stationMap rawStation.
Proof.
  intros Hin Hloc. induction stationMap as [|s0 stationMap IH];
    [now apply elem_of_nil in Hin|].
  cbn [mergeStation]. apply elem_of_cons in Hin as [->|Hin].
  - destruct (decide _); [|left].
    destruct Hloc as [loc Hloc]. rewrite Hloc. left.
  - destruct (decide _).
    + destruct (labelLocation s0); now right.
    + right. now apply IH.
Qed.

Lemma mergeStations_flat (responses : list ApiData) (stationMap : list Station) :
  foldl (fun stationMap res => foldl mergeStation stationMap (api_stations res))
    stationMap responses
  = foldl mergeStation stationMap (rawStations responses).
Proof.
  unfold rawStations. revert stationMap.
  induction responses as [|res responses IH]; intros stationMap; [reflexivity|].
  cbn [foldl fmap list_fmap concat]. now rewrite foldl_app, IH.
Qed.

Lemma foldl_mergeStation_NoDup (raws : list RawStation) (stationMap : list Station) :
  NoDup (id <$> stationMap) -> NoDup (id <$> foldl mergeStation stationMap raws).
Proof.
  revert stationMap. induction raws as [|raw raws IH]; intros stationMap Hnodup;
    [exact Hnodup|].
  cbn [foldl]. now apply IH, mergeStation_NoDup.
Qed.

Lemma foldl_mergeStation_ids (raws : list RawStation) (stationMap : list Station) k :
  k ∈ id <$> foldl mergeStation stationMap raws <->
  k ∈ id <$> stationMap \/ k ∈ raw_id <$> raws.
Proof.
  revert stationMap. induction raws as [|raw raws IH]; intros stationMap.
  - cbn. split; [now left | intros [?|H]; [assumption | now apply elem_of_nil in H]].
  - cbn [foldl]. rewrite IH, mergeStation_elem_ids, fmap_cons, elem_of_cons. tauto.
Qed.

Lemma foldl_mergeStation_keeps_located (raws : list RawStation)
    (stationMap : list Station) s :
  s ∈ stationMap -> is_Some (labelLocation s) -> s ∈ foldl mergeStation stationMap raws.
Proof.
  revert stationMap. induction raws as [|raw raws IH]; intros stationMap Hin Hloc;
    [exact Hin|].
  cbn [foldl]. apply IH; [|exact Hloc]. now apply mergeStation_keeps_located.
Qed.
End Readings.

(** X13: in the per-station map of a reading, a station carries the value of
    the last item of the batch that names it, and no value when no item names
    it; the key [__proto__] never gets an entry. *)
Theorem readingMap_last_item_wins :
  forall (timestamp : string) (items : list ReadingDataItem) (stationId' : string),
    WeatherService.readingMap
      (Some {| reading_timestamp := timestamp; reading_data := Some items |}) !! stationId'
    = if decide (stationId' = "__proto__") then None
      else value <$> last (filter (fun item => stationId item = stationId') items).
Proof.
  intros timestamp items k.
  unfold WeatherService.readingMap. cbn [reading_data].
  apply readingMap_items.
Qed.

Lemma mergeStations_NoDup (responses : list ApiData) :
  NoDup (id <$> WeatherService.mergeStations responses).
Proof.
  unfold WeatherService.mergeStations. rewrite mergeStations_flat.
  apply foldl_mergeStation_NoDup. constructor.
Qed.

(** X14: the merged station list holds every station id that some answer
    mentions, and each id once. *)
Theorem mergeStations_ids_unique :
  forall (responses : list ApiData),
    NoDup (id <$> WeatherService.mergeStations responses) /\
    (forall k, k ∈ id <$> WeatherService.mergeStations responses <->
               k ∈ raw_id <$> rawStations responses).
Proof.
  intros responses. split; [apply mergeStations_NoDup|].
  unfold WeatherService.mergeStations. rewrite mergeStations_flat.
  intros k. rewrite foldl_mergeStation_ids. cbn.
  split; [intros [H|H]; [now apply elem_of_nil in H | exact H] | now right].
Qed.

(** X15: the first answer to give a station a location decides it: a station
    that has a location after merging some answers is found unchanged (same
    name, device and location) after merging any further answers. *)
Theorem mergeStations_first_location_wins :
  forall (responses more : list ApiData) (station : Station),
    station ∈ WeatherService.mergeStations responses ->
    is_Some (labelLocation station) ->
    station ∈ WeatherService.mergeStations (responses ++ more).
Proof.
  intros responses more station Hin Hloc.
  unfold WeatherService.mergeStations in *.
  rewrite foldl_app, mergeStations_flat.
  now apply foldl_mergeStation_keeps_located.
Qed.

Lemma mergeStations_first_location_wins_witness :
  stationAt "S1" "Alpha" {| latitude := 1.30; longitude := 103.80 |}
  ∈ WeatherService.mergeStations ([firstAnswer] ++ [laterAnswer]).
Proof.
  apply mergeStations_first_location_wins.
  - unfold WeatherService.mergeStations, firstAnswer. cbn. left.
  - cbn. eauto.
Defined.

(** ** The acquisition cycle, continued *)

Section AcquisitionMore.
Import WeatherService.

Lemma world_eta (w : World) : {| storage := storage w; calls := calls w |} = w.
Proof. now destruct w. Qed.

Lemma fetchWindStage_rejected env w e w' :
  fetchWindStage env w = (Rejected e, w') -> storage w' = storage w.
Proof.
  unfold fetchWindStage, bind, fetchBoth, throw, tryWrite, modifyStorage, ret.
  destruct (feed env WindSpeed) as [speed|e1], (feed env WindDirection) as [direction|e2];
    cbn [fst snd]; try (intros [= _ <-]; reflexivity).
  destruct (successData speed); [|intros [= _ <-]; reflexivity].
  destruct (successData direction); [discriminate | intros [= _ <-]; reflexivity].
Qed.

Lemma fetchWindStage_fulfilled env w wind w' :
  fetchWindStage env w = (Fulfilled wind, w') ->
  storage w' =
    (if setItemThrows env WIND_VECTORS_KEY then storage w
     else saveWindVectors (timezoneOffsetMinutes env) (nowAtVectors env)
            (stage_windVectors wind) (storage w)) /\
  mergedEndpoints wind = [Rainfall; WindSpeed; WindDirection] /\
  stage_windVectors wind =
    buildWindVectors (stage_windSpeedMap wind) (stage_windDirectionMap wind).
Proof.
  unfold fetchWindStage, bind, fetchBoth, throw, tryWrite, modifyStorage, ret.
  destruct (feed env WindSpeed) as [speed|e1], (feed env WindDirection) as [direction|e2];
    cbn [fst snd]; try discriminate.
  destruct (successData speed) as [speedData|]; [|discriminate].
  destruct (successData direction) as [dirData|]; [|discriminate].
  intros [= <- <-]. cbn. auto.
Qed.

(** The wind stage as [acquire] runs it. *)
Lemma windStage_cases env (wet : bool) w :
  (exists wind w2,
     (if wet then fetchWindStage env else ret skippedWindStage) w = (Fulfilled wind, w2) /\
     weatherDataCache (storage w2) = weatherDataCache (storage w) /\
     (storage w2 = storage w \/
      (setItemThrows env WIND_VECTORS_KEY = false /\
       mergedEndpoints wind = [Rainfall; WindSpeed; WindDirection] /\
       exists vectors,
         storage w2 = saveWindVectors (timezoneOffsetMinutes env) (nowAtVectors env)
                        vectors (storage w))) /\
     forall k v, stage_windVectors wind !! k = Some v -> (0 < magnitude v)%R) \/
  (exists e w2,
     (if wet then fetchWindStage env else ret skippedWindStage) w = (Rejected e, w2) /\
     storage w2 = storage w).
Proof.
  destruct wet.
  - destruct (fetchWindStage env w) as [[wind|e] w2] eqn:Hstage.
    + left. exists wind, w2. split; [reflexivity|].
      apply fetchWindStage_fulfilled in Hstage as (Hstorage & Hmerged & Hvec).
      split; [|split].
      * rewrite Hstorage. now destruct (setItemThrows env WIND_VECTORS_KEY).
      * rewrite Hstorage.
        destruct (setItemThrows env WIND_VECTORS_KEY); [now left | right; eauto].
      * intros k v Hk. rewrite Hvec in Hk.
        apply buildWindVectors_lookup in Hk as (_ & s & d & _ & _ & Hpos & ->).
        cbn. lra.
    + right. exists e, w2. split; [reflexivity|].
      now apply fetchWindStage_rejected in Hstage.
  - left. exists skippedWindStage, w. split; [reflexivity|].
    split; [reflexivity|]. split; [now left|].
    intros k v Hk. cbn in Hk. now rewrite lookup_empty in Hk.
Qed.

(** What a completed [try] block has produced. *)
Lemma acquire_fulfilled env userLocation config w snapshot w' :
  acquire env userLocation config w = (Fulfilled snapshot, w') ->
  (setItemThrows env CACHE_KEY = false ->
   weatherDataCache (storage w') =
     Some (Item (getNext5MinMark (timezoneOffsetMinutes env) (nowAtStore env)) snapshot)) /\
  (setItemThrows env CACHE_KEY = true ->
   weatherDataCache (storage w') = weatherDataCache (storage w)) /\
  ((forall key, setItemThrows env key = true) -> storage w' = storage w) /\
  (exists responses,
     stations snapshot =
       match userLocation with
       | Some loc =>
           filterNearbyStations (mergeStations responses)
             (Some (latitude loc)) (Some (longitude loc)) config
       | None => mergeStations responses
       end) /\
  (is_Some userLocation ->
   keyedBy (stations snapshot) (rainfallMap snapshot) /\
   keyedBy (stations snapshot) (windSpeedMap snapshot) /\
   keyedBy (stations snapshot) (windDirectionMap snapshot) /\
   keyedBy (stations snapshot) (windVectors snapshot)) /\
  (forall k v, windVectors snapshot !! k = Some v -> (0 < magnitude v)%R).
Proof.
  unfold acquire, bind, fetch.
  destruct (feed env Rainfall) as [rain|e]; [|discriminate].
  destruct (successData rain) as [rainData|]; [|discriminate].
  set (w1 := {| storage := storage w; calls := calls w ++ [Rainfall] |}).
  destruct (windStage_cases env (someAtLeast 1 (readingMap (head (readings rainData)))) w1)
    as [(wind & w2 & -> & Hslot & Hstorage & Hmag)|(e & w2 & -> & _)]; [|discriminate].
  destruct (mergeFault _ _); [unfold throw; discriminate|].
  unfold tryWrite, modifyStorage, ret. intros [= <- <-].
  cbn [storage weatherDataCache setCachedData].
  split; [intros ->; reflexivity|].
  split; [intros ->; exact Hslot|].
  split.
  { intros Hthrows. rewrite (Hthrows CACHE_KEY).
    destruct Hstorage as [Hsame|(Hwrites & _)]; [exact Hsame|].
    rewrite (Hthrows WIND_VECTORS_KEY) in Hwrites. discriminate. }
  cbn [stations rainfallMap windSpeedMap windDirectionMap windVectors].
  split; [eexists; reflexivity|].
  assert (Hkeyed : forall {A} (sts : list Station) (m : gmap string A),
            keyedBy sts (onlyNearby (list_to_set (id <$> sts)) m)).
  { intros A sts m k [v Hk]. unfold onlyNearby in Hk.
    apply map_lookup_filter_Some in Hk as [_ Hin]. cbn in Hin.
    now apply elem_of_list_to_set in Hin. }
  split.
  - intros [loc ->]. repeat split; apply Hkeyed.
  - intros k v Hk. destruct userLocation; [|now apply (Hmag k)].
    unfold onlyNearby in Hk. apply map_lookup_filter_Some in Hk as [Hk _].
    now apply (Hmag k).
Qed.

(** What a failed [try] block leaves: the storage as it was, or, when the
    merge stopped at an answer whose stations are at fault, the wind vectors
    saved. *)
Lemma acquire_rejected env userLocation config w e w' :
  acquire env userLocation config w = (Rejected e, w') ->
  weatherDataCache (storage w') = weatherDataCache (storage w) /\
  (storage w' = storage w \/
   (setItemThrows env WIND_VECTORS_KEY = false /\
    (exists ep message, stationsFault env ep = Some message /\ e = ErrorObject message) /\
    exists vectors,
      storage w' = saveWindVectors (timezoneOffsetMinutes env) (nowAtVectors env)
                     vectors (storage w))).
Proof.
  unfold acquire, bind, fetch, throw.
  destruct (feed env Rainfall) as [rain|e0]; [|intros [= _ <-]; cbn; auto].
  destruct (successData rain) as [rainData|]; [|intros [= _ <-]; cbn; auto].
  set (w1 := {| storage := storage w; calls := calls w ++ [Rainfall] |}).
  destruct (windStage_cases env (someAtLeast 1 (readingMap (head (readings rainData)))) w1)
    as [(wind & w2 & -> & Hslot & Hstorage & _)|(e1 & w2 & -> & Hstorage)].
  - destruct (mergeFault env wind) as [message|] eqn:Hfault.
    + intros [= <- <-]. split; [exact Hslot|].
      destruct Hstorage as [Hsame|(Hwrites & _ & vectors & Hsaved)]; [now left|].
      right. split; [exact Hwrites|]. split; [|eauto].
      unfold mergeFault in Hfault. apply head_Some_elem_of in Hfault.
      apply list_elem_of_omap in Hfault as (ep & _ & Hep). eauto.
    + unfold tryWrite, modifyStorage, ret. discriminate.
  - intros [= _ <-]. rewrite Hstorage. cbn. auto.
Qed.

Lemma fetchWeatherData_cases env forceRefresh userLocation config w :
  (exists data,
     forceRefresh = false /\
     ((exists expiry,
         weatherDataCache (storage w) = Some (Item expiry data) /\
         (nowAtCheck env <= expiry)%Z) \/
      weatherDataCache (storage w) = Some (NoExpiry (Some data))) /\
     fetchWeatherData env forceRefresh userLocation config w = (Fulfilled data, w)) \/
  (cacheMiss env forceRefresh w /\
   fetchWeatherData env forceRefresh userLocation config w =
   rethrow (acquire env userLocation config) (afterCheck env forceRefresh w)) \/
  (exists message,
     forceRefresh = false /\
     weatherDataCache (storage w) = Some (Denied message) /\
     fetchWeatherData env forceRefresh userLocation config w
       = (Rejected (ErrorObject message), w)).
Proof.
  destruct forceRefresh.
  - right. left. assert (Hmiss : cacheMiss env true w) by now left.
    split; [exact Hmiss | now apply fetchWeatherData_miss].
  - destruct (weatherDataCache (storage w))
      as [[|expiry data| |[data|]|expiry|message]|] eqn:Hslot.
    all: try (right; left;
              assert (Hmiss : cacheMiss env false w)
                by (right; unfold getCachedDataThrows, getCachedData; rewrite Hslot;
                    repeat (destruct (decide _)); split; reflexivity);
              split; [exact Hmiss | now apply fetchWeatherData_miss]).
    + destruct (decide (nowAtCheck env > expiry)%Z) as [Hexpired|Hfresh].
      * right. left.
        assert (Hmiss : cacheMiss env false w).
        { right. unfold getCachedDataThrows, getCachedData. rewrite Hslot.
          destruct (decide _); [split; reflexivity | contradiction]. }
        split; [exact Hmiss | now apply fetchWeatherData_miss].
      * left. exists data. split; [reflexivity|].
        split; [left; exists expiry; split; [reflexivity | lia]|].
        unfold fetchWeatherData, bind, checkCache, getCachedDataThrows, getCachedData.
        rewrite Hslot. destruct (decide _); [contradiction|].
        unfold ret. now rewrite world_eta.
    + left. exists data. split; [reflexivity|]. split; [now right|].
      unfold fetchWeatherData, bind, checkCache, getCachedDataThrows, getCachedData.
      rewrite Hslot. unfold ret. now rewrite world_eta.
    + right. right. exists message. split; [reflexivity|]. split; [reflexivity|].
      unfold fetchWeatherData, bind, checkCache, getCachedDataThrows.
      now rewrite Hslot.
Qed.
End AcquisitionMore.

Section AcquisitionOutcomes.
Import WeatherService.

Lemma fetchWeatherData_hit env userLocation config w expiry data :
  weatherDataCache (storage w) = Some (Item expiry data) ->
  (nowAtCheck env <= expiry)%Z ->
  fetchWeatherData env false userLocation config w = (Fulfilled data, w).
Proof.
  intros Hslot Hfresh.
  unfold fetchWeatherData, bind, checkCache, getCachedDataThrows, getCachedData.
  rewrite Hslot. destruct (decide _); [lia|]. unfold ret. now rewrite world_eta.
Qed.

Lemma fetchWeatherData_hit_forever env userLocation config w data :
  weatherDataCache (storage w) = Some (NoExpiry (Some data)) ->
  fetchWeatherData env false userLocation config w = (Fulfilled data, w).
Proof.
  intros Hslot.
  unfold fetchWeatherData, bind, checkCache, getCachedDataThrows, getCachedData.
  rewrite Hslot. unfold ret. now rewrite world_eta.
Qed.

Lemma rethrow_fulfilled {A} (m : M A) w a w' :
  rethrow m w = (Fulfilled a, w') -> m w = (Fulfilled a, w').
Proof. unfold rethrow. destruct (m w) as [[a0|[msg|]] w0]; now intros [= <- <-]. Qed.

Lemma rethrow_rejected {A} (m : M A) w e w' :
  rethrow m w = (Rejected e, w') ->
  exists e0, m w = (Rejected e0, w') /\
             exists message, e = ErrorObject message /\ fetchFailureMessage message.
Proof.
  unfold rethrow. destruct (m w) as [[a0|[msg|]] w0]; intros [= <- <-].
  - exists (ErrorObject msg). split; [reflexivity|].
    eexists. split; [reflexivity|]. left. now exists msg.
  - exists OtherValue. split; [reflexivity|].
    eexists. split; [reflexivity|]. now right.
Qed.

Lemma rainFailingEnv_fetch :
  exists w',
    fetchWeatherData rainFailingEnv false None DEFAULT_CONFIG staleWorld
    = (Rejected (ErrorObject "Could not retrieve weather data: quota"), w').
Proof.
  rewrite fetchWeatherData_miss by (right; split; reflexivity).
  erewrite rethrow_error; [eexists; reflexivity|].
  now apply (acquire_rain_failed _ _ _ _ (errorResponse 1 "quota")).
Qed.
End AcquisitionOutcomes.

Section WetDay.
Import WeatherService.

Lemma floorAboveCap_twoStations :
  filterNearbyStations twoStations (Some 1.3%R) (Some 103.8%R) floorAboveCap
  ≡ₚ twoStations.
Proof.
  apply submseteq_length_Permutation; [apply filterNearbyStations_sub|].
  rewrite filterNearbyStations_located by lra.
  pose proof (length_withinRadius twoStations 1.3 103.8 floorAboveCap ltac:(simpl; lia)) as Hle.
  simpl maxStations in *.
  rewrite (bool_decide_eq_true_2 (_ < _)%Z) by (simpl minStations; lia).
  rewrite (bool_decide_eq_true_2 (_ >= _)%Z) by (simpl; lia).
  simpl andb. cbv iota. apply Nat2Z.inj_le.
  unfold closestMin. rewrite length_fmap, length_slice0, length_sort.
  simpl. lia.
Qed.

(** A cycle in which the three feeds answer well. *)
Lemma acquire_wet_fulfilled env loc config w
    rain rainData speed speedData direction dirData :
  feed env Rainfall = Fulfilled rain -> successData rain = Some rainData ->
  someAtLeast 1 (readingMap (head (readings rainData))) = true ->
  feed env WindSpeed = Fulfilled speed -> successData speed = Some speedData ->
  feed env WindDirection = Fulfilled direction ->
  successData direction = Some dirData ->
  (forall ep, stationsFault env ep = None) ->
  exists snapshot w',
    acquire env (Some loc) config w = (Fulfilled snapshot, w') /\
    stations snapshot =
      filterNearbyStations (mergeStations [rainData; speedData; dirData])
        (Some (latitude loc)) (Some (longitude loc)) config /\
    rainfallMap snapshot =
      onlyNearby (list_to_set (id <$> stations snapshot))
        (readingMap (head (readings rainData))) /\
    windVectors snapshot =
      onlyNearby (list_to_set (id <$> stations snapshot))
        (buildWindVectors (readingMap (head (readings speedData)))
           (readingMap (head (readings dirData)))) /\
    (setItemThrows env WIND_VECTORS_KEY = false ->
     windVectorsCache (storage w') =
       Some (Item (getNext5MinMark (timezoneOffsetMinutes env) (nowAtVectors env))
               (buildWindVectors (readingMap (head (readings speedData)))
                  (readingMap (head (readings dirData)))))).
Proof.
  intros Hrain Hok Hwet Hspeed Hsok Hdir Hdok Hstations.
  unfold acquire, bind, fetch. rewrite Hrain, Hok, Hwet.
  unfold fetchWindStage, bind, fetchBoth. rewrite Hspeed, Hdir.
  cbn [fst snd]. rewrite Hsok, Hdok.
  unfold tryWrite, modifyStorage, ret, mergeFault, mergedEndpoints.
  cbn [windSpeedResponse windDirResponse stage_windSpeedMap stage_windDirectionMap
       stage_windVectors app omap list_omap option_list storage calls].
  rewrite !Hstations. cbn [head].
  eexists _, _. split; [reflexivity|].
  cbn [stations rainfallMap windVectors storage].
  split; [reflexivity|]. split; [reflexivity|]. split; [reflexivity|].
  intros ->. now destruct (setItemThrows env CACHE_KEY).
Qed.

Lemma wetEnv_fetch :
  exists snapshot w',
    fetchWeatherData wetEnv true (Some singapore) floorAboveCap freshWorld
      = (Fulfilled snapshot, w') /\
    stations snapshot ≡ₚ twoStations /\
    rainfallMap snapshot !! "S1" = Some 5%R /\
    windVectors snapshot !! "S1" = Some (convertToWindVector 10 90).
Proof.
  rewrite fetchWeatherData_miss by (now left).
  destruct (acquire_wet_fulfilled wetEnv singapore floorAboveCap
              (afterCheck wetEnv true freshWorld)
              (answer twoRawStations "mm" wetBatch) _
              (answer twoRawStations "knots"
                 [ {| stationId := "S1"; value := 10 |};
                   {| stationId := "S2"; value := 4 |} ]) _
              (answer twoRawStations "degrees"
                 [ {| stationId := "S1"; value := 90 |};
                   {| stationId := "S2"; value := 270 |} ]) _
              eq_refl eq_refl ltac:(apply someAtLeast_reports, wetBatch_reports)
              eq_refl eq_refl eq_refl eq_refl ltac:(reflexivity))
    as (snapshot & w' & Hacq & Hstations & Hrain & Hvectors & _).
  exists snapshot, w'. unfold rethrow. rewrite Hacq. split; [reflexivity|].
  assert (Hperm : stations snapshot ≡ₚ twoStations).
  { rewrite Hstations. apply floorAboveCap_twoStations. }
  assert (Hin : "S1" ∈ (list_to_set (id <$> stations snapshot) : gset string)).
  { apply elem_of_list_to_set. rewrite Hperm. left. }
  split; [exact Hperm|]. split.
  - rewrite Hrain. apply map_lookup_filter_Some. split; [|exact Hin].
    rewrite readingMap_latestBatch. reflexivity.
  - rewrite Hvectors. apply map_lookup_filter_Some. split; [|exact Hin].
    apply buildWindVectors_lookup. split; [discriminate|].
    exists 10%R, 90%R. rewrite !readingMap_latestBatch.
    repeat split; try reflexivity. lra.
Qed.
End WetDay.

Section BrokenBody.
Import WeatherService.

(** A cycle whose merge stops at an answer whose stations are at fault. *)
Lemma acquire_wet_broken env userLocation config w
    rain rainData speed speedData direction dirData message :
  feed env Rainfall = Fulfilled rain -> successData rain = Some rainData ->
  someAtLeast 1 (readingMap (head (readings rainData))) = true ->
  feed env WindSpeed = Fulfilled speed -> successData speed = Some speedData ->
  feed env WindDirection = Fulfilled direction ->
  successData direction = Some dirData ->
  head (omap (stationsFault env) [Rainfall; WindSpeed; WindDirection]) = Some message ->
  setItemThrows env WIND_VECTORS_KEY = false ->
  exists w',
    acquire env userLocation config w
      = (Rejected (ErrorObject message), w') /\
    weatherDataCache (storage w') = weatherDataCache (storage w) /\
    windVectorsCache (storage w') =
      Some (Item (getNext5MinMark (timezoneOffsetMinutes env) (nowAtVectors env))
              (buildWindVectors (readingMap (head (readings speedData)))
                 (readingMap (head (readings dirData))))).
Proof.
  intros Hrain Hok Hwet Hspeed Hsok Hdir Hdok Hlacks Hwrites.
  unfold acquire, bind, fetch. rewrite Hrain, Hok, Hwet.
  unfold fetchWindStage, bind, fetchBoth. rewrite Hspeed, Hdir.
  cbn [fst snd]. rewrite Hsok, Hdok.
  unfold tryWrite, modifyStorage, ret, throw, mergeFault, mergedEndpoints.
  cbn [windSpeedResponse windDirResponse app]. rewrite Hlacks, Hwrites.
  eexists. split; [reflexivity|]. cbn. auto.
Qed.

Lemma brokenBodyEnv_fetch :
  exists w',
    fetchWeatherData brokenBodyEnv true (Some singapore) floorAboveCap freshWorld
      = (Rejected (ErrorObject
           "Could not retrieve weather data: Cannot read properties of undefined (reading 'forEach')"),
         w') /\
    weatherDataCache (storage w') = None /\
    is_Some (windVectorsCache (storage w')).
Proof.
  rewrite fetchWeatherData_miss by (now left).
  destruct (acquire_wet_broken brokenBodyEnv (Some singapore) floorAboveCap
              (afterCheck brokenBodyEnv true freshWorld)
              (answer twoRawStations "mm" wetBatch) _
              (answer twoRawStations "knots"
                 [ {| stationId := "S1"; value := 10 |};
                   {| stationId := "S2"; value := 4 |} ]) _
              (answer twoRawStations "degrees"
                 [ {| stationId := "S1"; value := 90 |};
                   {| stationId := "S2"; value := 270 |} ]) _
              "Cannot read properties of undefined (reading 'forEach')"
              eq_refl eq_refl ltac:(apply someAtLeast_reports, wetBatch_reports)
              eq_refl eq_refl eq_refl eq_refl eq_refl eq_refl)
    as (w' & Hacq & Hweather & Hwind).
  exists w'. erewrite rethrow_error by exact Hacq.
  split; [reflexivity|]. split; [exact Hweather | rewrite Hwind; eauto].
Qed.
End BrokenBody.

(** X16: with an unexpired entry in the weather slot and no forced refresh,
    [fetchWeatherData] returns the cached snapshot, issues no request and
    leaves the storage as it is. *)
Theorem fetchWeatherData_cache_hit :
  forall (env : Env) (userLocation : option UserLocation) (config : WeatherConfig)
         (w : World) (expiry : Z) (data : WeatherData),
    weatherDataCache (storage w) = Some (Item expiry data) ->
    (nowAtCheck env <= expiry)%Z ->
    WeatherService.fetchWeatherData env false userLocation config w = (Fulfilled data, w).
Proof.
  intros env userLocation config w expiry data Hslot Hfresh.
  exact (fetchWeatherData_hit env userLocation config w expiry data Hslot Hfresh).
Qed.

Lemma fetchWeatherData_cache_hit_witness :
  WeatherService.fetchWeatherData failingEnv false (Some singapore)
    WeatherService.DEFAULT_CONFIG cachedWorld = (Fulfilled drySnapshot, cachedWorld).
Proof.
  apply (fetchWeatherData_cache_hit failingEnv (Some singapore)
           WeatherService.DEFAULT_CONFIG cachedWorld 2000 drySnapshot).
  - reflexivity.
  - vm_compute. discriminate.
Defined.

(** X17: whenever [fetchWeatherData] returns a snapshot and [localStorage]
    accepts writes, the weather slot holds that snapshot afterwards: a cycle
    that fetched has stored it under the next five-minute mark, a cycle
    served from the cache has left the entry it was served from.  Until that
    entry expires, every further call without forced refresh returns the
    same snapshot without any request, whatever location and configuration
    it is given. *)
Theorem fetchWeatherData_then_cached :
  forall (env : Env) (forceRefresh : bool) (userLocation : option UserLocation)
         (config : WeatherConfig) (w : World) (snapshot : WeatherData) (w' : World),
    setItemThrows env CACHE_KEY = false ->
    WeatherService.fetchWeatherData env forceRefresh userLocation config w
      = (Fulfilled snapshot, w') ->
    exists entry,
      weatherDataCache (storage w') = Some entry /\
      holds entry snapshot /\
      (cacheMiss env forceRefresh w ->
       entry = Item (WeatherService.getNext5MinMark (timezoneOffsetMinutes env)
                       (nowAtStore env)) snapshot) /\
      forall (env' : Env) (userLocation' : option UserLocation)
             (config' : WeatherConfig),
        unexpired entry (nowAtCheck env') ->
        WeatherService.fetchWeatherData env' false userLocation' config' w'
          = (Fulfilled snapshot, w').
Proof.
  intros env forceRefresh userLocation config w snapshot w' Hwrites Hfetch.
  destruct (fetchWeatherData_cases env forceRefresh userLocation config w)
    as [(data & Hforce & Hslot & Hhit)|[[Hmiss Heq]|(message & _ & _ & Hthrows)]].
  - rewrite Hhit in Hfetch. injection Hfetch as <- <-.
    assert (Hserved : ~ cacheMiss env forceRefresh w).
    { intros [Htrue|[_ Hnone]]; [congruence|].
      unfold WeatherService.getCachedData in Hnone.
      destruct Hslot as [(expiry & Hslot & Hfresh)|Hslot]; rewrite Hslot in Hnone.
      - destruct (decide _); [lia | discriminate].
      - discriminate. }
    destruct Hslot as [(expiry & Hslot & Hfresh)|Hslot].
    + exists (Item expiry data). split; [exact Hslot|].
      split; [left; now exists expiry|]. split; [intros; contradiction|].
      intros env' userLocation' config' Hunexpired.
      exact (fetchWeatherData_hit env' userLocation' config' w expiry data
               Hslot Hunexpired).
    + exists (NoExpiry (Some data)). split; [exact Hslot|].
      split; [now right|]. split; [intros; contradiction|].
      intros env' userLocation' config' _.
      exact (fetchWeatherData_hit_forever env' userLocation' config' w data Hslot).
  - rewrite Heq in Hfetch. apply rethrow_fulfilled in Hfetch.
    apply acquire_fulfilled in Hfetch as (Hslot & _).
    specialize (Hslot Hwrites).
    eexists. split; [exact Hslot|]. split; [left; eauto|].
    split; [reflexivity|].
    intros env' userLocation' config' Hunexpired.
    exact (fetchWeatherData_hit env' userLocation' config' w' _ snapshot
             Hslot Hunexpired).
  - rewrite Hthrows in Hfetch. discriminate.
Qed.

Lemma fetchWeatherData_then_cached_witness :
  exists snapshot w',
    WeatherService.fetchWeatherData wetEnv true (Some singapore) floorAboveCap
      freshWorld = (Fulfilled snapshot, w') /\
    stations snapshot ≡ₚ twoStations /\
    weatherDataCache (storage w') =
      Some (Item (WeatherService.getNext5MinMark 480 1002) snapshot).
Proof.
  destruct wetEnv_fetch as (snapshot & w' & Hfetch & Hstations & _).
  exists snapshot, w'. split; [exact Hfetch|]. split; [exact Hstations|].
  destruct (fetchWeatherData_then_cached wetEnv true (Some singapore) floorAboveCap
              freshWorld snapshot w' eq_refl Hfetch)
    as (entry & Hslot & _ & Hentry & _).
  rewrite Hslot, Hentry; [reflexivity | now left].
Defined.

(** X18: whenever [fetchWeatherData] fails, either the cache check itself
    threw, because the weather slot cannot be accessed, and that error
    surfaces as it is with nothing changed; or the failure is a single
    [Error] whose message is ["Could not retrieve weather data: "] followed
    by a cause, or the fixed text for an unknown error, and the weather slot
    is as the cache check left it.  In the second case the wind-vector slot
    is as the cache check left it too, unless the merge of the stations
    stopped at an answer whose [stations] are at fault (the array is missing,
    or holds an entry that is not an object): then the error carries the
    message of that [TypeError] and the wind vectors of this cycle have
    been saved.  When the stations of every answer are well formed, the
    whole storage is as the cache check left it. *)
Theorem fetchWeatherData_failure_leaves_storage :
  forall (env : Env) (forceRefresh : bool) (userLocation : option UserLocation)
         (config : WeatherConfig) (w : World) (e : Thrown) (w' : World),
    WeatherService.fetchWeatherData env forceRefresh userLocation config w
      = (Rejected e, w') ->
    (exists message,
       forceRefresh = false /\
       weatherDataCache (storage w) = Some (Denied message) /\
       e = ErrorObject message /\ w' = w) \/
    (cacheMiss env forceRefresh w /\
     (exists message, e = ErrorObject message /\ fetchFailureMessage message) /\
     weatherDataCache (storage w')
       = weatherDataCache (storage (afterCheck env forceRefresh w)) /\
     (storage w' = storage (afterCheck env forceRefresh w) \/
      ((exists ep message,
          stationsFault env ep = Some message /\
          e = ErrorObject ("Could not retrieve weather data: " +:+ message)) /\
       exists vectors,
         storage w' =
           WeatherService.saveWindVectors (timezoneOffsetMinutes env) (nowAtVectors env)
             vectors (storage (afterCheck env forceRefresh w)))) /\
     ((forall ep, stationsFault env ep = None) ->
      storage w' = storage (afterCheck env forceRefresh w))).
Proof.
  intros env forceRefresh userLocation config w e w' Hfetch.
  destruct (fetchWeatherData_cases env forceRefresh userLocation config w)
    as [(data & _ & _ & Hhit)|[[Hmiss Heq]|(message & Hforce & Hslot & Hthrows)]].
  - rewrite Hhit in Hfetch. discriminate.
  - right. rewrite Heq in Hfetch.
    pose proof Hfetch as Hrethrow.
    apply rethrow_rejected in Hfetch as (e0 & Hacq & Hmsg).
    pose proof (acquire_rejected _ _ _ _ _ _ Hacq) as (Hweather & Hstorage).
    split; [exact Hmiss|]. split; [exact Hmsg|]. split; [exact Hweather|].
    split.
    + destruct Hstorage as [Hsame|(_ & (ep & message & Hep & ->) & vectors & Hsaved)];
        [now left|].
      right. split; [|eauto]. exists ep, message. split; [exact Hep|].
      erewrite rethrow_error in Hrethrow by exact Hacq. now injection Hrethrow as <-.
    + intros Hall.
      destruct Hstorage as [Hsame|(_ & (ep & message & Hep & _) & _)]; [exact Hsame|].
      rewrite Hall in Hep. discriminate.
  - left. exists message. rewrite Hthrows in Hfetch. injection Hfetch as <- <-. auto.
Qed.

Lemma fetchWeatherData_failure_leaves_storage_witness :
  (exists w',
     WeatherService.fetchWeatherData brokenBodyEnv true (Some singapore) floorAboveCap
       freshWorld
       = (Rejected (ErrorObject
            "Could not retrieve weather data: Cannot read properties of undefined (reading 'forEach')"),
          w') /\
     weatherDataCache (storage w') = None /\
     is_Some (windVectorsCache (storage w'))) /\
  (exists w',
     WeatherService.fetchWeatherData rainFailingEnv false None
       WeatherService.DEFAULT_CONFIG staleWorld
       = (Rejected (ErrorObject "Could not retrieve weather data: quota"), w') /\
     storage w' = storage (afterCheck rainFailingEnv false staleWorld)) /\
  (exists message,
     weatherDataCache (storage deniedWorld) = Some (Denied message) /\
     fst (WeatherService.fetchWeatherData wetEnv false None
            WeatherService.DEFAULT_CONFIG deniedWorld)
       = Rejected (ErrorObject message)).
Proof.
  split; [|split].
  3:{ destruct (fetchWeatherData_failure_leaves_storage wetEnv false None
                  WeatherService.DEFAULT_CONFIG deniedWorld
                  (ErrorObject "The operation is insecure.") deniedWorld eq_refl)
        as [(message & _ & Hslot & Herror & _)|(Hmiss & _)].
      - exists message. split; [exact Hslot|]. rewrite <- Herror. reflexivity.
      - destruct Hmiss as [Hforce|[Hthrows _]]; discriminate. }
  - destruct brokenBodyEnv_fetch as (w' & Hfetch & _ & Hwind).
    exists w'. split; [exact Hfetch|]. split; [|exact Hwind].
    destruct (fetchWeatherData_failure_leaves_storage _ _ _ _ _ _ _ Hfetch)
      as [(message & Hforce & _)|(_ & _ & Hweather & _)]; [discriminate|].
    exact Hweather.
  - destruct rainFailingEnv_fetch as (w' & Hfetch).
    exists w'. split; [exact Hfetch|].
    destruct (fetchWeatherData_failure_leaves_storage _ _ _ _ _ _ _ Hfetch)
      as [(message & _ & Hslot & _)|(_ & _ & _ & _ & Hstorage)]; [discriminate|].
    now apply Hstorage.
Defined.

(** X19: a snapshot that a cycle builds (one not served from the cache) lists
    every station id at most once; when a reference location was given, its
    rainfall, wind-speed, wind-direction and wind-vector maps have entries
    only for listed stations; and every wind vector in it has a positive
    magnitude. *)
Theorem fetchWeatherData_snapshot_wellformed :
  forall (env : Env) (forceRefresh : bool) (userLocation : option UserLocation)
         (config : WeatherConfig) (w : World) (snapshot : WeatherData) (w' : World),
    cacheMiss env forceRefresh w ->
    WeatherService.fetchWeatherData env forceRefresh userLocation config w
      = (Fulfilled snapshot, w') ->
    NoDup (id <$> stations snapshot) /\
    (is_Some userLocation ->
     keyedBy (stations snapshot) (rainfallMap snapshot) /\
     keyedBy (stations snapshot) (windSpeedMap snapshot) /\
     keyedBy (stations snapshot) (windDirectionMap snapshot) /\
     keyedBy (stations snapshot) (windVectors snapshot)) /\
    (forall k v, windVectors snapshot !! k = Some v -> (0 < magnitude v)%R).
Proof.
  intros env forceRefresh userLocation config w snapshot w' Hmiss Hfetch.
  rewrite fetchWeatherData_miss in Hfetch by exact Hmiss.
  apply rethrow_fulfilled, acquire_fulfilled in Hfetch
    as (_ & _ & _ & (responses & Hstations) & Hkeyed & Hmag).
  split; [|split; assumption].
  rewrite Hstations. destruct userLocation as [loc|].
  - eapply submseteq_NoDup_fmap; [apply filterNearbyStations_sub|].
    apply mergeStations_NoDup.
  - apply mergeStations_NoDup.
Qed.

Lemma fetchWeatherData_snapshot_wellformed_witness :
  exists snapshot w',
    WeatherService.fetchWeatherData wetEnv true (Some singapore) floorAboveCap
      freshWorld = (Fulfilled snapshot, w') /\
    stations snapshot ≡ₚ twoStations /\
    rainfallMap snapshot !! "S1" = Some 5%R /\
    windVectors snapshot !! "S1" = Some (WeatherService.convertToWindVector 10 90) /\
    NoDup (id <$> stations snapshot) /\
    keyedBy (stations snapshot) (windVectors snapshot) /\
    (0 < magnitude (WeatherService.convertToWindVector 10 90))%R.
Proof.
  destruct wetEnv_fetch as (snapshot & w' & Hfetch & Hstations & Hrain & Hvector).
  exists snapshot, w'. split; [exact Hfetch|]. split; [exact Hstations|].
  split; [exact Hrain|]. split; [exact Hvector|].
  destruct (fetchWeatherData_snapshot_wellformed wetEnv true (Some singapore)
              floorAboveCap freshWorld snapshot w' ltac:(now left) Hfetch)
    as (Hnodup & Hkeyed & Hmagnitude).
  split; [exact Hnodup|]. split.
  - now destruct (Hkeyed ltac:(eauto)) as (_ & _ & _ & Hvectors).
  - exact (Hmagnitude "S1" _ Hvector).
Defined.

Section WriteFailures.
Import WeatherService.

(** The storage never decides what the [try] block returns or requests. *)
Lemma acquire_withSetItem env throws userLocation config w w0 :
  calls w0 = calls w ->
  fst (acquire (withSetItem env throws) userLocation config w0)
    = fst (acquire env userLocation config w) /\
  calls (snd (acquire (withSetItem env throws) userLocation config w0))
    = calls (snd (acquire env userLocation config w)).
Proof.
  intros Hcalls. unfold acquire, bind, fetch.
  cbn [feed withSetItem]. rewrite Hcalls.
  destruct (feed env Rainfall) as [rain|e]; [|split; reflexivity].
  destruct (successData rain) as [rainData|]; [|split; reflexivity].
  destruct (someAtLeast 1 _).
  - unfold fetchWindStage, bind, fetchBoth. cbn [feed withSetItem calls].
    destruct (feed env WindSpeed) as [speed|e1],
             (feed env WindDirection) as [direction|e2];
      cbn [fst snd]; try (split; reflexivity).
    destruct (successData speed) as [speedData|]; [|split; reflexivity].
    destruct (successData direction) as [dirData|]; [|split; reflexivity].
    unfold tryWrite, modifyStorage, ret, throw, mergeFault, mergedEndpoints.
    cbn [windSpeedResponse windDirResponse stationsFault withSetItem calls].
    destruct (head _); split; reflexivity.
  - unfold tryWrite, modifyStorage, ret, throw, mergeFault, mergedEndpoints.
    cbn [skippedWindStage windSpeedResponse windDirResponse stationsFault
         withSetItem calls].
    destruct (head _); split; reflexivity.
Qed.

Lemma rethrow_fst {A} (m m' : M A) w w' :
  fst (m' w') = fst (m w) -> fst (rethrow m' w') = fst (rethrow m w).
Proof.
  unfold rethrow. destruct (m' w') as [[a'|[msg'|]] w1'], (m w) as [[a|[msg|]] w1];
    cbn; intros Heq; try discriminate; inversion Heq; reflexivity.
Qed.

Lemma fullStorageEnv_fetch :
  exists snapshot w',
    fetchWeatherData fullStorageEnv true (Some singapore) floorAboveCap freshWorld
      = (Fulfilled snapshot, w').
Proof.
  rewrite fetchWeatherData_miss by (now left).
  destruct (acquire_wet_fulfilled fullStorageEnv singapore floorAboveCap
              (afterCheck fullStorageEnv true freshWorld)
              (answer twoRawStations "mm" wetBatch) _
              (answer twoRawStations "knots"
                 [ {| stationId := "S1"; value := 10 |};
                   {| stationId := "S2"; value := 4 |} ]) _
              (answer twoRawStations "degrees"
                 [ {| stationId := "S1"; value := 90 |};
                   {| stationId := "S2"; value := 270 |} ]) _
              eq_refl eq_refl ltac:(apply someAtLeast_reports, wetBatch_reports)
              eq_refl eq_refl eq_refl eq_refl ltac:(reflexivity))
    as (snapshot & w' & Hacq & _).
  exists snapshot, w'. unfold rethrow. now rewrite Hacq.
Qed.
End WriteFailures.

(** X29: a [localStorage] that refuses writes never changes what the caller
    gets: whatever [setItem] does, [fetchWeatherData] settles in the same
    way, with the same snapshot or the same error, after the same requests.
    When every write is refused, a cycle that fetched has cached nothing:
    the storage is as the cache check left it. *)
Theorem fetchWeatherData_ignores_write_failures :
  forall (env : Env) (throws : StorageKey -> bool) (forceRefresh : bool)
         (userLocation : option UserLocation) (config : WeatherConfig) (w : World),
    let outcome :=
      WeatherService.fetchWeatherData env forceRefresh userLocation config w in
    let outcome' :=
      WeatherService.fetchWeatherData (withSetItem env throws) forceRefresh
        userLocation config w in
    fst outcome' = fst outcome /\
    calls (snd outcome') = calls (snd outcome) /\
    ((forall key, throws key = true) ->
     cacheMiss env forceRefresh w ->
     forall snapshot, fst outcome' = Fulfilled snapshot ->
       storage (snd outcome') = storage (afterCheck env forceRefresh w)).
Proof.
  intros env throws forceRefresh userLocation config w outcome outcome'.
  subst outcome outcome'.
  assert (Hcheck : WeatherService.checkCache (withSetItem env throws) forceRefresh w
                   = WeatherService.checkCache env forceRefresh w) by reflexivity.
  assert (Hsame :
    fst (WeatherService.fetchWeatherData (withSetItem env throws) forceRefresh
           userLocation config w)
      = fst (WeatherService.fetchWeatherData env forceRefresh userLocation config w) /\
    calls (snd (WeatherService.fetchWeatherData (withSetItem env throws) forceRefresh
                  userLocation config w))
      = calls (snd (WeatherService.fetchWeatherData env forceRefresh userLocation
                      config w))).
  { unfold WeatherService.fetchWeatherData, bind. rewrite Hcheck.
    destruct (WeatherService.checkCache env forceRefresh w) as [[[cached|]|e] w0];
      [split; reflexivity| |split; reflexivity].
    destruct (acquire_withSetItem env throws userLocation config w0 w0 eq_refl)
      as (Hfst & Hcalls).
    split; [now apply rethrow_fst | now rewrite !rethrow_world]. }
  split; [apply Hsame|]. split; [apply Hsame|].
  intros Hall Hmiss snapshot Hfetch.
  assert (Hmiss' : cacheMiss (withSetItem env throws) forceRefresh w) by exact Hmiss.
  rewrite (fetchWeatherData_miss _ _ _ _ _ Hmiss') in Hfetch |- *.
  change (afterCheck (withSetItem env throws) forceRefresh w)
    with (afterCheck env forceRefresh w) in *.
  destruct (WeatherService.rethrow _ _) as [result w'] eqn:Hrethrow.
  cbn [fst snd] in *. subst result.
  apply rethrow_fulfilled, acquire_fulfilled in Hrethrow as (_ & _ & Hstorage & _).
  apply Hstorage. exact Hall.
Qed.

Lemma fetchWeatherData_ignores_write_failures_witness :
  storage (snd (WeatherService.fetchWeatherData fullStorageEnv true (Some singapore)
                  floorAboveCap freshWorld)) = emptyStorage.
Proof.
  destruct fullStorageEnv_fetch as (snapshot & w' & Hfetch).
  destruct (fetchWeatherData_ignores_write_failures wetEnv (fun _ => true) true
              (Some singapore) floorAboveCap freshWorld) as (_ & _ & Hnothing).
  apply (Hnothing (fun _ => eq_refl) ltac:(now left) snapshot).
  change (withSetItem wetEnv (fun _ => true)) with fullStorageEnv.
  now rewrite Hfetch.
Defined.

(** ** The storage slots *)

Section StorageSlots.
Import WeatherService.
Local Open Scope Z_scope.

Lemma getNext5MinMark_mono tz now1 now2 :
  now1 <= now2 -> getNext5MinMark tz now1 <= getNext5MinMark tz now2.
Proof.
  intros Hle. apply getNext5MinMark_least; [apply getNext5MinMark_boundary|].
  pose proof (getNext5MinMark_after tz now2). lia.
Qed.

Lemma getNext5MinMark_window tz now t :
  now <= t < getNext5MinMark tz now -> getNext5MinMark tz t = getNext5MinMark tz now.
Proof.
  intros [Hlo Hhi]. apply Z.le_antisymm.
  - apply getNext5MinMark_least; [apply getNext5MinMark_boundary | exact Hhi].
  - now apply getNext5MinMark_mono.
Qed.

Lemma getNext5MinMark_ttl tz now : 0 < getNext5MinMark tz now - now <= 300000.
Proof.
  rewrite getNext5MinMark_closed.
  pose proof (Z.mod_pos_bound (now / 60000 + tz) 5 ltac:(lia)).
  pose proof (Z.div_mod now 60000 ltac:(lia)).
  pose proof (Z.mod_pos_bound now 60000 ltac:(lia)).
  lia.
Qed.
End StorageSlots.

(** X20: a cache entry lives for at most five minutes; a later put never
    expires earlier; and all puts made between a put and its expiry get the
    same expiry. *)
Theorem getNext5MinMark_aligned :
  forall (tz now : Z),
    (0 < WeatherService.getNext5MinMark tz now - now <= 5 * 60 * 1000)%Z /\
    (forall later, (now <= later)%Z ->
       (WeatherService.getNext5MinMark tz now <= WeatherService.getNext5MinMark tz later)%Z) /\
    (forall t, (now <= t < WeatherService.getNext5MinMark tz now)%Z ->
       WeatherService.getNext5MinMark tz t = WeatherService.getNext5MinMark tz now).
Proof.
  intros tz now. split; [apply getNext5MinMark_ttl|].
  split; [intros later; apply getNext5MinMark_mono | intros t; apply getNext5MinMark_window].
Qed.

Lemma getNext5MinMark_aligned_witness :
  WeatherService.getNext5MinMark 480 (wallClock 480 10 4 59 0)
  = WeatherService.getNext5MinMark 480 (wallClock 480 10 2 30 0).
Proof.
  apply (getNext5MinMark_aligned 480 (wallClock 480 10 2 30 0)).
  vm_compute. split; [discriminate | reflexivity].
Defined.



(** X22: the wind vectors that are saved can be read back until their expiry
    and are gone after it; saving and reading them never touches the weather
    slot, and writing and reading the weather slot never touches them. *)
Theorem windVectors_round_trip :
  forall (tz now t : Z) (vectors : gmap string WindVector)
         (data : WeatherData) (st : LocalStorage),
    let expiry := WeatherService.getNext5MinMark tz now in
    let saved := WeatherService.saveWindVectors tz now vectors st in
    ((t <= expiry)%Z ->
     WeatherService.getWindVectorsFromStorage t saved = (Some vectors, saved)) /\
    ((expiry < t)%Z ->
     fst (WeatherService.getWindVectorsFromStorage t saved) = None /\
     windVectorsCache (snd (WeatherService.getWindVectorsFromStorage t saved)) = None) /\
    weatherDataCache (snd (WeatherService.getWindVectorsFromStorage t saved))
      = weatherDataCache st /\
    windVectorsCache
      (snd (WeatherService.getCachedData t (WeatherService.setCachedData tz now data saved)))
      = Some (Item expiry vectors).
Proof.
  intros tz now t vectors data st expiry saved. subst expiry saved.
  unfold WeatherService.getWindVectorsFromStorage, WeatherService.getCachedData. cbn.
  split; [intros Ht; destruct (decide _); [lia | reflexivity]|].
  split; [intros Ht; destruct (decide _); [split; reflexivity | lia]|].
  split; destruct (decide _); reflexivity.
Qed.

Lemma windVectors_round_trip_witness :
  WeatherService.getWindVectorsFromStorage (wallClock 480 10 4 59 0)
    (WeatherService.saveWindVectors 480 (wallClock 480 10 2 30 0)
       {[ "S1" := southward 40 ]} emptyStorage)
  = (Some {[ "S1" := southward 40 ]},
     WeatherService.saveWindVectors 480 (wallClock 480 10 2 30 0)
       {[ "S1" := southward 40 ]} emptyStorage).
Proof.
  apply (windVectors_round_trip 480 (wallClock 480 10 2 30 0) (wallClock 480 10 4 59 0)
           {[ "S1" := southward 40 ]} drySnapshot emptyStorage).
  vm_compute. discriminate.
Defined.

(** ** The worker pool *)

Section WorkerPool.
Import ThreadedDistanceCalculator.

Lemma detectCpuCores_pos hardwareConcurrency : (1 <= detectCpuCores hardwareConcurrency)%nat.
Proof. destruct hardwareConcurrency as [[|n]|]; simpl; lia. Qed.

Lemma ready_guard pool :
  ready pool -> negb (isInitialized pool) || bool_decide (workers pool = 0%nat) = false.
Proof.
  intros [Hinit Hworkers]. rewrite Hinit. cbn.
  apply bool_decide_eq_false. lia.
Qed.

Lemma sendToWorker_ready answers lat lon data pool :
  ready pool ->
  ready (snd (sendToWorker answers lat lon data pool)) /\
  workers (snd (sendToWorker answers lat lon data pool)) = workers pool /\
  messageId (snd (sendToWorker answers lat lon data pool)) = S (messageId pool).
Proof.
  intros Hready. unfold sendToWorker. rewrite (ready_guard _ Hready). cbn.
  destruct Hready. repeat split; assumption.
Qed.

Lemma sendChunks_pool answers lat lon chunks pool :
  ready pool ->
  ready (snd (sendChunks answers lat lon chunks pool)) /\
  workers (snd (sendChunks answers lat lon chunks pool)) = workers pool /\
  messageId (snd (sendChunks answers lat lon chunks pool))
    = (messageId pool + length chunks)%nat.
Proof.
  revert pool. induction chunks as [|chunk chunks IH]; intros pool Hready.
  - cbn. repeat split; try apply Hready. lia.
  - cbn [sendChunks].
    destruct (sendToWorker_ready answers lat lon chunk pool Hready) as (Hr1 & Hw1 & Hm1).
    destruct (sendToWorker answers lat lon chunk pool) as [r pool1].
    cbn [snd] in *.
    destruct (IH pool1 Hr1) as (Hr2 & Hw2 & Hm2).
    destruct (sendChunks answers lat lon chunks pool1) as [rs pool2].
    cbn [snd length] in *. repeat split; try apply Hr2; lia.
Qed.

(** All chunks but the last are full. *)
Lemma chunksFrom_count {A} (fuel chunkSize : nat) (l : list A) :
  (0 < chunkSize)%nat -> (length l <= fuel)%nat -> l <> [] ->
  ((length (chunksFrom fuel chunkSize l) - 1) * chunkSize < length l)%nat.
Proof.
  intros Hsize. revert l. induction fuel as [|fuel IH]; intros l Hlen Hne.
  - destruct l; [contradiction | simpl in Hlen; lia].
  - destruct l as [|x l]; [contradiction|]. cbn [chunksFrom length].
    destruct (drop chunkSize (x :: l)) as [|y rest] eqn:Hdrop.
    + destruct fuel; cbn; lia.
    + assert (Hdl : length (drop chunkSize (x :: l)) = (length (x :: l) - chunkSize)%nat)
        by apply length_drop.
      specialize (IH (drop chunkSize (x :: l))).
      rewrite Hdrop in IH, Hdl. cbn [length] in *.
      specialize (IH ltac:(lia) ltac:(discriminate)).
      nia.
Qed.

Lemma ceilDiv_covers (n m : nat) : (0 < m)%nat -> (n <= ceilDiv n m * m)%nat.
Proof.
  intros Hm. unfold ceilDiv.
  pose proof (Nat.div_mod (n + m - 1) m ltac:(lia)) as Hdm.
  pose proof (Nat.mod_upper_bound (n + m - 1) m ltac:(lia)).
  nia.
Qed.

Lemma chunk_count_bound {A} (l : list A) (m : nat) :
  (0 < m)%nat -> l <> [] ->
  (length (chunksOf (ceilDiv (length l) m) l) <= m)%nat.
Proof.
  intros Hm Hne. unfold chunksOf.
  assert (Hlen : (0 < length l)%nat) by (destruct l; [contradiction | simpl; lia]).
  pose proof (ceilDiv_pos (length l) m Hlen Hm) as Hsize.
  pose proof (chunksFrom_count (length l) _ l Hsize ltac:(lia) Hne) as Hcount.
  pose proof (ceilDiv_covers (length l) m Hm) as Hcover.
  nia.
Qed.

End WorkerPool.

(** X23: the life cycle of the pool.  Initialising a new pool, when every
    worker can be created, starts [min(cores, 8)] workers, between one and
    eight; initialising an initialised pool changes nothing; when the
    creation of a worker fails, the pool stays uninitialised and the
    distance computation is the synchronous one; terminating twice is the
    same as once; after [terminate] the distance computation is the
    synchronous one and sends no message. *)
Theorem pool_lifecycle :
  forall (hardwareConcurrency failsAt : option nat) (answers : nat -> bool)
         (pool : ThreadedDistanceCalculator.Pool)
         (stations : list Station) (userLat userLon : R),
    let cores := ThreadedDistanceCalculator.detectCpuCores hardwareConcurrency in
    let started :=
      ThreadedDistanceCalculator.initialize cores None
        ThreadedDistanceCalculator.newPool in
    ThreadedDistanceCalculator.isInitialized started = true /\
    ThreadedDistanceCalculator.workers started = Nat.min cores 8 /\
    (1 <= ThreadedDistanceCalculator.workers started <= 8)%nat /\
    ThreadedDistanceCalculator.initialize cores failsAt
      (ThreadedDistanceCalculator.initialize cores None pool)
      = ThreadedDistanceCalculator.initialize cores None pool /\
    (forall i, (i < Nat.min cores 8)%nat ->
       let failed :=
         ThreadedDistanceCalculator.initialize cores (Some i)
           ThreadedDistanceCalculator.newPool in
       ThreadedDistanceCalculator.isInitialized failed = false /\
       ThreadedDistanceCalculator.workers failed = i /\
       ThreadedDistanceCalculator.calculateDistancesParallel answers failed
         stations userLat userLon
       = (ThreadedDistanceCalculator.calculateDistancesSync stations userLat userLon,
          failed)) /\
    ThreadedDistanceCalculator.terminate (ThreadedDistanceCalculator.terminate pool)
      = ThreadedDistanceCalculator.terminate pool /\
    ThreadedDistanceCalculator.calculateDistancesParallel answers
      (ThreadedDistanceCalculator.terminate pool) stations userLat userLon
      = (ThreadedDistanceCalculator.calculateDistancesSync stations userLat userLon,
         ThreadedDistanceCalculator.terminate pool).
Proof.
  intros hardwareConcurrency failsAt answers pool stations userLat userLon cores started.
  subst started.
  pose proof (detectCpuCores_pos hardwareConcurrency) as Hcores. fold cores in Hcores.
  split; [reflexivity|]. split; [reflexivity|]. split; [cbn; lia|].
  split.
  { unfold ThreadedDistanceCalculator.initialize.
    destruct (ThreadedDistanceCalculator.isInitialized pool) eqn:Hinit.
    - now rewrite Hinit.
    - reflexivity. }
  split.
  { intros i Hi failed. subst failed.
    unfold ThreadedDistanceCalculator.initialize. cbn [ThreadedDistanceCalculator.newPool
      ThreadedDistanceCalculator.isInitialized].
    rewrite (bool_decide_eq_true_2 _ Hi).
    split; [reflexivity|]. split; [reflexivity|]. reflexivity. }
  assert (Hterm : ThreadedDistanceCalculator.isInitialized
                    (ThreadedDistanceCalculator.terminate pool) = false \/
                  ThreadedDistanceCalculator.workers
                    (ThreadedDistanceCalculator.terminate pool) = 0%nat).
  { unfold ThreadedDistanceCalculator.terminate.
    destruct (bool_decide _) eqn:Hw; [now left|].
    apply bool_decide_eq_false in Hw. right. lia. }
  split.
  - unfold ThreadedDistanceCalculator.terminate at 1.
    destruct (bool_decide (0 < ThreadedDistanceCalculator.workers
                                 (ThreadedDistanceCalculator.terminate pool))%nat) eqn:Hw;
      [|reflexivity].
    apply bool_decide_eq_true in Hw.
    unfold ThreadedDistanceCalculator.terminate in *.
    destruct (bool_decide (0 < ThreadedDistanceCalculator.workers pool)%nat) eqn:Hw0;
      [cbn in Hw; lia|].
    apply bool_decide_eq_false in Hw0. lia.
  - unfold ThreadedDistanceCalculator.calculateDistancesParallel.
    destruct Hterm as [-> | ->]; [reflexivity|].
    rewrite (bool_decide_eq_true_2 (0 = 0)%nat) by reflexivity.
    now rewrite orb_true_r.
Qed.

Lemma pool_lifecycle_witness :
  ThreadedDistanceCalculator.workers
    (ThreadedDistanceCalculator.initialize 4 None ThreadedDistanceCalculator.newPool)
  = 4%nat /\
  ThreadedDistanceCalculator.calculateDistancesParallel alwaysAnswers
    (ThreadedDistanceCalculator.initialize 4 (Some 2%nat)
       ThreadedDistanceCalculator.newPool) twoStations 1.3 103.8
  = (ThreadedDistanceCalculator.calculateDistancesSync twoStations 1.3 103.8,
     ThreadedDistanceCalculator.initialize 4 (Some 2%nat)
       ThreadedDistanceCalculator.newPool).
Proof.
  destruct (pool_lifecycle (Some 4%nat) None alwaysAnswers fourWorkers
              twoStations 1.3 103.8) as (_ & Hworkers & _ & _ & Hfailed & _).
  split; [exact Hworkers|].
  apply (Hfailed 2%nat). cbn. lia.
Defined.

Section ParallelBudget.
Import ThreadedDistanceCalculator.

(** X24: the distance computation never changes the number of workers or the
    initialised flag, and never sends more messages than
    [min(workers, number of located stations)]: one message when at most 20
    stations have a location, at most one per worker otherwise. *)
Theorem parallel_message_budget :
  forall (answers : nat -> bool) (pool : ThreadedDistanceCalculator.Pool)
         (stations : list Station) (userLat userLon : R),
    let n := length (ThreadedDistanceCalculator.toStationData stations) in
    let pool' :=
      snd (ThreadedDistanceCalculator.calculateDistancesParallel answers pool
             stations userLat userLon) in
    ThreadedDistanceCalculator.isInitialized pool'
      = ThreadedDistanceCalculator.isInitialized pool /\
    ThreadedDistanceCalculator.workers pool' = ThreadedDistanceCalculator.workers pool /\
    (ThreadedDistanceCalculator.messageId pool
     <= ThreadedDistanceCalculator.messageId pool')%nat /\
    (n <= 20 ->
     ThreadedDistanceCalculator.messageId pool'
     <= ThreadedDistanceCalculator.messageId pool + 1)%nat /\
    (ThreadedDistanceCalculator.messageId pool'
     <= ThreadedDistanceCalculator.messageId pool
        + Nat.min (ThreadedDistanceCalculator.workers pool) (Nat.max n 1))%nat.
Proof.
  intros answers pool stations lat lon n pool'. subst n pool'.
  unfold calculateDistancesParallel.
  destruct (negb (isInitialized pool) || bool_decide (workers pool = 0%nat)) eqn:Hguard.
  { cbn. repeat split; lia. }
  assert (Hready : ready pool).
  { apply orb_false_iff in Hguard as [Hinit Hw].
    apply negb_false_iff in Hinit. apply bool_decide_eq_false in Hw.
    split; [exact Hinit | lia]. }
  destruct Hready as [Hinit Hw].
  set (stationData := toStationData stations).
  destruct (bool_decide (length stationData = 0%nat)) eqn:Hempty.
  { cbn. repeat split; lia. }
  apply bool_decide_eq_false in Hempty.
  destruct (bool_decide (length stationData <= 20)%nat) eqn:Hsmall.
  - destruct (sendToWorker_ready answers lat lon stationData pool (conj Hinit Hw))
      as ([Hi' _] & Hw' & Hm').
    destruct (sendToWorker answers lat lon stationData pool) as [[result|] pool1];
      cbn [snd] in *; repeat split; try congruence; lia.
  - apply bool_decide_eq_false in Hsmall.
    match goal with
    | |- context [sendChunks answers lat lon ?chunks pool] =>
        destruct (sendChunks_pool answers lat lon chunks pool (conj Hinit Hw))
          as ([Hi' _] & Hw' & Hm');
        assert (Hcount : (length chunks <= Nat.min (workers pool) (length stationData))%nat);
        [apply chunk_count_bound; [lia | now destruct stationData]|];
        destruct (sendChunks answers lat lon chunks pool) as [promises pool1]
    end.
    cbn [snd] in *.
    destruct (promiseAll promises); cbn [snd]; repeat split; try congruence; lia.
Qed.
End ParallelBudget.

Lemma parallel_message_budget_witness :
  (ThreadedDistanceCalculator.messageId
     (snd (ThreadedDistanceCalculator.calculateDistancesParallel alwaysAnswers
             fourWorkers twoStations 1.3 103.8)) <= 0 + 1)%nat.
Proof.
  apply (parallel_message_budget alwaysAnswers fourWorkers twoStations 1.3 103.8).
  cbn. lia.
Defined.

(** ** The nearest station *)

Section NearestStation.
Import App.
Local Open Scope R_scope.

Lemma closestStep_invariant location seen acc station :
  nearestInvariant (latitude location) (longitude location) seen acc ->
  nearestInvariant (latitude location) (longitude location) (seen ++ [station])
    (closestStep location acc station).
Proof.
  intros Hinv. unfold closestStep.
  destruct (labelLocation station) as [loc|] eqn:Hloc.
  - rewrite getDistance_calculateDistance.
    set (d := WeatherService.calculateDistance _ _ _ _).
    assert (Hd : stationDistance (latitude location) (longitude location) station = Some d)
      by (unfold stationDistance; now rewrite Hloc).
    destruct acc as [[candidate|] [m|]]; cbn [snd closer]; try contradiction.
    + destruct Hinv as (Hin & Hm & Hleast).
      destruct (bool_decide (d < m)) eqn:Hlt.
      * apply bool_decide_eq_true in Hlt. split; [apply elem_of_app; right; left|].
        split; [exact Hd|]. intros s' d' Hs' Hd'.
        apply elem_of_app in Hs' as [Hs'|Hs'].
        -- specialize (Hleast s' d' Hs' Hd'). lra.
        -- apply list_elem_of_singleton in Hs'. subst s'.
           rewrite Hd in Hd'. injection Hd' as <-. lra.
      * apply bool_decide_eq_false in Hlt. split; [apply elem_of_app; now left|].
        split; [exact Hm|]. intros s' d' Hs' Hd'.
        apply elem_of_app in Hs' as [Hs'|Hs'].
        -- now apply (Hleast s' d').
        -- apply list_elem_of_singleton in Hs'. subst s'.
           rewrite Hd in Hd'. injection Hd' as <-. lra.
    + split; [apply elem_of_app; right; left|]. split; [exact Hd|].
      intros s' d' Hs' Hd'. cbn in Hinv.
      apply elem_of_app in Hs' as [Hs'|Hs'].
      * rewrite Forall_forall in Hinv. specialize (Hinv s' Hs').
        unfold stationDistance in Hd'. rewrite Hinv in Hd'. discriminate.
      * apply list_elem_of_singleton in Hs'. subst s'.
        rewrite Hd in Hd'. injection Hd' as <-. lra.
  - destruct acc as [[candidate|] [m|]]; cbn in *; try contradiction.
    + destruct Hinv as (Hin & Hm & Hleast).
      split; [apply elem_of_app; now left|]. split; [exact Hm|].
      intros s' d' Hs' Hd'. apply elem_of_app in Hs' as [Hs'|Hs'].
      * now apply (Hleast s' d').
      * apply list_elem_of_singleton in Hs'. subst s'.
        unfold stationDistance in Hd'. rewrite Hloc in Hd'. discriminate.
    + apply Forall_app. split; [exact Hinv|]. now constructor.
Qed.

Lemma closestStation_invariant location stations :
  nearestInvariant (latitude location) (longitude location) stations
    (foldl (closestStep location) (None, None) stations).
Proof.
  induction stations as [|station stations IH] using rev_ind; [constructor|].
  rewrite foldl_snoc. now apply closestStep_invariant.
Qed.
End NearestStation.

(** X25: the station shown as nearest is a located station of the snapshot
    whose distance to the user is not larger than that of any other located
    station; no station is shown exactly when no station has a location; and
    an empty station list is the one case that is reported as an error, with
    the text ["No weather station data available."]. *)
Theorem closestStation_is_nearest :
  forall (location : UserLocation) (data : WeatherData) (previous : App.Display),
    let lat := latitude location in
    let lon := longitude location in
    (forall s, App.closestStation location (stations data) = Some s ->
       s ∈ stations data /\
       exists d, stationDistance lat lon s = Some d /\
         forall s' d', s' ∈ stations data -> stationDistance lat lon s' = Some d' ->
                       (d <= d')%R) /\
    (App.closestStation location (stations data) = None <->
     Forall (fun s => labelLocation s = None) (stations data)) /\
    (App.processWeatherData location data previous
       = inl "No weather station data available." <->
     stations data = []) /\
    (forall message,
       App.processWeatherData location data previous = inl message ->
       message = "No weather station data available.").
Proof.
  intros location data previous lat lon. subst lat lon.
  pose proof (closestStation_invariant location (stations data)) as Hinv.
  assert (Herror :
    (App.processWeatherData location data previous
       = inl "No weather station data available." <->
     stations data = []) /\
    (forall message,
       App.processWeatherData location data previous = inl message ->
       message = "No weather station data available.")).
  { unfold App.processWeatherData. destruct (stations data) as [|s sts].
    - split; [now split | now intros message [= <-]].
    - destruct (App.closestStation location (s :: sts)); split;
        try (split; discriminate); intros message; discriminate. }
  unfold App.closestStation.
  destruct (foldl (App.closestStep location) (None, None) (stations data))
    as [[candidate|] [m|]] eqn:Hfold; cbn in Hinv; try contradiction.
  - destruct Hinv as (Hin & Hm & Hleast). cbn [fst].
    split; [intros s [= <-]; split; [exact Hin | now exists m]|].
    split; [|exact Herror].
    split; [discriminate|]. intros Hnone. rewrite Forall_forall in Hnone.
    specialize (Hnone candidate Hin). unfold stationDistance in Hm.
    rewrite Hnone in Hm. discriminate.
  - cbn [fst]. split; [discriminate|]. split; [now split | exact Herror].
Qed.

Section NearestExample.
Import App.
Local Open Scope R_scope.

Lemma calculateDistance_nonneg (lat1 lon1 lat2 lon2 : R) :
  0 <= WeatherService.calculateDistance lat1 lon1 lat2 lon2.
Proof.
  unfold WeatherService.calculateDistance. cbv zeta.
  match goal with
  | |- context [Js.atan2 (sqrt ?a) (sqrt ?b)] =>
      pose proof (atan2_quadrant (sqrt a) (sqrt b) (sqrt_pos a) (sqrt_pos b))
  end.
  lra.
Qed.

(** Alpha stands where the user is; Bravo is compared with it and loses. *)
Lemma closestStation_twoStations :
  closestStation singapore twoStations
  = Some {| id := "S1"; deviceId := "S1"; name := "Alpha";
            labelLocation := Some {| latitude := 1.30; longitude := 103.80 |} |}.
Proof.
  unfold closestStation, twoStations. cbn [foldl].
  unfold closestStep at 2. cbn [labelLocation].
  rewrite getDistance_calculateDistance. cbn [closer snd].
  unfold closestStep. cbn [labelLocation].
  rewrite getDistance_calculateDistance. cbn [closer snd singapore latitude longitude].
  replace 1.30 with 1.3 by lra. replace 103.80 with 103.8 by lra.
  rewrite calculateDistance_same.
  rewrite bool_decide_eq_false_2; [reflexivity|].
  pose proof (calculateDistance_nonneg 1.3 103.8 1.31 103.81). lra.
Qed.
End NearestExample.

Lemma closestStation_is_nearest_witness :
  exists d,
    stationDistance 1.3 103.8
      {| id := "S1"; deviceId := "S1"; name := "Alpha";
         labelLocation := Some {| latitude := 1.30; longitude := 103.80 |} |} = Some d /\
    forall s' d', s' ∈ twoStations -> stationDistance 1.3 103.8 s' = Some d' ->
                  (d <= d')%R.
Proof.
  destruct (closestStation_is_nearest singapore
              (rainySnapshot twoStations {[ "S1" := 5%R ]} ∅)
              {| App.nearestStation := None; App.rainfallValue := None;
                 App.windSpeed := None; App.windDirection := None |})
    as (Hnearest & _).
  destruct (Hnearest _ closestStation_twoStations) as (_ & d & Hd & Hleast).
  exists d. split; [exact Hd | exact Hleast].
Defined.

(** ** Cardinal directions, continued *)

Section CardinalMore.
Import Location.
Local Open Scope R_scope.

Lemma convertDegreesToCardinal_index (deg : R) :
  0 <= deg ->
  convertDegreesToCardinal deg = directions !! Z.to_nat (Js.round (deg / 22.5) mod 16).
Proof.
  intros Hdeg. destruct (cardinal_index deg Hdeg) as [Hrange Hindex].
  unfold convertDegreesToCardinal, Js.index.
  destruct (decide _); [|lia]. now rewrite Hindex.
Qed.

Lemma round_full_turn (deg : R) : Js.round ((deg + 360) / 22.5) = (Js.round (deg / 22.5) + 16)%Z.
Proof.
  unfold Js.round.
  replace ((deg + 360) / 22.5 + 1 / 2) with (deg / 22.5 + 1 / 2 - IZR (-16)) by lra.
  rewrite Zfloor_shift. lia.
Qed.
End CardinalMore.

(** X26: for non-negative angles the compass label repeats every 360 degrees,
    and an angle within 11.25 degrees of the [k]-th multiple of 22.5 (the
    lower end included, the upper end excluded) gets the [k]-th label,
    counted around the compass. *)
Theorem convertDegreesToCardinal_sectors :
  forall (deg : R) (k : Z),
    (0 <= deg)%R ->
    Location.convertDegreesToCardinal (deg + 360) = Location.convertDegreesToCardinal deg /\
    ((22.5 * IZR k - 11.25 <= deg < 22.5 * IZR k + 11.25)%R ->
     Location.convertDegreesToCardinal deg = Location.directions !! Z.to_nat (k mod 16)).
Proof.
  intros deg k Hdeg. split.
  - rewrite !convertDegreesToCardinal_index by lra.
    rewrite round_full_turn.
    replace (Js.round (deg / 22.5) + 16)%Z with (Js.round (deg / 22.5) + 1 * 16)%Z by lia.
    now rewrite Z_mod_plus_full.
  - intros Hsector. rewrite convertDegreesToCardinal_index by lra.
    now rewrite (round_value (deg / 22.5) k) by lra.
Qed.

Lemma convertDegreesToCardinal_sectors_witness :
  Location.convertDegreesToCardinal 100 = Some "E".
Proof.
  apply (convertDegreesToCardinal_sectors 100 4); simpl; lra.
Defined.

(** X27: the suggested pool size is at least one half and at most eight,
    whatever the browser reports and whatever the size of the data. *)
Theorem getOptimalPoolSize_bounds :
  forall (hardwareConcurrency : option nat) (dataSize : nat),
    (1 / 2 <= ThreadedDistanceCalculator.getOptimalPoolSize hardwareConcurrency dataSize
     <= 8)%R.
Proof.
  intros hardwareConcurrency dataSize.
  unfold ThreadedDistanceCalculator.getOptimalPoolSize. cbv zeta.
  pose proof (detectCpuCores_pos hardwareConcurrency) as Hcores.
  apply le_INR in Hcores. simpl INR in Hcores at 1.
  destruct (bool_decide _); [lra|].
  destruct (bool_decide _); unfold Rmin; destruct (Rle_dec _ _); lra.
Qed.
